(** * Build-time media synchronisation of the hybrid-images plugin

    A shallow embedding of [plugins/netlify-hybrid-images/src/setup.js]:
    the path resolver [resolveMediaPath], the JSON walker
    [transformContent], the fetcher [downloadAsset], the worker pool
    [downloadWithConcurrency], the build hook
    [netlifyHybridImagesSetup] and the file collector
    [collectJsonFiles], followed by the properties of the
    specification that were checked against them and by further
    properties of the code.

    Conventions of the embedding.
    - A JavaScript string is a [string]: the sequence of the bytes of its
      UTF-8 encoding.  Every delimiter the code looks for (slash, dot,
      question mark, percent, backslash) is an ASCII character, and an
      ASCII byte never occurs inside a multi-byte UTF-8 sequence, so
      [startsWith], [split], [includes] and [join] agree with their
      JavaScript counterparts on well-formed strings.
    - A JavaScript exception is an explicit [Throw] completion.
    - Node's [path] module is the POSIX flavour (the build runs on Linux).
    - Log output is not modelled: no decision of the code depends on it. *)

From Stdlib Require Import ZArith String Ascii List Bool Lia DecimalString.
From stdpp Require Import gmap strings list.

Local Open Scope string_scope.
Local Open Scope list_scope.

(** ** JavaScript values shared by all components *)

Record js_error := JsError { err_name : string; err_message : string }.

Inductive completion (A : Type) : Type :=
| Normal (a : A)
| Throw (e : js_error).
Arguments Normal {A} a.
Arguments Throw {A} e.

(** ** String primitives of JavaScript *)

Module Js.

(** [s.startsWith(p)] *)
Definition startsWith (s p : string) : bool := String.prefix p s.

(** [s.slice(n)] for [0 <= n] *)
Fixpoint slice (s : string) (n : nat) : string :=
  match n, s with
  | O, _ => s
  | S _, EmptyString => EmptyString
  | S n', String _ s' => slice s' n'
  end.

(** [s.includes(sub)] *)
Fixpoint includes (s sub : string) : bool :=
  String.prefix sub s ||
  match s with
  | EmptyString => false
  | String _ s' => includes s' sub
  end.

(** [s.split(sep)] for a one-character separator: never the empty list. *)
Fixpoint split (s : string) (sep : ascii) : list string :=
  match s with
  | EmptyString => [EmptyString]
  | String c s' =>
      if Ascii.eqb c sep then EmptyString :: split s' sep
      else match split s' sep with
           | h :: t => String c h :: t
           | [] => [String c EmptyString]
           end
  end.

(** [l.join(sep)] *)
Definition join (l : list string) (sep : string) : string :=
  String.concat sep l.

(** truthiness of a string: [Boolean(s)] *)
Definition truthy (s : string) : bool := negb (String.eqb s "").

(** [l.filter(Boolean)] on an array of strings *)
Definition filter_Boolean (l : list string) : list string :=
  List.filter truthy l.

(** the last character of [s], if any *)
Fixpoint last_char (s : string) : option ascii :=
  match s with
  | EmptyString => None
  | String c EmptyString => Some c
  | String _ s' => last_char s'
  end.

End Js.

(** ** [decodeURIComponent]

    The Decode operation of ECMAScript with an empty reserved set, on the
    UTF-8 representation: every escape [%XX] becomes the octet [XX], and
    the octets that escapes produce have to form well-formed UTF-8
    (Unicode table 3-7); anything else raises [URIError], modelled as
    [None]. *)

Module Uri.

Definition hex_val (c : ascii) : option N :=
  let n := N_of_ascii c in
  if (48 <=? n)%N && (n <=? 57)%N then Some (n - 48)%N
  else if (65 <=? n)%N && (n <=? 70)%N then Some (n - 55)%N
  else if (97 <=? n)%N && (n <=? 102)%N then Some (n - 87)%N
  else None.

(** an escape at the head of [s]: its octet and the rest of [s] *)
Definition percent_octet (s : string) : option (N * string) :=
  match s with
  | String "%" (String h (String l rest)) =>
      match hex_val h, hex_val l with
      | Some a, Some b => Some (16 * a + b, rest)%N
      | _, _ => None
      end
  | _ => None
  end.

Definition in_range (lo hi b : N) : bool := ((lo <=? b) && (b <=? hi))%N.

(** number of continuation octets announced by a lead octet >= 0x80 *)
Definition continuation_count (b : N) : option nat :=
  if in_range 194 223 b then Some 1%nat
  else if in_range 224 239 b then Some 2%nat
  else if in_range 240 244 b then Some 3%nat
  else None.

(** admissible range of the second octet, by lead octet *)
Definition second_octet_ok (lead b : N) : bool :=
  if (lead =? 224)%N then in_range 160 191 b
  else if (lead =? 237)%N then in_range 128 159 b
  else if (lead =? 240)%N then in_range 144 191 b
  else if (lead =? 244)%N then in_range 128 143 b
  else in_range 128 191 b.

(** [n] escaped continuation octets; [first] tells whether the next
    one is the second octet of the sequence *)
Fixpoint continuation (n : nat) (lead : N) (first : bool) (s : string)
  : option (string * string) :=
  match n with
  | O => Some (EmptyString, s)
  | S n' =>
      match percent_octet s with
      | None => None
      | Some (b, rest) =>
          if (if first then second_octet_ok lead b else in_range 128 191 b)
          then match continuation n' lead false rest with
               | Some (bytes, rest') => Some (String (ascii_of_N b) bytes, rest')
               | None => None
               end
          else None
      end
  end.

Fixpoint decode (fuel : nat) (s : string) : option string :=
  match s with
  | EmptyString => Some EmptyString
  | String c rest =>
      match fuel with
      | O => None
      | S fuel' =>
          if Ascii.eqb c "%" then
            match percent_octet s with
            | None => None
            | Some (b, rest1) =>
                if (b <? 128)%N then
                  option_map (String (ascii_of_N b)) (decode fuel' rest1)
                else
                  match continuation_count b with
                  | None => None
                  | Some n =>
                      match continuation n b true rest1 with
                      | None => None
                      | Some (bytes, rest2) =>
                          option_map
                            (fun tl => String (ascii_of_N b) (bytes +:+ tl))
                            (decode fuel' rest2)
                      end
                  end
            end
          else option_map (String c) (decode fuel' rest)
      end
  end.

Definition decodeURIComponent (s : string) : option string :=
  decode (String.length s) s.

Definition URIError : js_error := JsError "URIError" "URI malformed".

End Uri.

(** ** Node's [path.posix]

    [normalize] and [join] of Node's [path] module, segment by segment:
    empty segments and [.] are dropped, [..] removes the segment before
    it unless that one is itself [..]; above the start of a relative path
    the [..] is kept, above the root of an absolute path it is dropped.
    A trailing slash survives. *)

Module NodePath.

Definition is_dotdot (s : string) : bool := String.eqb s "..".

(** one segment against the stack of segments kept so far (last first) *)
Definition norm_step (allowAboveRoot : bool) (stack : list string) (seg : string)
  : list string :=
  if String.eqb seg "" || String.eqb seg "." then stack
  else if is_dotdot seg then
    match stack with
    | top :: below =>
        if is_dotdot top then (if allowAboveRoot then ".." :: stack else stack)
        else below
    | [] => if allowAboveRoot then [".."] else []
    end
  else seg :: stack.

Definition normalizeString (segs : list string) (allowAboveRoot : bool)
  : list string :=
  rev (fold_left (norm_step allowAboveRoot) segs []).

Definition is_slash (o : option ascii) : bool :=
  match o with Some c => Ascii.eqb c "/" | None => false end.

Definition normalize (path : string) : string :=
  if String.eqb path "" then "."
  else
    let isAbsolute := Js.startsWith path "/" in
    let trailingSeparator := is_slash (Js.last_char path) in
    let res := Js.join (normalizeString (Js.split path "/") (negb isAbsolute)) "/" in
    if String.eqb res "" then
      (if isAbsolute then "/" else if trailingSeparator then "./" else ".")
    else
      (if isAbsolute then "/" else "") +:+ res +:+
      (if trailingSeparator then "/" else "").

Definition join (args : list string) : string :=
  match Js.filter_Boolean args with
  | [] => "."
  | parts => normalize (Js.join parts "/")
  end.

End NodePath.

(** ** The path resolver *)

Record media_context := MediaContext {
  mediaPrefix : string;
  mediaDir : string;
  mediaOutputDir : string
}.

Record media_match := MediaMatch {
  cacheKey : string;
  remoteUrl : string;
  downloadUrl : string;
  filePath : string;
  localPath : string;
  localPathWithQuery : string
}.

(** [const [rawPath, query = ''] = remainder.split('?')]: the first two
    parts only; whatever follows a second question mark is not bound. *)
Definition rawPath_of (remainder : string) : string :=
  nth 0 (Js.split remainder "?") "".

Definition query_of (remainder : string) : string :=
  nth 1 (Js.split remainder "?") "".

Definition escapes_root (posixPath : string) : bool :=
  Js.startsWith posixPath "../" || Js.includes posixPath "..\" ||
  String.eqb posixPath "..".

Definition resolveMediaPath (url : string) (ctx : media_context)
  : completion (option media_match) :=
  if negb (Js.startsWith url (mediaPrefix ctx)) then Normal None
  else
    let remainder := Js.slice url (String.length (mediaPrefix ctx)) in
    let rawPath := rawPath_of remainder in
    let query := query_of remainder in
    if negb (Js.truthy rawPath) then Normal None
    else
      match Uri.decodeURIComponent rawPath with
      | None => Throw Uri.URIError
      | Some decodedPath =>
          let posixPath := NodePath.normalize decodedPath in
          if escapes_root posixPath then Normal None
          else
            let segments := Js.filter_Boolean (Js.split posixPath "/") in
            match segments with
            | [] => Normal None
            | _ =>
                let filePath := NodePath.join (mediaOutputDir ctx :: segments) in
                let localPath := "/" +:+ Js.join (mediaDir ctx :: segments) "/" in
                let localPathWithQuery :=
                  if Js.truthy query then localPath +:+ "?" +:+ query
                  else localPath in
                Normal (Some {|
                  cacheKey := mediaDir ctx +:+ "/" +:+ Js.join segments "/";
                  remoteUrl := url;
                  downloadUrl := mediaPrefix ctx +:+ rawPath;
                  filePath := filePath;
                  localPath := localPath;
                  localPathWithQuery := localPathWithQuery |})
            end
      end.

(** ** Content documents and the walker [transformContent] *)

(** A parsed JSON document.  The entries of an object are in the order
    of [Object.entries]; a JavaScript object has no duplicate keys. *)
#[warnings="-register-all"] Inductive json : Type :=
| JNull
| JBool (b : bool)
| JNumber (lexeme : string)
| JString (s : string)
| JArray (items : list json)
| JObject (entries : list (string * json)).

(** What [visit] returns: [{ value, modified }]. *)
Record visit_result := VisitResult { vr_value : json; vr_modified : bool }.

Section TransformContent.

(** The callback reads and writes a store of type [St] (the asset map
    of the scan pass) and may throw. *)
Context {St : Type}.
Variable transformer : string -> St -> completion string * St.

(** The body of the loop over the children of a container:
    [if (result.modified) { node[index] = result.value; modified = true; }]
    after the child was visited.  The result is the child that is at
    this place afterwards. *)
Definition visit_child (visit : json -> St -> bool -> completion visit_result * St * bool)
    (child : json) (st : St) (flag : bool)
  : completion json * St * bool :=
  match visit child st flag with
  | (Normal r, st1, flag1) =>
      (Normal (if vr_modified r then vr_value r else child), st1,
       if vr_modified r then true else flag1)
  | (Throw e, st1, flag1) => (Throw e, st1, flag1)
  end.

(** [for (let index = 0; index < node.length; index++)] *)
Definition visit_items (visit : json -> St -> bool -> completion visit_result * St * bool)
  : list json -> St -> bool -> completion (list json) * St * bool :=
  fix loop (items : list json) (st : St) (flag : bool) :=
    match items with
    | [] => (Normal [], st, flag)
    | item :: rest =>
        match visit_child visit item st flag with
        | (Normal item', st1, flag1) =>
            match loop rest st1 flag1 with
            | (Normal rest', st2, flag2) => (Normal (item' :: rest'), st2, flag2)
            | (Throw e, st2, flag2) => (Throw e, st2, flag2)
            end
        | (Throw e, st1, flag1) => (Throw e, st1, flag1)
        end
    end.

(** [for (const [key, originalValue] of Object.entries(node))] *)
Definition visit_entries (visit : json -> St -> bool -> completion visit_result * St * bool)
  : list (string * json) -> St -> bool -> completion (list (string * json)) * St * bool :=
  fix loop (entries : list (string * json)) (st : St) (flag : bool) :=
    match entries with
    | [] => (Normal [], st, flag)
    | (key, originalValue) :: rest =>
        match visit_child visit originalValue st flag with
        | (Normal v', st1, flag1) =>
            match loop rest st1 flag1 with
            | (Normal rest', st2, flag2) => (Normal ((key, v') :: rest'), st2, flag2)
            | (Throw e, st2, flag2) => (Throw e, st2, flag2)
            end
        | (Throw e, st1, flag1) => (Throw e, st1, flag1)
        end
    end.

(** [visit node], threading the callback's store and the variable
    [modified] of the enclosing call.  The source updates a container in
    place and returns the container itself: here the value of a visited
    container is the container with its children as the loop left them. *)
Fixpoint visit (node : json) (st : St) (flag : bool)
  : completion visit_result * St * bool :=
  match node with
  | JArray items =>
      match visit_items visit items st flag with
      | (Normal items', st', flag') =>
          (Normal (VisitResult (JArray items') flag'), st', flag')
      | (Throw e, st', flag') => (Throw e, st', flag')
      end
  | JObject entries =>
      match visit_entries visit entries st flag with
      | (Normal entries', st', flag') =>
          (Normal (VisitResult (JObject entries') flag'), st', flag')
      | (Throw e, st', flag') => (Throw e, st', flag')
      end
  | JString s =>
      match transformer s st with
      | (Normal transformed, st1) =>
          if String.eqb transformed s
          then (Normal (VisitResult node false), st1, flag)
          else (Normal (VisitResult (JString transformed) true), st1, true)
      | (Throw e, st1) => (Throw e, st1, flag)
      end
  | _ => (Normal (VisitResult node false), st, flag)
  end.

Definition is_container (node : json) : bool :=
  match node with
  | JArray _ | JObject _ => true
  | _ => false
  end.

(** [visit(value); return { value, modified }]: the result of the
    outermost [visit] is dropped, so [value] is the caller's own
    reference: an updated container, or the untouched scalar. *)
Definition transformContent (value : json) (st : St)
  : completion (json * bool) * St :=
  match visit value st false with
  | (Normal r, st', flag) =>
      (Normal (if is_container value then vr_value r else value, flag), st')
  | (Throw e, st', _) => (Throw e, st')
  end.

End TransformContent.

(** ** JavaScript [Map] and [Set], in insertion order *)

Module JsMap.
Section WithValue.
Context {V : Type}.

Fixpoint has (m : list (string * V)) (k : string) : bool :=
  match m with
  | [] => false
  | (k', _) :: m' => String.eqb k' k || has m' k
  end.

Fixpoint get (m : list (string * V)) (k : string) : option V :=
  match m with
  | [] => None
  | (k', v) :: m' => if String.eqb k' k then Some v else get m' k
  end.

(** [m.set(k, v)]: a present key keeps its place, a new one goes last *)
Fixpoint set (m : list (string * V)) (k : string) (v : V) : list (string * V) :=
  match m with
  | [] => [(k, v)]
  | (k', v') :: m' =>
      if String.eqb k' k then (k', v) :: m' else (k', v') :: set m' k v
  end.

Definition keys (m : list (string * V)) : list string := map fst m.
Definition values (m : list (string * V)) : list V := map snd m.
End WithValue.
End JsMap.

Module JsSet.
Definition has (s : list string) (k : string) : bool :=
  existsb (String.eqb k) s.
Definition add (s : list string) (k : string) : list string :=
  if has s k then s else s ++ [k].
End JsSet.

(** ** Cache entries *)

(** A property of a JavaScript object: absent, present with the value
    [undefined], or present with a value.  Object spread copies the
    second kind too. *)
Inductive prop (A : Type) : Type :=
| Absent
| Undefined
| Value (a : A).
Arguments Absent {A}.
Arguments Undefined {A}.
Arguments Value {A} a.

Definition prop_truthy (p : prop string) : bool :=
  match p with
  | Value s => Js.truthy s
  | _ => false
  end.

(** The metadata of one cached asset, as the fetcher returns it and as
    the manifest stores it per cache key. *)
Record metadata := Metadata {
  etag : prop string;
  lastModified : prop string;
  size : prop nat;
  downloadedAt : prop string;
  checkedAt : prop string;
  meta_remoteUrl : prop string;
  meta_localPath : prop string
}.

Definition empty_object : metadata :=
  Metadata Absent Absent Absent Absent Absent Absent Absent.

Definition spread_prop {A} (base over : prop A) : prop A :=
  match over with
  | Absent => base
  | _ => over
  end.

(** [{ ...base, ...over }] *)
Definition spread (base over : metadata) : metadata :=
  {| etag := spread_prop (etag base) (etag over);
     lastModified := spread_prop (lastModified base) (lastModified over);
     size := spread_prop (size base) (size over);
     downloadedAt := spread_prop (downloadedAt base) (downloadedAt over);
     checkedAt := spread_prop (checkedAt base) (checkedAt over);
     meta_remoteUrl := spread_prop (meta_remoteUrl base) (meta_remoteUrl over);
     meta_localPath := spread_prop (meta_localPath base) (meta_localPath over) |}.

(** An asset of the work list: the resolver's match and the metadata the
    manifest had for its key ([null] when it had none). *)
Record asset := Asset {
  asset_match : media_match;
  asset_metadata : option metadata
}.

(** ** The fetcher [downloadAsset] *)

Inductive download_status := Downloaded | Skipped | Failed.

Record download_result := DownloadResult {
  dl_status : download_status;
  dl_metadata : option metadata
}.

Record response := Response {
  status : Z;
  statusText : string;
  header_etag : option string;
  header_lastModified : option string
}.

(** What the outside world does during one attempt: whether creating the
    parent directory throws, what [fetch] settles to (an abort by the
    timeout is the rejection named AbortError), what reading the body and
    writing the file do, and the clock. *)
Record attempt_world := AttemptWorld {
  mkdir_error : option js_error;
  fetched : completion response;
  body : completion (list Byte.byte);
  write_error : option js_error;
  now : string
}.

Record asset_world := AssetWorld {
  file_exists : bool;
  attempts : Z -> attempt_world
}.

Inductive event :=
| EnsureDirectoryOf (file : string)
| Request (url : string) (headers : option (list (string * string)))
| WriteFile (path : string) (content : list Byte.byte)
| Sleep (ms : Z).

Definition response_ok (r : response) : bool :=
  (200 <=? status r)%Z && (status r <=? 299)%Z.

Definition decimal (z : Z) : string :=
  NilZero.string_of_int (Z.to_int z).

(** [new Error(`HTTP ${response.status} ${response.statusText}`)] *)
Definition http_error (r : response) : js_error :=
  JsError "Error" ("HTTP " +:+ decimal (status r) +:+ " " +:+ statusText r).

Definition isTimeout (e : js_error) : bool := String.eqb (err_name e) "AbortError".

Definition isRetriable (e : js_error) : bool :=
  isTimeout e ||
  Js.includes (err_message e) "socket hang up" ||
  Js.includes (err_message e) "ECONNRESET" ||
  Js.includes (err_message e) "ETIMEDOUT" ||
  Js.includes (err_message e) "ECONNREFUSED".

(** [response.headers.get(name) || undefined] *)
Definition header_or_undefined (h : option string) : prop string :=
  match h with
  | Some v => if Js.truthy v then Value v else Undefined
  | None => Undefined
  end.

Definition hasMetadata (a : asset) : bool :=
  match asset_metadata a with
  | Some m => prop_truthy (etag m) || prop_truthy (lastModified m)
  | None => false
  end.

Definition conditional_header (name : string) (p : prop string)
  : list (string * string) :=
  match p with
  | Value v => if Js.truthy v then [(name, v)] else []
  | _ => []
  end.

Definition conditionalHeaders (a : asset) : list (string * string) :=
  match asset_metadata a with
  | Some m =>
      conditional_header "If-None-Match" (etag m) ++
      conditional_header "If-Modified-Since" (lastModified m)
  | None => []
  end.

(** How one pass through the loop body ends. *)
Inductive iteration :=
| Returns (r : download_result)
| Continues
| Throws (e : js_error).

Section DownloadAsset.

Variable a : asset.
Variable world : asset_world.
Variables maxRetries retryDelay : Z.
Variable skipUnchanged : bool.

Definition shouldUseConditional : bool :=
  skipUnchanged && file_exists world && hasMetadata a.

Definition request_headers : option (list (string * string)) :=
  if shouldUseConditional then Some (conditionalHeaders a) else None.

(** the [try] block of attempt number [attempt] *)
Definition try_block (attempt : Z) : iteration * list event :=
  let w := attempts world attempt in
  let ev1 := [EnsureDirectoryOf (filePath (asset_match a))] in
  match mkdir_error w with
  | Some e => (Throws e, ev1)
  | None =>
      let ev2 := ev1 ++ [Request (downloadUrl (asset_match a)) request_headers] in
      match fetched w with
      | Throw e => (Throws e, ev2)
      | Normal resp =>
          if (status resp =? 304)%Z then
            let md :=
              spread (default empty_object (asset_metadata a))
                     {| etag := Absent; lastModified := Absent; size := Absent;
                        downloadedAt := Absent; checkedAt := Value (now w);
                        meta_remoteUrl := Absent; meta_localPath := Absent |} in
            (Returns (DownloadResult Skipped (Some md)), ev2)
          else if negb (response_ok resp) then
            if (400 <=? status resp)%Z && (status resp <? 500)%Z &&
               negb (status resp =? 429)%Z
            then (Throws (http_error resp), ev2)
            else if (attempt <? maxRetries)%Z
                 then (Continues, ev2 ++ [Sleep (retryDelay * attempt)])
                 else (Throws (http_error resp), ev2)
          else
            match body w with
            | Throw e => (Throws e, ev2)
            | Normal bytes =>
                let ev3 := ev2 ++ [WriteFile (filePath (asset_match a)) bytes] in
                match write_error w with
                | Some e => (Throws e, ev3)
                | None =>
                    let md :=
                      {| etag := header_or_undefined (header_etag resp);
                         lastModified := header_or_undefined (header_lastModified resp);
                         size := Value (length bytes);
                         downloadedAt := Value (now w);
                         checkedAt := Value (now w);
                         meta_remoteUrl := Absent;
                         meta_localPath := Absent |} in
                    (Returns (DownloadResult Downloaded (Some md)), ev3)
                end
            end
      end
  end.

(** the [catch] block *)
Definition catch_block (attempt : Z) (error : js_error) : iteration * list event :=
  if isRetriable error && (attempt <? maxRetries)%Z
  then (Continues, [Sleep (retryDelay * attempt)])
  else (Returns (DownloadResult Failed None), []).

Definition loop_body (attempt : Z) : iteration * list event :=
  match try_block attempt with
  | (Throws e, ev) =>
      let '(it, ev') := catch_block attempt e in (it, ev ++ ev')
  | other => other
  end.

(** [for (let attempt = 1; attempt <= maxRetries; attempt++)], by the
    number of attempts that remain: [maxRetries - attempt + 1]. *)
Fixpoint attempt_loop (remaining : nat) (attempt : Z)
  : download_result * list event :=
  match remaining with
  | O => (DownloadResult Failed None, [])
  | S remaining' =>
      match loop_body attempt with
      | (Returns r, ev) => (r, ev)
      | (Continues, ev) =>
          let '(r, ev') := attempt_loop remaining' (attempt + 1) in (r, ev ++ ev')
      | (Throws _, ev) => (DownloadResult Failed None, ev)
      end
  end.

Definition downloadAsset : download_result * list event :=
  attempt_loop (Z.to_nat maxRetries) 1.

End DownloadAsset.

(** ** The worker pool [downloadWithConcurrency]

    JavaScript runs one worker at a time, from one [await] to the next;
    the only [await] of a worker is the call of [downloadAsset].  A state
    of the pool therefore records, per worker, the index of the asset
    whose download it awaits, and a step of the pool is the settling of
    one of these awaits.  Which await settles next is decided by the
    network: it is given from outside as a schedule.  The events of a
    download are put on the trace of the pool in one piece when it
    settles; the world of a download does not depend on the others. *)

Record pool_state := PoolState {
  index : nat;
  success : nat;
  skipped : nat;
  failed : nat;
  manifestUpdates : list (string * metadata);
  manifestRemovals : list string;
  workers : list (option nat);
  completed : list (nat * download_status);
  trace : list event
}.

Definition pool_init : pool_state :=
  PoolState 0 0 0 0 [] [] [] [] [].

Section DownloadWithConcurrency.

Variable assets : list asset.
Variable world : nat -> asset_world.
Variables maxRetries retryDelay : Z.
Variable skipUnchanged : bool.

(** The head of the worker's loop: [while (index < assets.length)]
    followed by [const currentIndex = index++].  [None]: the loop, and
    with it the worker, has ended. *)
Definition claim (st : pool_state) : pool_state * option nat :=
  if (index st <? length assets)%nat then
    (PoolState (S (index st)) (success st) (skipped st) (failed st)
       (manifestUpdates st) (manifestRemovals st) (workers st)
       (completed st) (trace st),
     Some (index st))
  else (st, None).

(** One more worker is created: it runs up to its first [await]. *)
Definition spawn (st : pool_state) : pool_state :=
  let '(st', slot) := claim st in
  PoolState (index st') (success st') (skipped st') (failed st')
    (manifestUpdates st') (manifestRemovals st') (workers st' ++ [slot])
    (completed st') (trace st').

(** The rest of the loop body, once [downloadAsset] has settled. *)
Definition record_result (i : nat) (a : asset) (st : pool_state) : pool_state :=
  let '(result, ev) :=
    downloadAsset a (world i) maxRetries retryDelay skipUnchanged in
  let key := cacheKey (asset_match a) in
  PoolState (index st)
    (match dl_status result with Downloaded => S (success st) | _ => success st end)
    (match dl_status result with Skipped => S (skipped st) | _ => skipped st end)
    (match dl_status result with Failed => S (failed st) | _ => failed st end)
    (match dl_metadata result with
     | Some md =>
         JsMap.set (manifestUpdates st) key
           (spread md
              {| etag := Absent; lastModified := Absent; size := Absent;
                 downloadedAt := Absent; checkedAt := Absent;
                 meta_remoteUrl := Value (remoteUrl (asset_match a));
                 meta_localPath := Value (localPath (asset_match a)) |})
     | None => manifestUpdates st
     end)
    (match dl_status result with
     | Failed => JsSet.add (manifestRemovals st) key
     | _ => manifestRemovals st
     end)
    (workers st)
    (completed st ++ [(i, dl_status result)])
    (trace st ++ ev).

(** The await of worker [w] settles: the worker finishes its iteration
    and goes to the head of the loop again. *)
Definition resume (w : nat) (st : pool_state) : pool_state :=
  match workers st !! w with
  | Some (Some i) =>
      match assets !! i with
      | Some a =>
          let '(st', slot) := claim (record_result i a st) in
          PoolState (index st') (success st') (skipped st') (failed st')
            (manifestUpdates st') (manifestRemovals st')
            (<[w := slot]> (workers st')) (completed st') (trace st')
      | None =>
          PoolState (index st) (success st) (skipped st) (failed st)
            (manifestUpdates st) (manifestRemovals st)
            (<[w := None]> (workers st)) (completed st) (trace st)
      end
  | _ => st
  end.

(** The workers that are waiting, by position. *)
Fixpoint waiting_from (w : nat) (ws : list (option nat)) : list nat :=
  match ws with
  | [] => []
  | Some _ :: ws' => w :: waiting_from (S w) ws'
  | None :: ws' => waiting_from (S w) ws'
  end.

Definition waiting (st : pool_state) : list nat := waiting_from 0 (workers st).

(** The schedule names the next worker to settle among those waiting. *)
Definition pick (choice : nat) (st : pool_state) : option nat :=
  waiting st !! (choice mod length (waiting st))%nat.

(** [await Promise.all(workers)] *)
Fixpoint run_pool (fuel : nat) (schedule : list nat) (st : pool_state) : pool_state :=
  match fuel with
  | O => st
  | S fuel' =>
      match pick (hd 0%nat schedule) st with
      | Some w => run_pool fuel' (tl schedule) (resume w st)
      | None => st
      end
  end.

Definition worker_count (concurrency : Z) : nat :=
  let boundedConcurrency := Z.max 1 concurrency in
  Z.to_nat (Z.min boundedConcurrency (Z.of_nat (length assets))).

Definition pool_start (concurrency : Z) : pool_state :=
  Nat.iter (worker_count concurrency) spawn pool_init.

Definition downloadWithConcurrency (concurrency : Z) (schedule : list nat)
  : pool_state :=
  match assets with
  | [] => pool_init
  | _ => run_pool (length assets) schedule (pool_start concurrency)
  end.

End DownloadWithConcurrency.

(** ** The build hook [netlifyHybridImagesSetup] *)

Module Options.
Record t := Make {
  enabled : bool;
  publicDir : string;
  mediaDir : string;
  concurrency : Z;
  cacheManifest : option string;
  skipUnchanged : bool;
  rewriteContent : bool;
  maxRetries : Z;
  retryDelay : Z;
  timeout : Z
}.
End Options.

(** [defaultOptions] of the plugin's [index.js] *)
Definition defaultOptions : Options.t :=
  {| Options.enabled := true;
     Options.publicDir := "public";
     Options.mediaDir := "media";
     Options.concurrency := 2;
     Options.cacheManifest := Some "hybrid-images-manifest.json";
     Options.skipUnchanged := true;
     Options.rewriteContent := true;
     Options.maxRetries := 3;
     Options.retryDelay := 1000;
     Options.timeout := 30000 |}.

(** [n || d] on numbers *)
Definition or_default (n d : Z) : Z := if (n =? 0)%Z then d else n.

(** [path.resolve(from, to)] for an absolute [from] *)
Definition path_resolve (from to : string) : string :=
  let resolvedPath :=
    if String.eqb to "" then from +:+ "/"
    else if Js.startsWith to "/" then to +:+ "/"
    else from +:+ "/" +:+ to +:+ "/" in
  "/" +:+ Js.join (NodePath.normalizeString (Js.split resolvedPath "/") false) "/".

Inductive manifest_file :=
| ManifestMissing
| ManifestUnreadable
| ManifestStored (m : gmap string metadata).

(** What the build finds: the value of [getKirbyUrl()], the project
    root, the manifest file, the content directory with the result of
    reading and parsing each file that [collectJsonFiles] lists ([None]
    when that throws), and the network.  A stored manifest is a JSON
    object of cache entries.  Creating the media directory and writing
    the manifest and the documents succeed: a failure there would end
    the hook in its outer [catch] with nothing further written. *)
Record build_env := BuildEnv {
  kirbyUrl : option string;
  projectRoot : string;
  stored_manifest : manifest_file;
  content_dir_exists : bool;
  json_files : list (string * option json);
  network : nat -> asset_world;
  schedule : list nat
}.

Inductive run_outcome :=
| PluginDisabled
| KirbyUrlUndefined
| ContentDirMissing
| NoJsonFiles
| NoMediaUrls
| RewritingSkipped (failed_assets : nat)
| Completed
| Crashed (e : js_error).

Record run_result := RunResult {
  outcome : run_outcome;
  manifest_path : option string;
  manifest_after : gmap string metadata;
  manifest_written : option (gmap string metadata);
  work_list : list asset;
  downloads : pool_state;
  fileEntries : list (string * json);
  document_writes : list (string * json)
}.

Definition computed_manifest_path (mediaOutputDir : string) (options : Options.t)
  : option string :=
  match Options.cacheManifest options with
  | Some name =>
      if Js.truthy name then Some (NodePath.join [mediaOutputDir; name]) else None
  | None => None
  end.

Definition load_manifest (manifestPath : option string) (file : manifest_file)
  : gmap string metadata :=
  match manifestPath, file with
  | Some _, ManifestStored m => m
  | _, _ => ∅
  end.

(** the callback of the scanning pass *)
Definition scan_transformer (ctx : media_context) (manifestPath : option string)
    (manifest : gmap string metadata)
    (value : string) (assetMap : list (string * asset))
  : completion string * list (string * asset) :=
  match resolveMediaPath value ctx with
  | Throw e => (Throw e, assetMap)
  | Normal None => (Normal value, assetMap)
  | Normal (Some m) =>
      if JsMap.has assetMap (cacheKey m) then (Normal value, assetMap)
      else
        let cachedMetadata :=
          match manifestPath with
          | Some _ => manifest !! cacheKey m
          | None => None
          end in
        (Normal value, JsMap.set assetMap (cacheKey m) (Asset m cachedMetadata))
  end.

(** the callback of the rewriting pass *)
Definition rewrite_transformer (ctx : media_context) (value : string) (_ : unit)
  : completion string * unit :=
  match resolveMediaPath value ctx with
  | Throw e => (Throw e, tt)
  | Normal None => (Normal value, tt)
  | Normal (Some m) => (Normal (localPathWithQuery m), tt)
  end.

(** one file of the scanning loop; the [catch] keeps the assets found so
    far and leaves the file out of [fileEntries] *)
Definition scan_file (ctx : media_context) (manifestPath : option string)
    (manifest : gmap string metadata)
    (acc : list (string * asset) * list (string * json))
    (file : string * option json)
  : list (string * asset) * list (string * json) :=
  let '(assetMap, entries) := acc in
  match snd file with
  | None => acc
  | Some data =>
      match transformContent (scan_transformer ctx manifestPath manifest) data assetMap with
      | (Normal (data', _), assetMap') => (assetMap', entries ++ [(fst file, data')])
      | (Throw _, assetMap') => (assetMap', entries)
      end
  end.

Definition scan (ctx : media_context) (manifestPath : option string)
    (manifest : gmap string metadata) (files : list (string * option json))
  : list (string * asset) * list (string * json) :=
  fold_left (scan_file ctx manifestPath manifest) files ([], []).

Definition upsert (acc : gmap string metadata * bool) (update : string * metadata)
  : gmap string metadata * bool :=
  let previous := default empty_object (fst acc !! fst update) in
  (<[fst update := spread previous (snd update)]> (fst acc), true).

Definition remove_key (acc : gmap string metadata * bool) (key : string)
  : gmap string metadata * bool :=
  match fst acc !! key with
  | Some _ => (delete key (fst acc), true)
  | None => acc
  end.

(** the manifest block after the downloads: upserts, then removals *)
Definition merge_manifest (manifest : gmap string metadata) (result : pool_state)
  : gmap string metadata * bool :=
  fold_left remove_key (manifestRemovals result)
    (fold_left upsert (manifestUpdates result) (manifest, false)).

(** [JSON.stringify] leaves out the properties that are [undefined] *)
Definition stringify_prop {A} (p : prop A) : prop A :=
  match p with
  | Undefined => Absent
  | _ => p
  end.

Definition stringify_metadata (m : metadata) : metadata :=
  {| etag := stringify_prop (etag m);
     lastModified := stringify_prop (lastModified m);
     size := stringify_prop (size m);
     downloadedAt := stringify_prop (downloadedAt m);
     checkedAt := stringify_prop (checkedAt m);
     meta_remoteUrl := stringify_prop (meta_remoteUrl m);
     meta_localPath := stringify_prop (meta_localPath m) |}.

(** the rewriting loop: the files written so far, and the exception that
    ended the loop if one did *)
Fixpoint rewrite_entries (ctx : media_context) (entries : list (string * json))
    (written : list (string * json))
  : list (string * json) * option js_error :=
  match entries with
  | [] => (written, None)
  | (path, data) :: rest =>
      match transformContent (rewrite_transformer ctx) data tt with
      | (Normal (data', modified), _) =>
          rewrite_entries ctx rest
            (if modified then written ++ [(path, data')] else written)
      | (Throw e, _) => (written, Some e)
      end
  end.

Definition netlifyHybridImagesSetup (options : Options.t) (env : build_env)
  : run_result :=
  let idle (o : run_outcome) (path : option string) (m : gmap string metadata) :=
    RunResult o path m None [] pool_init [] [] in
  if negb (Options.enabled options) then idle PluginDisabled None ∅
  else
    match kirbyUrl env with
    | None => idle KirbyUrlUndefined None ∅
    | Some url =>
        if negb (Js.truthy url) then idle KirbyUrlUndefined None ∅
        else
          let mediaPrefix := url +:+ "/media/" in
          let publicDir := path_resolve (projectRoot env) (Options.publicDir options) in
          let mediaOutputDir := NodePath.join [publicDir; Options.mediaDir options] in
          let manifestPath := computed_manifest_path mediaOutputDir options in
          let manifest := load_manifest manifestPath (stored_manifest env) in
          let skipUnchanged :=
            Options.skipUnchanged options &&
            match manifestPath with Some _ => true | None => false end in
          if negb (content_dir_exists env) then idle ContentDirMissing manifestPath manifest
          else
            match json_files env with
            | [] => idle NoJsonFiles manifestPath manifest
            | jsonFiles =>
                let ctx := MediaContext mediaPrefix (Options.mediaDir options) mediaOutputDir in
                let '(assetMap, entries) := scan ctx manifestPath manifest jsonFiles in
                match assetMap with
                | [] => RunResult NoMediaUrls manifestPath manifest None [] pool_init entries []
                | _ =>
                    let assets := JsMap.values assetMap in
                    let downloadResult :=
                      downloadWithConcurrency assets (network env)
                        (or_default (Options.maxRetries options) 3)
                        (or_default (Options.retryDelay options) 1000)
                        skipUnchanged
                        (Options.concurrency options) (schedule env) in
                    let '(manifest', written) :=
                      match manifestPath with
                      | Some _ =>
                          let '(m, changed) := merge_manifest manifest downloadResult in
                          (m, if changed then Some (stringify_metadata <$> m) else None)
                      | None => (manifest, None)
                      end in
                    if (0 <? failed downloadResult)%nat then
                      RunResult (RewritingSkipped (failed downloadResult))
                        manifestPath manifest' written assets downloadResult entries []
                    else if Options.rewriteContent options then
                      match rewrite_entries ctx entries [] with
                      | (writes, None) =>
                          RunResult Completed manifestPath manifest' written
                            assets downloadResult entries writes
                      | (writes, Some e) =>
                          RunResult (Crashed e) manifestPath manifest' written
                            assets downloadResult entries writes
                      end
                    else
                      RunResult Completed manifestPath manifest' written
                        assets downloadResult entries []
                end
            end
    end.

(** ** The file collector [collectJsonFiles] *)

(** [s.endsWith(suffix)] *)
Definition endsWith (s suffix : string) : bool :=
  (String.length suffix <=? String.length s)%nat &&
  String.eqb (Js.slice s (String.length s - String.length suffix)) suffix.

(** What [readdirSync(directory, { withFileTypes: true })] tells of an
    entry: a regular file, a directory (with its own entries), or
    something else, such as a symbolic link, for which neither [isFile()]
    nor [isDirectory()] holds. *)
#[warnings="-register-all"] Inductive dirent : Type :=
| RegularFile
| Directory (entries : list (string * dirent))
| OtherEntry.

(** [for (const entry of entries)] in the directory [directory];
    [collect] is the function itself, called for the directories among
    the entries. *)
Definition collect_entries (collect : string -> dirent -> list string)
    (directory : string) : list (string * dirent) -> list string :=
  fix loop (entries : list (string * dirent)) : list string :=
    match entries with
    | [] => []
    | (name, entry) :: rest =>
        let entryPath := NodePath.join [directory; name] in
        match entry with
        | Directory _ => collect entryPath entry ++ loop rest
        | RegularFile =>
            if endsWith name ".json" then entryPath :: loop rest else loop rest
        | OtherEntry => loop rest
        end
    end.

(** the call for a directory that exists *)
Fixpoint collect_directory (directory : string) (node : dirent) : list string :=
  match node with
  | Directory entries => collect_entries collect_directory directory entries
  | _ => []
  end.

(** the error of [readdirSync] on something that is no directory *)
Definition ENOTDIR (path : string) : js_error :=
  JsError "Error" ("ENOTDIR: not a directory, scandir '" +:+ path +:+ "'").

(** [collectJsonFiles(directory)], given what is found at [directory]:
    nothing, or an entry of the file system.  Reading a directory is taken
    to succeed. *)
Definition collectJsonFiles (directory : string) (found : option dirent)
  : completion (list string) :=
  match found with
  | None => Normal []
  | Some (Directory entries) => Normal (collect_directory directory (Directory entries))
  | Some _ => Throw (ENOTDIR directory)
  end.

(** * Example inputs *)

Definition example_ctx : media_context :=
  MediaContext "https://cms.example/media/" "media" "/site/public/media".

Definition hero_match : media_match :=
  {| cacheKey := "media/pages/home/hero.jpg";
     remoteUrl := "https://cms.example/media/pages/home/hero.jpg?w=400";
     downloadUrl := "https://cms.example/media/pages/home/hero.jpg";
     filePath := "/site/public/media/pages/home/hero.jpg";
     localPath := "/media/pages/home/hero.jpg";
     localPathWithQuery := "/media/pages/home/hero.jpg?w=400" |}.

Definition hero_cached : metadata :=
  {| etag := Value "abc";
     lastModified := Value "Tue, 14 Oct 2025 08:00:00 GMT";
     size := Value 3%nat;
     downloadedAt := Value "2025-10-15T09:00:00.000Z";
     checkedAt := Value "2025-10-15T09:00:00.000Z";
     meta_remoteUrl := Value "https://cms.example/media/pages/home/hero.jpg?w=400";
     meta_localPath := Value "/media/pages/home/hero.jpg" |}.

Definition hero_asset : asset := Asset hero_match (Some hero_cached).
Definition hero_fresh : asset := Asset hero_match None.

Definition answer (st : Z) (text : string) : attempt_world :=
  {| mkdir_error := None;
     fetched := Normal (Response st text (Some "xyz") None);
     body := Normal [Byte.x01; Byte.x02; Byte.x03; Byte.x04];
     write_error := None;
     now := "2025-10-16T10:00:00.000Z" |}.

(** 503, 503, then 200 *)
Definition flaky_origin : asset_world :=
  {| file_exists := false;
     attempts := fun n =>
       if (n <=? 2)%Z then answer 503 "Service Unavailable" else answer 200 "OK" |}.

(** the origin confirms the cached copy *)
Definition unchanged_origin : asset_world :=
  {| file_exists := true; attempts := fun _ => answer 304 "Not Modified" |}.

(** a 404 whose reason phrase names a connection error *)
Definition misleading_origin : asset_world :=
  {| file_exists := false; attempts := fun _ => answer 404 "ECONNRESET" |}.

Definition gone_origin : asset_world :=
  {| file_exists := false; attempts := fun _ => answer 404 "Not Found" |}.

Definition healthy_origin : asset_world :=
  {| file_exists := false; attempts := fun _ => answer 200 "OK" |}.

(** the attempt is answered with status [st] *)
Definition answered (w : attempt_world) (st : Z) : Prop :=
  mkdir_error w = None /\ exists resp, fetched w = Normal resp /\ status resp = st.

Definition home_document : json :=
  JObject
    [("hero", JString "https://cms.example/media/pages/home/hero.jpg?w=400");
     ("title", JString "Home");
     ("gallery",
      JArray [JString "https://cms.example/media/pages/home/a.jpg";
              JString "https://cms.example/media/pages/home/hero.jpg?w=400";
              JNumber "3"])].

Definition about_document : json :=
  JObject [("portrait", JString "https://cms.example/media/pages/home/hero.jpg?w=800")].

Definition example_env (origin : nat -> asset_world) : build_env :=
  {| kirbyUrl := Some "https://cms.example";
     projectRoot := "/site";
     stored_manifest := ManifestStored {[ "media/pages/home/a.jpg" := hero_cached ]};
     content_dir_exists := true;
     json_files :=
       [("/site/public/content/home.json", Some home_document);
        ("/site/public/content/broken.json", None);
        ("/site/public/content/about.json", Some about_document)];
     network := origin;
     schedule := [1%nat; 0%nat] |}.

Definition partly_failing (i : nat) : asset_world :=
  match i with
  | O => healthy_origin
  | _ => gone_origin
  end.

(** the plugin with [cacheManifest: false] *)
Definition options_without_manifest : Options.t :=
  {| Options.enabled := true;
     Options.publicDir := "public";
     Options.mediaDir := "media";
     Options.concurrency := 2;
     Options.cacheManifest := None;
     Options.skipUnchanged := true;
     Options.rewriteContent := true;
     Options.maxRetries := 3;
     Options.retryDelay := 1000;
     Options.timeout := 30000 |}.

(** a content directory: two documents, a symbolic link, a text file,
    and a directory whose name ends in [.json] *)
Definition example_tree : dirent :=
  Directory
    [("home.json", RegularFile);
     ("latest.json", OtherEntry);
     ("notes.txt", RegularFile);
     ("pages.json", Directory [("about.json", RegularFile); ("drafts", Directory [])])].

(** a callback that records the strings it is given and returns each
    with a mark appended *)
Definition marking_callback (s : string) (seen : list string)
  : completion string * list string :=
  (Normal (s +:+ "!"), seen ++ [s]).

(** a proxy that is out of capacity *)
Definition overloaded_origin : asset_world :=
  {| file_exists := false; attempts := fun _ => answer 429 "Too Many Requests" |}.

Definition aborted : attempt_world :=
  {| mkdir_error := None;
     fetched := Throw (JsError "AbortError" "The user aborted a request.");
     body := Normal [];
     write_error := None;
     now := "2025-10-16T10:00:00.000Z" |}.

(** two attempts run into the timeout, the third one is answered *)
Definition stalling_origin : asset_world :=
  {| file_exists := false;
     attempts := fun n => if (n <=? 2)%Z then aborted else answer 200 "OK" |}.

(** the name of the host does not resolve *)
Definition unknown_host : asset_world :=
  {| file_exists := false;
     attempts := fun _ =>
       {| mkdir_error := None;
          fetched := Throw (JsError "FetchError"
                       "request to https://cms.example/media/a.jpg failed, reason: getaddrinfo ENOTFOUND cms.example");
          body := Normal [];
          write_error := None;
          now := "2025-10-16T10:00:00.000Z" |} |}.

(** a build whose manifest still has an entry for an asset that no
    document refers to any more *)
Definition stale_env : build_env :=
  {| kirbyUrl := Some "https://cms.example";
     projectRoot := "/site";
     stored_manifest := ManifestStored {[ "media/pages/old/logo.svg" := hero_cached ]};
     content_dir_exists := true;
     json_files := [("/site/public/content/home.json", Some home_document)];
     network := fun _ => healthy_origin;
     schedule := [] |}.

(** * Vocabulary of the properties *)

Definition sleeps (ev : list event) : list Z :=
  omap (fun e => match e with Sleep ms => Some ms | _ => None end) ev.

Definition requests (ev : list event) : list (option (list (string * string))) :=
  omap (fun e => match e with Request _ h => Some h | _ => None end) ev.

Definition writes (ev : list event) : list string :=
  omap (fun e => match e with WriteFile p _ => Some p | _ => None end) ev.

(** the body arrives and the file is written *)
Definition delivered (w : attempt_world) : Prop :=
  (exists bytes, body w = Normal bytes) /\ write_error w = None.

(** a status that is neither 304, nor 2xx, nor a 4xx other than 429 *)
Definition retriable_status (st : Z) : Prop :=
  st <> 304%Z /\ ~ (200 <= st <= 299)%Z /\ (~ (400 <= st < 500)%Z \/ st = 429%Z).

Fixpoint occurs (c : ascii) (s : string) : bool :=
  match s with
  | EmptyString => false
  | String c' s' => Ascii.eqb c' c || occurs c s'
  end.

(** an ordinary path segment: not empty, without a slash, neither [.]
    nor [..] *)
Definition plain (seg : string) : bool :=
  Js.truthy seg && negb (occurs "/" seg) &&
  negb (String.eqb seg ".") && negb (String.eqb seg "..").

(** the absolute path with the given segments *)
Definition absolute_path (segs : list string) : string := "/" +:+ Js.join segs "/".

(** ordinary segments on top of as many [..] as the path climbed above
    its start; none when climbing is not allowed *)
Definition well_stacked (allow : bool) (stack : list string) : Prop :=
  exists normals k,
    stack = normals ++ repeat ".." k /\
    Forall (fun s => plain s = true) normals /\
    (allow = false -> k = 0%nat).

(** the strings of a document, in the order in which [visit] meets them *)
Fixpoint strings_of (j : json) : list string :=
  match j with
  | JString s => [s]
  | JArray items => flat_map strings_of items
  | JObject entries => flat_map (fun kv => strings_of (snd kv)) entries
  | _ => []
  end.

(** The rewriter in the words of the specification: every string of the
    document is replaced by its image under [f]. *)
Fixpoint spec_replace_strings (f : string -> string) (j : json) : json :=
  match j with
  | JString s => JString (f s)
  | JArray items => JArray (map (spec_replace_strings f) items)
  | JObject entries =>
      JObject (map (fun kv => (fst kv, spec_replace_strings f (snd kv))) entries)
  | _ => j
  end.

(** some string of [l] is changed by [f] *)
Definition changes (f : string -> string) (l : list string) : bool :=
  existsb (fun s => negb (String.eqb (f s) s)) l.

(** the callback applied to the strings of a document one after the
    other, up to the first exception *)
Fixpoint run_callback {St : Type} (t : string -> St -> completion string * St)
    (l : list string) (st : St) : option js_error * St :=
  match l with
  | [] => (None, st)
  | s :: l' =>
      match t s st with
      | (Normal _, st') => run_callback t l' st'
      | (Throw e, st') => (Some e, st')
      end
  end.

(** the walk of a callback that returns the string it was given: the
    callback's effects in sequence, nothing replaced, [modified] as it was *)
Definition walk_preserving {St : Type} (t : string -> St -> completion string * St)
    (node : json) (st : St) (flag : bool)
  : completion visit_result * St * bool :=
  match run_callback t (strings_of node) st with
  | (None, st') =>
      (Normal (VisitResult node (if is_container node then flag else false)), st', flag)
  | (Some e, st') => (Throw e, st', flag)
  end.

(** the callback computes [f] on the strings of [l], without effect *)
Definition computes {St : Type} (t : string -> St -> completion string * St)
    (f : string -> string) (l : list string) : Prop :=
  Forall (fun s => forall st, t s st = (Normal (f s), st)) l.

(** the walk of such a callback: every string replaced by its image,
    [modified] raised when some string changed *)
Definition walk_replacing {St : Type} (f : string -> string)
    (node : json) (st : St) (flag : bool)
  : completion visit_result * St * bool :=
  let changed := changes f (strings_of node) in
  (Normal (VisitResult (spec_replace_strings f node)
             (if is_container node then flag || changed else changed)),
   st, flag || changed).

(** the last step of [normalize]: the segments that are left, between
    the leading slash of an absolute path and the trailing slash *)
Definition render (isAbsolute trailingSeparator : bool) (out : list string) : string :=
  let res := Js.join out "/" in
  if String.eqb res "" then
    (if isAbsolute then "/" else if trailingSeparator then "./" else ".")
  else
    (if isAbsolute then "/" else "") +:+ res +:+
    (if trailingSeparator then "/" else "").

(** the segments of a path: its parts between slashes, without the
    empty ones *)
Definition path_segments (path : string) : list string :=
  Js.filter_Boolean (Js.split path "/").

(** [path] is an absolute path that leads through the segments of [dir]
    and then through ordinary segments only *)
Definition lies_under (dir path : string) : Prop :=
  Js.startsWith path "/" = true /\
  exists below,
    path_segments path = path_segments dir ++ below /\
    Forall (fun s => plain s = true) below.

(** the resolver's configuration in a build *)
Definition build_context (options : Options.t) (env : build_env) (url : string)
  : media_context :=
  MediaContext (url +:+ "/media/") (Options.mediaDir options)
    (NodePath.join [path_resolve (projectRoot env) (Options.publicDir options);
                    Options.mediaDir options]).

(** The query string in the words of the specification: all that follows
    the first question mark, when there is one. *)
Fixpoint spec_query (s : string) : option string :=
  match s with
  | EmptyString => None
  | String c s' => if Ascii.eqb c "?" then Some s' else spec_query s'
  end.

(** The public path in the words of the specification: the media
    directory and the segments, then the question mark and the whole
    query string whenever the URL has one. *)
Definition spec_public_path (ctx : media_context) (segments : list string)
    (remainder : string) : string :=
  "/" +:+ mediaDir ctx +:+ "/" +:+ Js.join segments "/" +:+
  match spec_query remainder with
  | Some q => "?" +:+ q
  | None => ""
  end.

(** the normalised segments of a decoded path *)
Definition segments_of (decoded : string) : list string :=
  Js.filter_Boolean (Js.split (NodePath.normalize decoded) "/").

(** what the rewriting callback makes of a string that does not throw *)
Definition rewritten (ctx : media_context) (s : string) : string :=
  match resolveMediaPath s ctx with
  | Normal (Some m) => localPathWithQuery m
  | _ => s
  end.

Definition resolves_quietly (ctx : media_context) (s : string) : Prop :=
  forall e, resolveMediaPath s ctx <> Throw e.

(** the strings of a list up to the first one on which the resolver throws *)
Fixpoint quiet_prefix (ctx : media_context) (l : list string) : list string :=
  match l with
  | [] => []
  | s :: l' =>
      match resolveMediaPath s ctx with
      | Throw _ => []
      | _ => s :: quiet_prefix ctx l'
      end
  end.

(** the strings the scanning pass hands to the resolver without an
    exception, file after file *)
Definition scanned_strings (ctx : media_context) (files : list (string * option json))
  : list string :=
  flat_map (fun file =>
              match snd file with
              | Some data => quiet_prefix ctx (strings_of data)
              | None => []
              end) files.

(** the effect of the scanning callback on the asset map *)
Definition register (ctx : media_context) (manifestPath : option string)
    (manifest : gmap string metadata)
    (assetMap : list (string * asset)) (s : string) : list (string * asset) :=
  snd (scan_transformer ctx manifestPath manifest s assetMap).

(** the match of the first string of [l] that resolves to the cache key [k] *)
Fixpoint first_match (ctx : media_context) (l : list string) (k : string)
  : option media_match :=
  match l with
  | [] => None
  | s :: l' =>
      match resolveMediaPath s ctx with
      | Normal (Some m) => if String.eqb (cacheKey m) k then Some m else first_match ctx l' k
      | _ => first_match ctx l' k
      end
  end.

(** the metadata the manifest holds for a cache key, if a manifest is
    configured *)
Definition cached (manifestPath : option string) (manifest : gmap string metadata)
    (k : string) : option metadata :=
  match manifestPath with
  | Some _ => manifest !! k
  | None => None
  end.

(** an entry kept for the rewriting pass: a file of the content
    directory as it was parsed, none of whose strings throws *)
Definition kept_entry (ctx : media_context) (files : list (string * option json))
    (entry : string * json) : Prop :=
  In (fst entry, Some (snd entry)) files /\
  Forall (resolves_quietly ctx) (strings_of (snd entry)).

(** every key is the cache key of its asset, and no key occurs twice *)
Definition well_keyed (assetMap : list (string * asset)) : Prop :=
  NoDup (JsMap.keys assetMap) /\
  Forall (fun kv => fst kv = cacheKey (asset_match (snd kv))) assetMap.

Definition status_eqb (s1 s2 : download_status) : bool :=
  match s1, s2 with
  | Downloaded, Downloaded | Skipped, Skipped | Failed, Failed => true
  | _, _ => false
  end.

(** how many of the completed downloads ended with status [s] *)
Definition count_status (s : download_status) (l : list (nat * download_status)) : nat :=
  length (List.filter (fun c => status_eqb (snd c) s) l).

(** the indices the workers are waiting for *)
Definition awaited (ws : list (option nat)) : list nat := omap id ws.

(** What holds of the pool between two steps. *)
Record pool_inv (assets : list asset) (world : nat -> asset_world)
    (maxRetries retryDelay : Z) (skipUnchanged : bool) (st : pool_state) : Prop := PoolInv {
  inv_index : (index st <= length assets)%nat;
  inv_claimed : map fst (completed st) ++ awaited (workers st) ≡ₚ seq 0 (index st);
  inv_busy : (index st < length assets)%nat -> Forall is_Some (workers st);
  inv_outcomes :
    Forall (fun c => exists a, assets !! fst c = Some a /\ snd c =
              dl_status (fst (downloadAsset a (world (fst c)) maxRetries retryDelay
                                skipUnchanged)))
           (completed st);
  inv_success : success st = count_status Downloaded (completed st);
  inv_skipped : skipped st = count_status Skipped (completed st);
  inv_failed : failed st = count_status Failed (completed st);
  inv_removals : forall k,
    In k (manifestRemovals st) <->
    exists i a, In (i, Failed) (completed st) /\ assets !! i = Some a /\
                cacheKey (asset_match a) = k;
  inv_updates : forall k,
    In k (JsMap.keys (manifestUpdates st)) <->
    exists i s a, In (i, s) (completed st) /\ s <> Failed /\ assets !! i = Some a /\
                  cacheKey (asset_match a) = k
}.
Arguments inv_index {_ _ _ _ _} st _.
Arguments inv_claimed {_ _ _ _ _} st _.
Arguments inv_busy {_ _ _ _ _} st _ _.
Arguments inv_outcomes {_ _ _ _ _} st _.
Arguments inv_success {_ _ _ _ _} st _.
Arguments inv_skipped {_ _ _ _ _} st _.
Arguments inv_failed {_ _ _ _ _} st _.
Arguments inv_removals {_ _ _ _ _} st _ _.
Arguments inv_updates {_ _ _ _ _} st _ _.

(** the entries of the manifest file *)
Definition entries_of (file : manifest_file) : gmap string metadata :=
  match file with
  | ManifestStored m => m
  | _ => ∅
  end.

(** the entries of the manifest file after the build *)
Definition persisted_after (r : run_result) (env : build_env) : gmap string metadata :=
  match manifest_written r with
  | Some m => m
  | None => entries_of (stored_manifest env)
  end.

(** the latest outcome per cache key, brought up to date with the
    downloads of a build *)
Definition record_outcomes (assets : list asset)
    (outcomes : list (nat * download_status)) (h : gmap string download_status)
  : gmap string download_status :=
  fold_left (fun h c =>
               match assets !! fst c with
               | Some a => <[cacheKey (asset_match a) := snd c]> h
               | None => h
               end) outcomes h.

Definition history_after (r : run_result) (h : gmap string download_status)
  : gmap string download_status :=
  record_outcomes (work_list r) (completed (downloads r)) h.

(** every entry of the manifest belongs to a key whose latest outcome
    was [Downloaded] or [Skipped] *)
Definition manifest_sound (m : gmap string metadata) (h : gmap string download_status)
  : Prop :=
  forall k, is_Some (m !! k) -> h !! k = Some Downloaded \/ h !! k = Some Skipped.

(** The JSON files below a directory in the words of the documentation
    ("recursively collect JSON files within a directory"): for every
    regular file whose name ends in [.json], at any depth, the names that
    lead to it, in the order of the directory listing. *)
Fixpoint json_paths (node : dirent) : list (list string) :=
  match node with
  | Directory entries =>
      flat_map (fun item =>
                  match snd item with
                  | Directory _ => map (cons (fst item)) (json_paths (snd item))
                  | RegularFile => if endsWith (fst item) ".json" then [[fst item]] else []
                  | OtherEntry => []
                  end) entries
  | _ => []
  end.

(** every name in the tree is the name of a directory entry: not empty,
    without a slash, neither [.] nor [..] *)
Fixpoint well_named (node : dirent) : bool :=
  match node with
  | Directory entries =>
      forallb (fun item => plain (fst item) && well_named (snd item)) entries
  | _ => true
  end.

(** the shape of a document: its arrays, objects, keys and scalars,
    with every string blanked *)
Fixpoint skeleton (j : json) : json :=
  match j with
  | JString _ => JString ""
  | JArray items => JArray (map skeleton items)
  | JObject entries => JObject (map (fun kv => (fst kv, skeleton (snd kv))) entries)
  | _ => j
  end.

(** a walk ends as the run of the callback over the strings [l] ends:
    normally with the store of that run, or with its exception *)
Definition walk_follows {St A : Type} (t : string -> St -> completion string * St)
    (l : list string) (st : St) (result : completion A * St * bool) : Prop :=
  match run_callback t l st with
  | (None, st') => exists v flag', result = (Normal v, st', flag')
  | (Some e, st') => exists flag', result = (Throw e, st', flag')
  end.

(** An attempt that fails in a way the loop takes for passing: a status
    that is retried, or a rejection of [fetch] that the [catch] block
    classifies as a timeout or a connection error. *)
Definition transient_failure (w : attempt_world) : Prop :=
  mkdir_error w = None /\
  ((exists resp, fetched w = Normal resp /\ retriable_status (status resp)) \/
   (exists e, fetched w = Throw e /\ isRetriable e = true)).

(** The attempt ends with the exception [e] raised by the world:
    creating the directory, the request, reading the body of an accepted
    response, or writing the file. *)
Definition rejects_with (w : attempt_world) (e : js_error) : Prop :=
  mkdir_error w = Some e \/
  (mkdir_error w = None /\
   (fetched w = Throw e \/
    exists resp, fetched w = Normal resp /\ status resp <> 304%Z /\
      response_ok resp = true /\
      (body w = Throw e \/
       ((exists bytes, body w = Normal bytes) /\ write_error w = Some e)))).

(** the passes through the loop body, counted by their first effect *)
Definition attempts_made (ev : list event) : nat :=
  length (omap (fun e => match e with EnsureDirectoryOf _ => Some tt | _ => None end) ev).

(** the metadata returned for a 304 at time [t] *)
Definition revalidated (a : asset) (t : string) : metadata :=
  spread (default empty_object (asset_metadata a))
    (Metadata Absent Absent Absent Absent (Value t) Absent Absent).

Section PoolVocabulary.

Variable assets : list asset.
Variable world : nat -> asset_world.
Variables maxRetries retryDelay : Z.
Variable skipUnchanged : bool.

(** the download of the asset at position [i], taken by itself *)
Definition own_download (i : nat) : option (download_result * list event) :=
  (fun a => downloadAsset a (world i) maxRetries retryDelay skipUnchanged) <$> assets !! i.

Definition own_status (i : nat) : option download_status :=
  (fun d => dl_status (fst d)) <$> own_download i.

Definition own_events (i : nat) : list event :=
  match own_download i with
  | Some d => snd d
  | None => []
  end.

(** how many assets of the list have a download that ends with status [s] *)
Definition tally (s : download_status) : nat :=
  length (List.filter
            (fun i => match own_status i with
                      | Some s' => status_eqb s' s
                      | None => false
                      end)
            (seq 0 (length assets))).

(** what the pool puts into [manifestUpdates] for the asset at position [i] *)
Definition own_update (i : nat) : option metadata :=
  match assets !! i with
  | Some a =>
      match dl_metadata (fst (downloadAsset a (world i) maxRetries retryDelay
                                skipUnchanged)) with
      | Some md =>
          Some (spread md
                  {| etag := Absent; lastModified := Absent; size := Absent;
                     downloadedAt := Absent; checkedAt := Absent;
                     meta_remoteUrl := Value (remoteUrl (asset_match a));
                     meta_localPath := Value (localPath (asset_match a)) |})
      | None => None
      end
  | None => None
  end.

End PoolVocabulary.

(** what the rewriting pass makes of a document it holds *)
Definition rewritten_document (ctx : media_context) (data : json) : json :=
  if is_container data then spec_replace_strings (rewritten ctx) data else data.

(** the document holds a string that the rewriting callback changes *)
Definition needs_rewriting (ctx : media_context) (data : json) : bool :=
  changes (rewritten ctx) (strings_of data).

(** the content directory with every document in its rewritten form *)
Definition rewritten_content (ctx : media_context) (env : build_env) : build_env :=
  {| kirbyUrl := kirbyUrl env;
     projectRoot := projectRoot env;
     stored_manifest := stored_manifest env;
     content_dir_exists := content_dir_exists env;
     json_files :=
       map (fun file => (fst file, option_map (spec_replace_strings (rewritten ctx)) (snd file)))
           (json_files env);
     network := network env;
     schedule := schedule env |}.

(** * Properties *)

(** ** The fetcher *)

Section FetcherFacts.

Variable a : asset.
Variable world : asset_world.
Variables maxRetries retryDelay : Z.
Variable skipUnchanged : bool.

Local Abbreviation body_of := (loop_body a world maxRetries retryDelay skipUnchanged).
Local Abbreviation loop := (attempt_loop a world maxRetries retryDelay skipUnchanged).
Local Abbreviation headers := (request_headers a world skipUnchanged).

Lemma loop_body_retriable_status attempt st :
  answered (attempts world attempt) st -> retriable_status st ->
  (attempt < maxRetries)%Z ->
  body_of attempt =
    (Continues,
     [EnsureDirectoryOf (filePath (asset_match a));
      Request (downloadUrl (asset_match a)) headers;
      Sleep (retryDelay * attempt)]).
Proof.
  intros (Hmk & resp & Hf & Hst) (H304 & Hok & H4) Hlt.
  unfold loop_body, try_block. rewrite Hmk, Hf. subst st.
  destruct (Z.eqb_spec (status resp) 304) as [|_]; [contradiction|].
  unfold response_ok.
  assert (Hnok : (200 <=? status resp)%Z && (status resp <=? 299)%Z = false).
  { apply andb_false_iff. destruct (Z.leb_spec 200 (status resp)); [|auto].
    right. apply Z.leb_gt. lia. }
  rewrite Hnok. cbn [negb].
  assert (Hterm : (400 <=? status resp)%Z && (status resp <? 500)%Z
                  && negb (status resp =? 429)%Z = false).
  { destruct H4 as [H4|H4].
    - apply andb_false_iff. left. apply andb_false_iff.
      destruct (Z.leb_spec 400 (status resp)); [|auto].
      right. apply Z.ltb_ge. lia.
    - rewrite H4. reflexivity. }
  rewrite Hterm.
  apply Z.ltb_lt in Hlt. rewrite Hlt. reflexivity.
Qed.

Lemma loop_body_success attempt st :
  answered (attempts world attempt) st -> (200 <= st <= 299)%Z ->
  delivered (attempts world attempt) ->
  exists md bytes,
    body_of attempt =
      (Returns (DownloadResult Downloaded (Some md)),
       [EnsureDirectoryOf (filePath (asset_match a));
        Request (downloadUrl (asset_match a)) headers;
        WriteFile (filePath (asset_match a)) bytes]) /\
    size md = Value (length bytes).
Proof.
  intros (Hmk & resp & Hf & Hst) Hok ((bytes & Hb) & Hw).
  unfold loop_body, try_block. rewrite Hmk, Hf, Hb, Hw. subst st.
  destruct (Z.eqb_spec (status resp) 304) as [E|_]; [lia|].
  unfold response_ok.
  replace ((200 <=? status resp)%Z && (status resp <=? 299)%Z) with true
    by (symmetry; apply andb_true_iff; split; apply Z.leb_le; lia).
  cbn [negb]. eexists _, bytes. split; reflexivity.
Qed.

Lemma loop_body_not_modified attempt :
  answered (attempts world attempt) 304 ->
  body_of attempt =
    (Returns
       (DownloadResult Skipped
          (Some (spread (default empty_object (asset_metadata a))
                   (Metadata Absent Absent Absent Absent
                      (Value (now (attempts world attempt))) Absent Absent)))),
     [EnsureDirectoryOf (filePath (asset_match a));
      Request (downloadUrl (asset_match a)) headers]).
Proof.
  intros (Hmk & resp & Hf & Hst).
  unfold loop_body, try_block. rewrite Hmk, Hf, Hst. reflexivity.
Qed.

(** A 4xx other than 429 is thrown into the [catch] block of the same
    iteration, which classifies it by its message. *)
Lemma loop_body_client_error attempt resp :
  mkdir_error (attempts world attempt) = None ->
  fetched (attempts world attempt) = Normal resp ->
  (400 <= status resp < 500)%Z -> status resp <> 429%Z ->
  body_of attempt =
    let '(it, ev) := catch_block maxRetries retryDelay attempt (http_error resp) in
    (it, [EnsureDirectoryOf (filePath (asset_match a));
          Request (downloadUrl (asset_match a)) headers] ++ ev).
Proof.
  intros Hmk Hf Hr H429.
  unfold loop_body, try_block. rewrite Hmk, Hf.
  destruct (Z.eqb_spec (status resp) 304) as [E|_]; [lia|].
  unfold response_ok.
  replace ((200 <=? status resp)%Z && (status resp <=? 299)%Z) with false
    by (symmetry; apply andb_false_iff; right; apply Z.leb_gt; lia).
  cbn [negb].
  replace ((400 <=? status resp)%Z && (status resp <? 500)%Z
           && negb (status resp =? 429)%Z) with true.
  - reflexivity.
  - symmetry. rewrite !andb_true_iff, negb_true_iff. repeat split.
    + apply Z.leb_le; lia.
    + apply Z.ltb_lt; lia.
    + apply Z.eqb_neq; assumption.
Qed.

(** [k] attempts that end in [continue] are followed by attempt
    [attempt + k]; their events come first. *)
Lemma attempt_loop_continues k : forall remaining attempt evs,
  (k <= remaining)%nat ->
  (forall j, (j < k)%nat ->
     body_of (attempt + Z.of_nat j) = (Continues, evs j)) ->
  loop remaining attempt =
    (fst (loop (remaining - k) (attempt + Z.of_nat k)),
     concat (map evs (seq 0 k)) ++
     snd (loop (remaining - k) (attempt + Z.of_nat k))).
Proof.
  induction k as [|k IH]; intros remaining attempt evs Hk Hc.
  - cbn. rewrite Nat.sub_0_r, Z.add_0_r. now destruct (loop remaining attempt).
  - destruct remaining as [|remaining]; [lia|].
    cbn [attempt_loop].
    pose proof (Hc 0%nat ltac:(lia)) as H0. rewrite Z.add_0_r in H0. rewrite H0.
    rewrite (IH remaining (attempt + 1)%Z (fun j => evs (S j))).
    + replace (attempt + 1 + Z.of_nat k)%Z with (attempt + Z.of_nat (S k))%Z by lia.
      replace (S remaining - S k)%nat with (remaining - k)%nat by lia.
      cbn [fst snd seq map concat]. rewrite <- seq_shift, map_map.
      now rewrite app_assoc.
    + lia.
    + intros j Hj. rewrite <- (Hc (S j)) by lia. f_equal. lia.
Qed.

(** Every request of a call carries the same, precomputed headers. *)
Lemma loop_body_requests attempt :
  Forall (fun h => h = headers) (requests (snd (body_of attempt))).
Proof.
  unfold loop_body, try_block.
  destruct (mkdir_error (attempts world attempt)).
  { unfold catch_block. destruct (_ && _); cbn; constructor. }
  destruct (fetched (attempts world attempt)) as [resp|e].
  2:{ unfold catch_block. destruct (_ && _); cbn; repeat constructor. }
  destruct (status resp =? 304)%Z; [cbn; repeat constructor|].
  destruct (negb (response_ok resp)).
  - destruct (_ && _ && _).
    + unfold catch_block. destruct (_ && _); cbn; repeat constructor.
    + destruct (attempt <? maxRetries)%Z; [cbn; repeat constructor|].
      unfold catch_block. destruct (_ && _); cbn; repeat constructor.
  - destruct (body (attempts world attempt)).
    2:{ unfold catch_block. destruct (_ && _); cbn; repeat constructor. }
    destruct (write_error (attempts world attempt)).
    + unfold catch_block. destruct (_ && _); cbn; repeat constructor.
    + cbn; repeat constructor.
Qed.

Lemma requests_app ev1 ev2 : requests (ev1 ++ ev2) = requests ev1 ++ requests ev2.
Proof. apply omap_app. Qed.

Lemma attempt_loop_requests remaining : forall attempt,
  Forall (fun h => h = headers) (requests (snd (loop remaining attempt))).
Proof.
  induction remaining as [|n IH]; intros attempt; cbn [attempt_loop].
  - constructor.
  - pose proof (loop_body_requests attempt) as Hb.
    destruct (body_of attempt) as [[r| |e] ev]; cbn [snd] in *; try assumption.
    specialize (IH (attempt + 1)%Z).
    destruct (loop n (attempt + 1)%Z) as [r ev']. cbn [snd] in *.
    rewrite requests_app. apply Forall_app; split; assumption.
Qed.

End FetcherFacts.

Lemma sleeps_app ev1 ev2 : sleeps (ev1 ++ ev2) = sleeps ev1 ++ sleeps ev2.
Proof. apply omap_app. Qed.

Lemma writes_app ev1 ev2 : writes (ev1 ++ ev2) = writes ev1 ++ writes ev2.
Proof. apply omap_app. Qed.

Lemma retry_events_sleeps file url h (delay : nat -> Z) (l : list nat) :
  sleeps (concat (map (fun j => [EnsureDirectoryOf file; Request url h; Sleep (delay j)]) l))
  = map delay l.
Proof. induction l as [|j l IH]; cbn; [reflexivity|]. now f_equal. Qed.

Lemma retry_events_requests file url h (delay : nat -> Z) (l : list nat) :
  length (requests
    (concat (map (fun j => [EnsureDirectoryOf file; Request url h; Sleep (delay j)]) l)))
  = length l.
Proof. induction l as [|j l IH]; cbn; [reflexivity|]. now f_equal. Qed.

Lemma retry_events_writes file url h (delay : nat -> Z) (l : list nat) :
  writes (concat (map (fun j => [EnsureDirectoryOf file; Request url h; Sleep (delay j)]) l))
  = [].
Proof. induction l as [|j l IH]; cbn; [reflexivity|]. assumption. Qed.

(** Linear backoff, in general: after [k] attempts answered with a
    retriable status, a delivered 2xx on attempt [k + 1] ends the call
    as [Downloaded]; the sleep after attempt [n] lasted [retryDelay * n]. *)
Lemma retries_then_download (a : asset) (world : asset_world)
    (maxRetries retryDelay : Z) (skipUnchanged : bool) (k : nat) (st : Z) :
  (Z.of_nat k < maxRetries)%Z ->
  (forall j, (j < k)%nat -> exists sj,
      answered (attempts world (1 + Z.of_nat j)) sj /\ retriable_status sj) ->
  answered (attempts world (1 + Z.of_nat k)) st -> (200 <= st <= 299)%Z ->
  delivered (attempts world (1 + Z.of_nat k)) ->
  let r := downloadAsset a world maxRetries retryDelay skipUnchanged in
  dl_status (fst r) = Downloaded /\
  sleeps (snd r) = map (fun j => retryDelay * (1 + Z.of_nat j))%Z (seq 0 k) /\
  length (requests (snd r)) = S k /\
  writes (snd r) = [filePath (asset_match a)].
Proof.
  intros Hk Hretry Hans Hok Hdel r. subst r. unfold downloadAsset.
  set (evs := fun j : nat =>
     [EnsureDirectoryOf (filePath (asset_match a));
      Request (downloadUrl (asset_match a)) (request_headers a world skipUnchanged);
      Sleep (retryDelay * (1 + Z.of_nat j))]).
  rewrite (attempt_loop_continues a world maxRetries retryDelay skipUnchanged k _ 1 evs).
  2: lia.
  2:{ intros j Hj. destruct (Hretry j Hj) as (sj & Ha & Hs).
      apply (loop_body_retriable_status _ _ _ _ _ _ sj); [assumption..|lia]. }
  destruct (Z.to_nat maxRetries - k)%nat as [|n] eqn:En; [lia|].
  cbn [attempt_loop].
  destruct (loop_body_success a world maxRetries retryDelay skipUnchanged _ st Hans Hok Hdel)
    as (md & bytes & -> & _).
  cbn [fst snd dl_status]. split; [reflexivity|].
  rewrite sleeps_app, requests_app, writes_app, length_app.
  subst evs. rewrite retry_events_sleeps, retry_events_requests, retry_events_writes.
  cbn. rewrite length_seq. repeat split; [apply app_nil_r | lia].
Qed.

(** C4 - Retry and backoff: with [maxRetries >= 3], a 503 on the first
    two attempts and a delivered 200 on the third end as [Downloaded]
    after three requests and exactly two sleeps, of [retryDelay * 1] and
    [retryDelay * 2] milliseconds; for a positive base delay the second
    is strictly longer than the first. *)
Theorem retry_backoff_503_503_200 (a : asset) (world : asset_world)
    (maxRetries retryDelay : Z) (skipUnchanged : bool) :
  (3 <= maxRetries)%Z ->
  answered (attempts world 1) 503 ->
  answered (attempts world 2) 503 ->
  answered (attempts world 3) 200 ->
  delivered (attempts world 3) ->
  let r := downloadAsset a world maxRetries retryDelay skipUnchanged in
  dl_status (fst r) = Downloaded /\
  sleeps (snd r) = [retryDelay * 1; retryDelay * 2]%Z /\
  length (requests (snd r)) = 3%nat /\
  ((0 < retryDelay)%Z -> (retryDelay * 1 < retryDelay * 2)%Z).
Proof.
  intros Hmax H1 H2 H3 Hd.
  destruct (retries_then_download a world maxRetries retryDelay skipUnchanged 2 200)
    as (Hs & Hsl & Hrq & _); try assumption; try lia.
  - intros j Hj. exists 503%Z. split.
    + destruct j as [|[|j]]; [exact H1|exact H2|lia].
    + unfold retriable_status. lia.
  - cbn zeta. repeat split; try assumption. lia.
Qed.

Lemma retry_backoff_witness :
  let r := downloadAsset hero_fresh flaky_origin 3 1000 true in
  dl_status (fst r) = Downloaded /\
  sleeps (snd r) = [1000 * 1; 1000 * 2]%Z /\
  length (requests (snd r)) = 3%nat /\
  ((0 < 1000)%Z -> (1000 * 1 < 1000 * 2)%Z).
Proof.
  apply (retry_backoff_503_503_200 hero_fresh flaky_origin 3 1000 true).
  - lia.
  - split; [reflexivity|]. eexists; split; reflexivity.
  - split; [reflexivity|]. eexists; split; reflexivity.
  - split; [reflexivity|]. eexists; split; reflexivity.
  - split; [eexists; reflexivity|reflexivity].
Defined.

(** Without a misleading message a 4xx other than 429 ends the call at
    once: one request, no sleep, [Failed], no metadata. *)
Lemma client_error_is_terminal (a : asset) (world : asset_world)
    (maxRetries retryDelay : Z) (skipUnchanged : bool) (attempt : Z) (resp : response) :
  mkdir_error (attempts world attempt) = None ->
  fetched (attempts world attempt) = Normal resp ->
  (400 <= status resp < 500)%Z -> status resp <> 429%Z ->
  isRetriable (http_error resp) = false ->
  loop_body a world maxRetries retryDelay skipUnchanged attempt =
    (Returns (DownloadResult Failed None),
     [EnsureDirectoryOf (filePath (asset_match a));
      Request (downloadUrl (asset_match a)) (request_headers a world skipUnchanged)]).
Proof.
  intros Hmk Hf Hr H429 Hnr.
  rewrite (loop_body_client_error _ _ _ _ _ _ resp) by assumption.
  unfold catch_block. rewrite Hnr. reflexivity.
Qed.

(** C5 - Terminal failures: the origin answers every request with
    status 404 and the reason phrase ECONNRESET.  The error thrown for
    the 404 lands in the [catch] block, which finds the marker of a
    connection reset in its message: the asset is requested three times,
    with two sleeps in between, before the call fails. *)
Theorem client_error_retried_by_status_text :
  let r := downloadAsset hero_fresh misleading_origin 3 1000 true in
  fst r = DownloadResult Failed None /\
  length (requests (snd r)) = 3%nat /\
  sleeps (snd r) = [1000; 2000]%Z.
Proof. cbv zeta. repeat split; vm_compute; reflexivity. Qed.

(** C6 - Conditional requests: with [skipUnchanged], the local file in
    place and a cached entry whose etag is a non-empty string, every
    request of the call carries [If-None-Match] with that etag; when the
    origin answers the first one with 304 the call returns [Skipped]
    after that single request, never calls [writeFile], and its metadata
    is the cached entry with [checkedAt] set to the current time: etag,
    lastModified and size are the cached ones. *)
Theorem conditional_request_not_modified (a : asset) (world : asset_world)
    (maxRetries retryDelay : Z) (m : metadata) (tag : string) :
  file_exists world = true ->
  asset_metadata a = Some m ->
  etag m = Value tag -> tag <> "" ->
  (1 <= maxRetries)%Z ->
  let r := downloadAsset a world maxRetries retryDelay true in
  Forall (fun h => exists hs, h = Some hs /\ In ("If-None-Match", tag) hs)
         (requests (snd r)) /\
  (answered (attempts world 1) 304 ->
   exists md,
     fst r = DownloadResult Skipped (Some md) /\
     length (requests (snd r)) = 1%nat /\
     writes (snd r) = [] /\
     etag md = etag m /\ lastModified md = lastModified m /\ size md = size m /\
     checkedAt md = Value (now (attempts world 1))).
Proof.
  intros Hfile Hmeta Htag Hne Hmax r. subst r.
  assert (Htruthy : Js.truthy tag = true).
  { unfold Js.truthy. apply negb_true_iff. now apply String.eqb_neq. }
  assert (Hh : request_headers a world true =
               Some (("If-None-Match", tag) ::
                     conditional_header "If-Modified-Since" (lastModified m))).
  { unfold request_headers, shouldUseConditional, hasMetadata, conditionalHeaders.
    rewrite Hfile, Hmeta, Htag. cbn. rewrite Htruthy. reflexivity. }
  split.
  - eapply Forall_impl; [apply attempt_loop_requests|].
    intros h ->. rewrite Hh. eexists. split; [reflexivity|]. now left.
  - intros H304. unfold downloadAsset.
    destruct (Z.to_nat maxRetries) as [|n] eqn:En; [lia|].
    cbn [attempt_loop]. rewrite loop_body_not_modified by assumption.
    rewrite Hmeta. eexists. cbn [fst snd].
    split; [reflexivity|].
    repeat split; cbn; reflexivity.
Qed.

Lemma conditional_request_witness :
  let r := downloadAsset hero_asset unchanged_origin 3 1000 true in
  Forall (fun h => exists hs, h = Some hs /\ In ("If-None-Match", "abc") hs)
         (requests (snd r)) /\
  exists md,
    fst r = DownloadResult Skipped (Some md) /\
    length (requests (snd r)) = 1%nat /\
    writes (snd r) = [] /\
    etag md = etag hero_cached /\ lastModified md = lastModified hero_cached /\
    size md = size hero_cached /\
    checkedAt md = Value (now (attempts unchanged_origin 1)).
Proof.
  destruct (conditional_request_not_modified hero_asset unchanged_origin 3 1000
              hero_cached "abc") as [Hsent Hskipped];
    [reflexivity | reflexivity | reflexivity | discriminate | lia |].
  split; [exact Hsent|]. apply Hskipped.
  split; [reflexivity|]. eexists. split; reflexivity.
Defined.

(** ** Decoding *)

Lemma percent_octet_length (s : string) (b : N) (rest : string) :
  Uri.percent_octet s = Some (b, rest) ->
  String.length s = (3 + String.length rest)%nat.
Proof.
  unfold Uri.percent_octet.
  destruct s as [|c [|h [|l s]]]; try discriminate;
    destruct c as [[] [] [] [] [] [] [] []]; try discriminate.
  destruct (Uri.hex_val h), (Uri.hex_val l); try discriminate.
  now intros [= <- <-].
Qed.

Lemma continuation_length (n : nat) (lead : N) : forall first s bytes rest,
  Uri.continuation n lead first s = Some (bytes, rest) ->
  (String.length rest <= String.length s)%nat.
Proof.
  induction n as [|n IH]; intros first s bytes rest; cbn [Uri.continuation].
  - now intros [= <- <-].
  - destruct (Uri.percent_octet s) as [[b rest1]|] eqn:E; [|discriminate].
    apply percent_octet_length in E.
    destruct (if first then _ else _); [|discriminate].
    destruct (Uri.continuation n lead false rest1) as [[bytes' rest']|] eqn:Ec;
      [|discriminate].
    intros [= <- <-]. apply IH in Ec. lia.
Qed.

(** The fuel of [decodeURIComponent] is enough: more of it changes
    nothing. *)
Lemma decode_fuel (fuel : nat) : forall s fuel',
  (String.length s <= fuel)%nat -> (String.length s <= fuel')%nat ->
  Uri.decode fuel s = Uri.decode fuel' s.
Proof.
  induction fuel as [|fuel IH]; intros s fuel' H1 H2.
  - destruct s; [now destruct fuel'|cbn in H1; lia].
  - destruct s as [|c rest]; [now destruct fuel'|].
    destruct fuel' as [|fuel']; [cbn in H2; lia|].
    cbn [String.length] in H1, H2. cbn [Uri.decode].
    destruct (Ascii.eqb c "%").
    + destruct (Uri.percent_octet (String c rest)) as [[b rest1]|] eqn:E; [|reflexivity].
      apply percent_octet_length in E. cbn [String.length] in E.
      destruct (b <? 128)%N.
      * f_equal. apply IH; lia.
      * destruct (Uri.continuation_count b) as [n|]; [|reflexivity].
        destruct (Uri.continuation n b true rest1) as [[bytes rest2]|] eqn:Ec;
          [|reflexivity].
        apply continuation_length in Ec. f_equal. apply IH; lia.
    + f_equal. apply IH; lia.
Qed.

(** ** Strings *)

Lemma append_cons (c : ascii) (s t : string) : String c s +:+ t = String c (s +:+ t).
Proof. reflexivity. Qed.

Lemma append_nil_l (t : string) : "" +:+ t = t.
Proof. reflexivity. Qed.

Ltac string_app := repeat (rewrite append_cons in * || rewrite append_nil_l in * ).

Lemma append_empty_r (s : string) : s +:+ "" = s.
Proof. induction s as [|c s IH]; string_app; [reflexivity|]. now f_equal. Qed.

Lemma append_assoc (a b c : string) : (a +:+ b) +:+ c = a +:+ (b +:+ c).
Proof. induction a as [|x a IH]; string_app; [reflexivity|]. now f_equal. Qed.

Lemma startsWith_append (p r : string) : Js.startsWith (p +:+ r) p = true.
Proof.
  unfold Js.startsWith. induction p as [|c p IH]; string_app; cbn.
  - now destruct r.
  - destruct (ascii_dec c c); [assumption|contradiction].
Qed.

Lemma startsWith_spec (s p : string) :
  Js.startsWith s p = true <-> exists r, s = p +:+ r.
Proof.
  split.
  - unfold Js.startsWith. revert s. induction p as [|c p IH]; intros s H.
    + now exists s.
    + destruct s as [|c' s]; cbn in H; [discriminate|].
      destruct (ascii_dec c c') as [->|]; [|discriminate].
      destruct (IH _ H) as [r ->]. now exists r.
  - intros [r ->]. apply startsWith_append.
Qed.

Lemma slice_append (p r : string) : Js.slice (p +:+ r) (String.length p) = r.
Proof. induction p as [|c p IH]; string_app; cbn; [now destruct r|assumption]. Qed.

Lemma split_not_nil (s : string) (c : ascii) : Js.split s c <> [].
Proof.
  destruct s as [|x s]; cbn; [discriminate|].
  destruct (Ascii.eqb x c); [discriminate|].
  destruct (Js.split s c); discriminate.
Qed.

Lemma split_cons_other (x c : ascii) (s : string) :
  Ascii.eqb x c = false ->
  exists h t, Js.split s c = h :: t /\ Js.split (String x s) c = String x h :: t.
Proof.
  intros Hx. cbn. rewrite Hx.
  destruct (Js.split s c) as [|h t] eqn:E; [now apply split_not_nil in E|].
  now exists h, t.
Qed.

Lemma split_without (s : string) (c : ascii) :
  occurs c s = false -> Js.split s c = [s].
Proof.
  induction s as [|x s IH]; cbn; [reflexivity|].
  intros H. apply orb_false_iff in H as [Hx Hs].
  rewrite Hx, (IH Hs). reflexivity.
Qed.

(** splitting distributes over a separator *)
Lemma split_append (a b : string) (c : ascii) :
  Js.split (a +:+ String c b) c = Js.split a c ++ Js.split b c.
Proof.
  induction a as [|x a IH]; string_app.
  - cbn. now rewrite Ascii.eqb_refl.
  - cbn [Js.split]. rewrite IH.
    destruct (Ascii.eqb x c); [reflexivity|].
    destruct (Js.split a c) as [|h t] eqn:E; [now apply split_not_nil in E|].
    reflexivity.
Qed.

(** without the separator, only the last part of a split can be cut
    short by what follows *)
Lemma split_append_without (a b : string) (c : ascii) :
  occurs c a = false ->
  exists t, Js.split (a +:+ String c b) c = a :: t /\ t = Js.split b c.
Proof.
  intros H. rewrite split_append, (split_without a c H). now eexists.
Qed.

Lemma join_cons (x : string) (l : list string) (sep : string) :
  l <> [] -> Js.join (x :: l) sep = x +:+ sep +:+ Js.join l sep.
Proof. destruct l; [contradiction|reflexivity]. Qed.

Lemma join_app (l1 l2 : list string) (sep : string) :
  l1 <> [] -> l2 <> [] ->
  Js.join (l1 ++ l2) sep = Js.join l1 sep +:+ sep +:+ Js.join l2 sep.
Proof.
  intros H1 H2. induction l1 as [|x l1 IH]; [contradiction|].
  destruct l1 as [|y l1].
  - cbn [app]. now rewrite join_cons.
  - cbn [app] in *. rewrite join_cons by discriminate.
    rewrite IH by discriminate.
    rewrite (join_cons x (y :: l1)) by discriminate.
    now rewrite !append_assoc.
Qed.

Lemma split_join (l : list string) (c : ascii) :
  l <> [] -> Forall (fun s => occurs c s = false) l ->
  Js.split (Js.join l (String c "")) c = l.
Proof.
  intros Hne Hall. induction Hall as [|x l Hx Hl IH]; [contradiction|].
  destruct l as [|y l].
  - cbn. now apply split_without.
  - rewrite join_cons by discriminate. string_app.
    rewrite split_append, (split_without x c Hx), IH by discriminate.
    reflexivity.
Qed.

Lemma last_char_append (a : string) (x : ascii) (b : string) :
  Js.last_char (a +:+ String x b) = Js.last_char (String x b).
Proof.
  induction a as [|y a IH]; [reflexivity|].
  string_app. cbn [Js.last_char]. rewrite IH.
  destruct a; reflexivity.
Qed.

Lemma last_char_occurs (s : string) (c : ascii) :
  Js.last_char s = Some c -> occurs c s = true.
Proof.
  induction s as [|x s IH]; [discriminate|].
  cbn. destruct s as [|y s].
  - intros [= ->]. now rewrite Ascii.eqb_refl.
  - intros H. rewrite (IH H). apply orb_true_r.
Qed.

Lemma truthy_spec (s : string) : Js.truthy s = true <-> s <> "".
Proof.
  unfold Js.truthy. rewrite negb_true_iff. apply String.eqb_neq.
Qed.

Lemma filter_Boolean_all (l : list string) :
  Forall (fun s => Js.truthy s = true) l -> Js.filter_Boolean l = l.
Proof.
  induction 1 as [|x l Hx Hl IH]; [reflexivity|].
  unfold Js.filter_Boolean in *. cbn. now rewrite Hx, IH.
Qed.

(** ** Normalised paths *)

Lemma plain_spec (seg : string) :
  plain seg = true ->
  Js.truthy seg = true /\ occurs "/" seg = false /\
  String.eqb seg "." = false /\ String.eqb seg ".." = false.
Proof.
  unfold plain. rewrite !andb_true_iff, !negb_true_iff. tauto.
Qed.

Lemma split_parts_without (s : string) (c : ascii) :
  Forall (fun p => occurs c p = false) (Js.split s c).
Proof.
  induction s as [|x s IH]; cbn.
  - repeat constructor.
  - destruct (Ascii.eqb x c) eqn:Hx.
    + constructor; [reflexivity|assumption].
    + destruct (Js.split s c) as [|h t]; [repeat constructor; cbn; now rewrite Hx|].
      inversion IH; subst. constructor; [cbn; now rewrite Hx|assumption].
Qed.

Lemma norm_step_plain (allow : bool) (stack : list string) (seg : string) :
  plain seg = true -> NodePath.norm_step allow stack seg = seg :: stack.
Proof.
  intros H. apply plain_spec in H as (Ht & _ & Hd & Hdd).
  unfold NodePath.norm_step, NodePath.is_dotdot.
  unfold Js.truthy in Ht. apply negb_true_iff in Ht. now rewrite Ht, Hd, Hdd.
Qed.

Lemma fold_norm_plain (allow : bool) (segs : list string) : forall stack,
  Forall (fun s => plain s = true) segs ->
  fold_left (NodePath.norm_step allow) segs stack = rev segs ++ stack.
Proof.
  induction segs as [|s segs IH]; intros stack H; [reflexivity|].
  inversion H; subst. cbn [fold_left rev].
  rewrite norm_step_plain, IH by assumption. now rewrite <- app_assoc.
Qed.

Lemma norm_step_well_stacked (allow : bool) (stack : list string) (seg : string) :
  occurs "/" seg = false -> well_stacked allow stack ->
  well_stacked allow (NodePath.norm_step allow stack seg).
Proof.
  intros Hseg (normals & k & -> & Hn & Hk).
  unfold NodePath.norm_step.
  destruct (String.eqb seg "" || String.eqb seg ".") eqn:E1.
  { now exists normals, k. }
  apply orb_false_iff in E1 as [E1 E2].
  unfold NodePath.is_dotdot at 1.
  destruct (String.eqb seg "..") eqn:E3.
  - destruct normals as [|n ns].
    + destruct k as [|k]; cbn [app repeat].
      * destruct allow.
        -- exists [], 1%nat. repeat split; [constructor|discriminate].
        -- exists [], 0%nat. repeat split; constructor.
      * cbn. destruct allow.
        -- exists [], (S (S k)). repeat split; [constructor|discriminate].
        -- specialize (Hk eq_refl). discriminate.
    + cbn [app]. inversion Hn; subst.
      match goal with H : plain n = true |- _ => apply plain_spec in H as (_ & _ & _ & Hdd) end.
      unfold NodePath.is_dotdot. rewrite Hdd. now exists ns, k.
  - exists (seg :: normals), k. repeat split; [|assumption].
    constructor; [|assumption].
    unfold plain, Js.truthy. now rewrite E1, E2, E3, Hseg.
Qed.

Lemma fold_norm_well_stacked (allow : bool) (segs : list string) : forall stack,
  Forall (fun s => occurs "/" s = false) segs -> well_stacked allow stack ->
  well_stacked allow (fold_left (NodePath.norm_step allow) segs stack).
Proof.
  induction segs as [|s segs IH]; intros stack H Hs; [assumption|].
  inversion H; subst. cbn [fold_left]. apply IH; [assumption|].
  now apply norm_step_well_stacked.
Qed.

Lemma rev_repeat {A} (x : A) (k : nat) : rev (repeat x k) = repeat x k.
Proof.
  induction k as [|k IH]; [reflexivity|].
  cbn [repeat rev]. rewrite IH. symmetry. apply repeat_cons.
Qed.

Lemma normalizeString_shape (s : string) (allow : bool) :
  exists k normals,
    NodePath.normalizeString (Js.split s "/") allow = repeat ".." k ++ normals /\
    Forall (fun s => plain s = true) normals /\
    (allow = false -> k = 0%nat).
Proof.
  destruct (fold_norm_well_stacked allow (Js.split s "/") [])
    as (normals & k & E & Hn & Hk).
  - apply split_parts_without.
  - exists [], 0%nat. repeat split; constructor.
  - exists k, (rev normals). unfold NodePath.normalizeString.
    rewrite E, rev_app_distr, rev_repeat. repeat split; [|assumption].
    apply Forall_rev. assumption.
Qed.

Lemma join_not_empty (x : string) (l : list string) (sep : string) :
  x <> "" -> Js.join (x :: l) sep <> "".
Proof.
  intros Hx. destruct x as [|c x]; [contradiction|].
  destruct l; cbn; [discriminate|]. string_app. discriminate.
Qed.

Lemma plain_truthy (l : list string) :
  Forall (fun s => plain s = true) l -> Forall (fun s => Js.truthy s = true) l.
Proof.
  intros H. eapply Forall_impl; [exact H|].
  intros s Hs. now apply plain_spec in Hs.
Qed.

Lemma plain_without_slash (l : list string) :
  Forall (fun s => plain s = true) l -> Forall (fun s => occurs "/" s = false) l.
Proof.
  intros H. eapply Forall_impl; [exact H|].
  intros s Hs. now apply plain_spec in Hs.
Qed.

(** ** The walker *)

(** Induction over documents, with the induction hypothesis for every
    child of a container. *)
Lemma json_induction (P : json -> Prop) :
  P JNull ->
  (forall b, P (JBool b)) ->
  (forall n, P (JNumber n)) ->
  (forall s, P (JString s)) ->
  (forall items, Forall P items -> P (JArray items)) ->
  (forall entries, Forall (fun kv => P (snd kv)) entries -> P (JObject entries)) ->
  forall j, P j.
Proof.
  intros Hnull Hbool Hnumber Hstring Harray Hobject.
  fix IH 1. intros [| b | n | s | items | entries].
  - exact Hnull.
  - apply Hbool.
  - apply Hnumber.
  - apply Hstring.
  - apply Harray. induction items as [|x l IHl]; constructor; [apply IH|exact IHl].
  - apply Hobject. induction entries as [|[k v] l IHl]; constructor; [apply IH|exact IHl].
Qed.

Lemma run_callback_app {St} (t : string -> St -> completion string * St)
    (l1 l2 : list string) (st : St) :
  run_callback t (l1 ++ l2) st =
    match run_callback t l1 st with
    | (None, st') => run_callback t l2 st'
    | (Some e, st') => (Some e, st')
    end.
Proof.
  revert st. induction l1 as [|s l1 IH]; intros st; cbn; [reflexivity|].
  destruct (t s st) as [[v|e] st']; [apply IH|reflexivity].
Qed.

(** *** The variable [modified]

    [modified] is only ever raised.  A walk that ends with [modified]
    still low began with it low and replaced nothing: the value it
    returns is the node it was given.  This is why [visit_child] may keep
    the child it visited when [result.modified] is false, although the
    source has updated that child in place. *)

Lemma visit_child_unmodified {St} (t : string -> St -> completion string * St)
    (child : json) :
  (forall st flag r st',
     visit t child st flag = (Normal r, st', false) ->
     flag = false /\ vr_value r = child) ->
  forall st flag c st',
    visit_child (visit t) child st flag = (Normal c, st', false) ->
    flag = false /\ c = child.
Proof.
  intros IH st flag c st'. unfold visit_child.
  destruct (visit t child st flag) as [[[r|e] st1] flag1] eqn:E; [|discriminate].
  destruct (vr_modified r); intros [= <- <- ->].
  destruct (IH _ _ _ _ E) as [-> _]. now split.
Qed.

Lemma visit_unmodified {St} (t : string -> St -> completion string * St) (node : json) :
  forall st flag r st',
    visit t node st flag = (Normal r, st', false) ->
    flag = false /\ vr_value r = node.
Proof.
  induction node as [| b | n | s | items IH | entries IH] using json_induction;
    intros st flag r st'; cbn [visit].
  1-3: now intros [= <- <- ->].
  - destruct (t s st) as [[v|e] st1]; [|discriminate].
    destruct (String.eqb v s); intros [= <- <- ->]. now split.
  - destruct (visit_items (visit t) items st flag) as [[[items'|e] st1] flag1] eqn:E;
      [|discriminate].
    intros [= <- <- ->]. cbn [vr_value].
    enough (flag = false /\ items' = items) as [-> ->] by now split.
    revert st flag items' st1 E.
    induction IH as [|item items Hitem _ IHitems]; intros st flag items' st1.
    + now intros [= <- <- ->].
    + cbn [visit_items]. fold (visit_items (visit t)).
      destruct (visit_child (visit t) item st flag) as [[[c|e] st2] flag2] eqn:Ec;
        [|discriminate].
      destruct (visit_items (visit t) items st2 flag2) as [[[rest|e] st3] flag3] eqn:Er;
        [|discriminate].
      intros [= <- <- ->].
      destruct (IHitems _ _ _ _ Er) as [-> ->].
      destruct (visit_child_unmodified t item Hitem _ _ _ _ Ec) as [-> ->]. now split.
  - destruct (visit_entries (visit t) entries st flag) as [[[entries'|e] st1] flag1] eqn:E;
      [|discriminate].
    intros [= <- <- ->]. cbn [vr_value].
    enough (flag = false /\ entries' = entries) as [-> ->] by now split.
    revert st flag entries' st1 E.
    induction IH as [|[key v] entries Hv _ IHentries]; intros st flag entries' st1.
    + now intros [= <- <- ->].
    + cbn [visit_entries]. fold (visit_entries (visit t)). cbn [snd] in Hv.
      destruct (visit_child (visit t) v st flag) as [[[c|e] st2] flag2] eqn:Ec;
        [|discriminate].
      destruct (visit_entries (visit t) entries st2 flag2) as [[[rest|e] st3] flag3] eqn:Er;
        [|discriminate].
      intros [= <- <- ->].
      destruct (IHentries _ _ _ _ Er) as [-> ->].
      destruct (visit_child_unmodified t v Hv _ _ _ _ Ec) as [-> ->]. now split.
Qed.

Section Walks.

Context {St : Type}.
Variable t : string -> St -> completion string * St.

(** *** A callback that returns the string it was given

    The walk then is the sequence of the callback's effects: nothing is
    replaced, [modified] stays as it was. *)
Hypothesis t_preserves : forall s st v st', t s st = (Normal v, st') -> v = s.

Local Abbreviation preserved := (walk_preserving t).

Lemma visit_child_preserving (child : json) (st : St) (flag : bool) :
  visit t child st flag = preserved child st flag ->
  visit_child (visit t) child st flag =
    match run_callback t (strings_of child) st with
    | (None, st') => (Normal child, st', flag)
    | (Some e, st') => (Throw e, st', flag)
    end.
Proof.
  intros H. unfold visit_child. rewrite H. unfold walk_preserving.
  destruct (run_callback t (strings_of child) st) as [[e|] st']; [reflexivity|].
  cbn. now destruct (is_container child), flag.
Qed.

Lemma visit_items_preserving (items : list json) :
  Forall (fun node => forall st flag, visit t node st flag = preserved node st flag) items ->
  forall st flag,
  visit_items (visit t) items st flag =
    match run_callback t (flat_map strings_of items) st with
    | (None, st') => (Normal items, st', flag)
    | (Some e, st') => (Throw e, st', flag)
    end.
Proof.
  induction 1 as [|item items Hitem _ IH]; intros st flag; [reflexivity|].
  cbn [visit_items flat_map]. rewrite visit_child_preserving, run_callback_app by apply Hitem.
  destruct (run_callback t (strings_of item) st) as [[e|] st1]; [reflexivity|].
  fold (visit_items (visit t)). rewrite IH.
  now destruct (run_callback t (flat_map strings_of items) st1) as [[e|] st2].
Qed.

Lemma visit_entries_preserving (entries : list (string * json)) :
  Forall (fun kv => forall st flag, visit t (snd kv) st flag = preserved (snd kv) st flag)
         entries ->
  forall st flag,
  visit_entries (visit t) entries st flag =
    match run_callback t (flat_map (fun kv => strings_of (snd kv)) entries) st with
    | (None, st') => (Normal entries, st', flag)
    | (Some e, st') => (Throw e, st', flag)
    end.
Proof.
  induction 1 as [|[key v] entries Hv _ IH]; intros st flag; [reflexivity|].
  cbn [visit_entries flat_map snd] in *.
  rewrite visit_child_preserving, run_callback_app by apply Hv.
  destruct (run_callback t (strings_of v) st) as [[e|] st1]; [reflexivity|].
  fold (visit_entries (visit t)). rewrite IH.
  now destruct (run_callback t (flat_map _ entries) st1) as [[e|] st2].
Qed.

Lemma visit_preserving (node : json) : forall st flag,
  visit t node st flag = preserved node st flag.
Proof.
  induction node as [| b | n | s | items IH | entries IH] using json_induction;
    intros st flag; try reflexivity.
  - unfold walk_preserving. cbn. destruct (t s st) as [[v|e] st'] eqn:E; [|reflexivity].
    apply t_preserves in E as ->. now rewrite String.eqb_refl.
  - cbn [visit]. rewrite (visit_items_preserving items IH).
    unfold walk_preserving. cbn [strings_of is_container].
    now destruct (run_callback t (flat_map strings_of items) st) as [[e|] st'].
  - cbn [visit]. rewrite (visit_entries_preserving entries IH).
    unfold walk_preserving. cbn [strings_of is_container].
    now destruct (run_callback t (flat_map _ entries) st) as [[e|] st'].
Qed.

Lemma transformContent_preserving (data : json) (st : St) :
  transformContent t data st =
    match run_callback t (strings_of data) st with
    | (None, st') => (Normal (data, false), st')
    | (Some e, st') => (Throw e, st')
    end.
Proof.
  unfold transformContent. rewrite visit_preserving. unfold walk_preserving.
  destruct (run_callback t (strings_of data) st) as [[e|] st']; [reflexivity|].
  cbn. now destruct (is_container data).
Qed.

End Walks.

Lemma changes_app (f : string -> string) (l1 l2 : list string) :
  changes f (l1 ++ l2) = changes f l1 || changes f l2.
Proof. apply existsb_app. Qed.

Lemma unchanged_document (f : string -> string) (node : json) :
  changes f (strings_of node) = false -> spec_replace_strings f node = node.
Proof.
  induction node as [| b | n | s | items IH | entries IH] using json_induction;
    try reflexivity.
  - cbn. rewrite orb_false_r, negb_false_iff. intros H.
    apply String.eqb_eq in H. now rewrite H.
  - cbn [strings_of spec_replace_strings]. intros H. f_equal.
    induction IH as [|item items Hitem _ IHitems]; [reflexivity|].
    cbn [flat_map map] in *. rewrite changes_app in H.
    apply orb_false_iff in H as [H1 H2]. now rewrite Hitem, IHitems.
  - cbn [strings_of spec_replace_strings]. intros H. f_equal.
    induction IH as [|[key v] entries Hv _ IHentries]; [reflexivity|].
    cbn [flat_map map fst snd] in *. rewrite changes_app in H.
    apply orb_false_iff in H as [H1 H2]. now rewrite Hv, IHentries.
Qed.

Section Replacing.

Context {St : Type}.
Variable t : string -> St -> completion string * St.
Variable f : string -> string.

(** *** A callback that computes [f] on the strings of the document

    The walk then returns the document with every string replaced by
    its image, and [modified] tells whether some string changed. *)
Local Abbreviation computes' := (computes t f).
Local Abbreviation replaced := (walk_replacing f).

Lemma visit_child_replacing (child : json) (st : St) (flag : bool) :
  visit t child st flag = replaced child st flag ->
  visit_child (visit t) child st flag =
    (Normal (spec_replace_strings f child), st,
     flag || changes f (strings_of child)).
Proof.
  intros H. unfold visit_child. rewrite H. unfold walk_replacing. cbn [vr_modified vr_value].
  destruct (changes f (strings_of child)) eqn:Hc.
  - rewrite orb_true_r. now destruct (is_container child).
  - rewrite orb_false_r, (unchanged_document f child Hc).
    now destruct (is_container child), flag.
Qed.

Lemma visit_items_replacing (items : list json) :
  Forall (fun node => computes' (strings_of node) ->
            forall st flag, visit t node st flag = replaced node st flag) items ->
  computes' (flat_map strings_of items) ->
  forall st flag,
  visit_items (visit t) items st flag =
    (Normal (map (spec_replace_strings f) items), st,
     flag || changes f (flat_map strings_of items)).
Proof.
  induction 1 as [|item items Hitem _ IH]; intros Hc st flag.
  - cbn. now rewrite orb_false_r.
  - cbn [flat_map] in Hc. apply Forall_app in Hc as [Hc1 Hc2].
    cbn [visit_items flat_map map].
    rewrite visit_child_replacing by now apply Hitem.
    fold (visit_items (visit t)). rewrite IH by assumption.
    now rewrite changes_app, orb_assoc.
Qed.

Lemma visit_entries_replacing (entries : list (string * json)) :
  Forall (fun kv => computes' (strings_of (snd kv)) ->
            forall st flag, visit t (snd kv) st flag = replaced (snd kv) st flag)
         entries ->
  computes' (flat_map (fun kv => strings_of (snd kv)) entries) ->
  forall st flag,
  visit_entries (visit t) entries st flag =
    (Normal (map (fun kv => (fst kv, spec_replace_strings f (snd kv))) entries), st,
     flag || changes f (flat_map (fun kv => strings_of (snd kv)) entries)).
Proof.
  induction 1 as [|[key v] entries Hv _ IH]; intros Hc st flag.
  - cbn. now rewrite orb_false_r.
  - cbn [flat_map snd] in Hc, Hv. apply Forall_app in Hc as [Hc1 Hc2].
    cbn [visit_entries flat_map map fst snd].
    rewrite visit_child_replacing by now apply Hv.
    fold (visit_entries (visit t)). rewrite IH by assumption.
    now rewrite changes_app, orb_assoc.
Qed.

Lemma visit_replacing (node : json) :
  computes' (strings_of node) ->
  forall st flag, visit t node st flag = replaced node st flag.
Proof.
  induction node as [| b | n | s | items IH | entries IH] using json_induction;
    intros Hc st flag; unfold walk_replacing; cbn [strings_of is_container changes existsb];
    rewrite ?orb_false_r; try reflexivity.
  - cbn [visit]. inversion Hc as [|? ? Hs _]; subst. rewrite Hs.
    cbn [spec_replace_strings].
    destruct (String.eqb (f s) s) eqn:E; cbn [negb].
    + apply String.eqb_eq in E. rewrite E. now rewrite orb_false_r.
    + now rewrite orb_true_r.
  - cbn [visit]. now rewrite (visit_items_replacing items IH Hc).
  - cbn [visit]. now rewrite (visit_entries_replacing entries IH Hc).
Qed.

(** What [transformContent] hands back: the replaced document for a
    container; for a document that is a single scalar, the scalar it was
    given, with [modified] raised all the same if the callback changed it. *)
Lemma transformContent_replacing (data : json) (st : St) :
  computes' (strings_of data) ->
  transformContent t data st =
    (Normal (if is_container data then spec_replace_strings f data else data,
             changes f (strings_of data)), st).
Proof.
  intros Hc. unfold transformContent. rewrite visit_replacing by assumption.
  unfold walk_replacing. cbn. reflexivity.
Qed.

End Replacing.

(** ** The path resolver *)

Lemma join_no_trailing_slash (l : list string) :
  l <> [] -> Forall (fun s => plain s = true) l ->
  NodePath.is_slash (Js.last_char (Js.join l "/")) = false.
Proof.
  intros Hne Hall. induction Hall as [|x l Hx Hl IH]; [contradiction|].
  destruct l as [|y l].
  - cbn. apply plain_spec in Hx as (_ & Hs & _).
    destruct (Js.last_char x) as [c|] eqn:E; [|reflexivity].
    cbn. destruct (Ascii.eqb_spec c "/") as [->|]; [|reflexivity].
    apply last_char_occurs in E. congruence.
  - rewrite join_cons by discriminate.
    specialize (IH ltac:(discriminate)).
    assert (Hj : Js.join (y :: l) "/" <> "").
    { apply join_not_empty. inversion Hl; subst.
      match goal with H : plain y = true |- _ =>
        apply plain_spec in H as (Ht & _); now apply truthy_spec in Ht end. }
    destruct (Js.join (y :: l) "/") as [|c rest] eqn:E; [contradiction|].
    change ("/" +:+ String c rest) with (String "/" (String c rest)).
    rewrite last_char_append. exact IH.
Qed.

(** an absolute path of ordinary segments is its own normal form *)
Lemma normalize_absolute (segs : list string) :
  segs <> [] -> Forall (fun s => plain s = true) segs ->
  NodePath.normalize (absolute_path segs) = absolute_path segs.
Proof.
  intros Hne Hall. unfold NodePath.normalize, absolute_path.
  change ("/" +:+ Js.join segs "/") with (String "/" (Js.join segs "/")).
  cbn [String.eqb Js.startsWith String.prefix negb]. 
  destruct (ascii_dec "/" "/") as [_|]; [|contradiction].
  replace (String.prefix "" (Js.join segs "/")) with true by now destruct (Js.join segs "/").
  cbn [negb].
  assert (Hj : Js.join segs "/" <> "").
  { destruct segs as [|x l]; [contradiction|]. apply join_not_empty.
    inversion Hall; subst.
    match goal with H : plain x = true |- _ =>
      apply plain_spec in H as (Ht & _); now apply truthy_spec in Ht end. }
  assert (Hlast : Js.last_char (String "/" (Js.join segs "/")) =
                  Js.last_char (Js.join segs "/")).
  { destruct (Js.join segs "/"); [contradiction|reflexivity]. }
  rewrite Hlast, (join_no_trailing_slash segs Hne Hall).
  cbn [Js.split]. rewrite Ascii.eqb_refl.
  rewrite (split_join segs "/" Hne (plain_without_slash _ Hall)).
  unfold NodePath.normalizeString. cbn [fold_left].
  change (NodePath.norm_step false [] "") with (@nil string).
  rewrite fold_norm_plain, app_nil_r, rev_involutive by assumption.
  apply String.eqb_neq in Hj. rewrite Hj.
  now rewrite append_empty_r.
Qed.

(** joining ordinary segments to such a directory stays below it *)
Lemma join_below_root (dirsegs segs : list string) :
  dirsegs <> [] -> Forall (fun s => plain s = true) dirsegs ->
  segs <> [] -> Forall (fun s => plain s = true) segs ->
  NodePath.join (absolute_path dirsegs :: segs) = absolute_path (dirsegs ++ segs).
Proof.
  intros Hd Hdp Hs Hsp. unfold NodePath.join.
  rewrite filter_Boolean_all.
  2:{ constructor; [reflexivity|now apply plain_truthy]. }
  rewrite join_cons by assumption.
  unfold absolute_path at 1. rewrite append_assoc, <- join_app by assumption.
  apply normalize_absolute.
  - destruct dirsegs; [contradiction|discriminate].
  - now apply Forall_app.
Qed.

(** the path of the single segment [.] is the directory itself *)
Lemma join_dot_root (dirsegs : list string) :
  dirsegs <> [] -> Forall (fun s => plain s = true) dirsegs ->
  NodePath.join [absolute_path dirsegs; "."] = absolute_path dirsegs.
Proof.
  intros Hd Hdp. unfold NodePath.join. cbn [Js.filter_Boolean List.filter].
  replace (Js.truthy (absolute_path dirsegs)) with true by reflexivity.
  cbn [Js.truthy String.eqb negb].
  rewrite join_cons by discriminate.
  unfold NodePath.normalize, absolute_path.
  rewrite !append_assoc.
  change ("/" +:+ Js.join dirsegs "/" +:+ "/" +:+ Js.join ["."] "/")
    with (String "/" (Js.join dirsegs "/" +:+ String "/" ".")).
  cbn [String.eqb Js.startsWith String.prefix negb].
  destruct (ascii_dec "/" "/") as [_|]; [|contradiction].
  replace (String.prefix "" (Js.join dirsegs "/" +:+ String "/" ".")) with true
    by now destruct (Js.join dirsegs "/" +:+ String "/" ".").
  cbn [negb].
  assert (Hlast : Js.last_char (String "/" (Js.join dirsegs "/" +:+ String "/" ".")) =
                  Some "."%char).
  { change (String "/" (Js.join dirsegs "/" +:+ String "/" "."))
      with (("/" +:+ Js.join dirsegs "/") +:+ String "/" ".").
    now rewrite last_char_append. }
  rewrite Hlast. cbn [NodePath.is_slash Ascii.eqb Bool.eqb].
  cbn [Js.split]. rewrite Ascii.eqb_refl.
  rewrite split_append, (split_join dirsegs "/" Hd (plain_without_slash _ Hdp)).
  unfold NodePath.normalizeString. cbn [fold_left].
  change (NodePath.norm_step false [] "") with (@nil string).
  rewrite fold_left_app, (fold_norm_plain false dirsegs [] Hdp), app_nil_r.
  cbn. rewrite rev_involutive.
  assert (Hj : Js.join dirsegs "/" <> "").
  { destruct dirsegs as [|x l]; [contradiction|]. apply join_not_empty.
    inversion Hdp; subst.
    match goal with H : plain x = true |- _ =>
      apply plain_spec in H as (Ht & _); now apply truthy_spec in Ht end. }
  apply String.eqb_neq in Hj. unfold Js.join in *. rewrite Hj.
  now rewrite append_empty_r.
Qed.

Lemma startsWith_climbing (rest : string) :
  Js.startsWith (String "." (String "." (String "/" rest))) "../" = true.
Proof. apply (startsWith_append "../" rest). Qed.

Lemma normalize_render (d : string) :
  d <> "" ->
  NodePath.normalize d =
    render (Js.startsWith d "/") (NodePath.is_slash (Js.last_char d))
      (NodePath.normalizeString (Js.split d "/") (negb (Js.startsWith d "/"))).
Proof.
  intros Hd. unfold NodePath.normalize, render.
  apply String.eqb_neq in Hd. now rewrite Hd.
Qed.

Lemma split_framed (isAbsolute trailing : bool) (l : list string) :
  l <> [] -> Forall (fun s => occurs "/" s = false) l ->
  Js.split ((if isAbsolute then "/" else "") +:+ Js.join l "/" +:+
            (if trailing then "/" else "")) "/" =
    (if isAbsolute then [""] else []) ++ l ++ (if trailing then [""] else []).
Proof.
  intros Hne Hs.
  assert (Hinner : Js.split (Js.join l "/" +:+ (if trailing then "/" else "")) "/" =
                   l ++ (if trailing then [""] else [])).
  { destruct trailing.
    - change (Js.join l "/" +:+ "/") with (Js.join l "/" +:+ String "/" "").
      now rewrite split_append, split_join.
    - now rewrite append_empty_r, app_nil_r, split_join. }
  destruct isAbsolute; string_app; [|assumption].
  cbn [Js.split]. now rewrite Ascii.eqb_refl, Hinner.
Qed.

Lemma path_segments_render (isAbsolute trailing : bool) (out : list string) :
  Forall (fun s => Js.truthy s = true) out ->
  Forall (fun s => occurs "/" s = false) out ->
  path_segments (render isAbsolute trailing out) =
    match out with
    | [] => if isAbsolute then [] else ["."]
    | _ => out
    end.
Proof.
  intros Ht Hs. unfold render, path_segments.
  destruct out as [|x out].
  - destruct isAbsolute, trailing; reflexivity.
  - assert (Hj : Js.join (x :: out) "/" <> "").
    { apply join_not_empty. inversion Ht; subst. now apply truthy_spec. }
    apply String.eqb_neq in Hj. rewrite Hj.
    rewrite split_framed by (discriminate || assumption).
    unfold Js.filter_Boolean. rewrite !List.filter_app.
    fold (Js.filter_Boolean (x :: out)). rewrite (filter_Boolean_all _ Ht).
    destruct isAbsolute, trailing; cbn; now rewrite ?app_nil_r.
Qed.

Lemma render_absolute (trailing : bool) (out : list string) :
  Js.startsWith (render true trailing out) "/" = true.
Proof.
  unfold render. destruct (String.eqb (Js.join out "/") ""); [reflexivity|].
  apply (startsWith_append "/").
Qed.

Lemma shape_segments (k : nat) (normals : list string) :
  Forall (fun s => plain s = true) normals ->
  Forall (fun s => Js.truthy s = true) (repeat ".." k ++ normals) /\
  Forall (fun s => occurs "/" s = false) (repeat ".." k ++ normals).
Proof.
  intros Hn. split; apply Forall_app; split;
    try (now apply plain_truthy); try (now apply plain_without_slash);
    induction k; cbn; now constructor.
Qed.

(** The segments the resolver keeps, once the traversal guard has let
    the normalised path through: none, the single segment [.], or
    ordinary segments only. *)
Lemma segments_after_guard (decoded : string) :
  escapes_root (NodePath.normalize decoded) = false ->
  let segments := Js.filter_Boolean (Js.split (NodePath.normalize decoded) "/") in
  segments = [] \/ segments = ["."] \/
  (segments <> [] /\ Forall (fun s => plain s = true) segments).
Proof.
  destruct (String.eqb_spec decoded "") as [->|Hd]; [intros _; right; left; reflexivity|].
  rewrite (normalize_render decoded Hd).
  set (isAbsolute := Js.startsWith decoded "/").
  set (trailing := NodePath.is_slash (Js.last_char decoded)).
  destruct (normalizeString_shape decoded (negb isAbsolute))
    as (k & normals & -> & Hn & Hk).
  destruct (shape_segments k normals Hn) as [Ht Hs].
  intros Hguard. cbv zeta. fold (path_segments (render isAbsolute trailing
                                                   (repeat ".." k ++ normals))).
  rewrite path_segments_render by assumption.
  destruct k as [|k]; cbn [repeat app] in *.
  - destruct normals as [|x normals]; [destruct isAbsolute; auto|].
    right; right. split; [discriminate|assumption].
  - exfalso. destruct isAbsolute; [specialize (Hk eq_refl); discriminate|].
    revert Hguard. unfold render.
    assert (Hj : Js.join (".." :: repeat ".." k ++ normals) "/" <> "")
      by (apply join_not_empty; discriminate).
    apply String.eqb_neq in Hj. rewrite Hj. unfold escapes_root.
    destruct (repeat ".." k ++ normals) as [|x rest].
    + destruct trailing; cbn; discriminate.
    + rewrite join_cons by discriminate. string_app.
      now rewrite startsWith_climbing.
Qed.

Lemma fold_norm_dot (allow : bool) (stack : list string) :
  fold_left (NodePath.norm_step allow) ["."] stack = stack.
Proof. reflexivity. Qed.

(** Joining segments that passed the guard to an absolute directory
    leads through the directory's own segments first. *)
Lemma join_segments (dir : string) (segs : list string) :
  Js.startsWith dir "/" = true -> segs <> [] ->
  Forall (fun s => plain s = true) segs \/ segs = ["."] ->
  Js.startsWith (NodePath.join (dir :: segs)) "/" = true /\
  path_segments (NodePath.join (dir :: segs)) =
    NodePath.normalizeString (Js.split dir "/") false ++
    List.filter plain segs.
Proof.
  intros Habs Hne Hsegs.
  apply startsWith_spec in Habs as [r ->].
  assert (Htruthy : Forall (fun s => Js.truthy s = true) segs).
  { destruct Hsegs as [H| ->]; [now apply plain_truthy|now repeat constructor]. }
  assert (Hslash : Forall (fun s => occurs "/" s = false) segs).
  { destruct Hsegs as [H| ->]; [now apply plain_without_slash|now repeat constructor]. }
  unfold NodePath.join. rewrite filter_Boolean_all by (constructor; [reflexivity|assumption]).
  rewrite join_cons by assumption.
  rewrite normalize_render by (string_app; discriminate).
  assert (Hstart : Js.startsWith (("/" +:+ r) +:+ "/" +:+ Js.join segs "/") "/" = true)
    by (rewrite append_assoc; apply startsWith_append).
  rewrite Hstart. cbn [negb]. split; [apply render_absolute|].
  change (("/" +:+ r) +:+ "/" +:+ Js.join segs "/")
    with (("/" +:+ r) +:+ String "/" (Js.join segs "/")).
  rewrite split_append, (split_join segs "/" Hne Hslash).
  set (kept := NodePath.normalizeString (Js.split ("/" +:+ r) "/") false).
  assert (Hout : NodePath.normalizeString (Js.split ("/" +:+ r) "/" ++ segs) false =
                 kept ++ List.filter plain segs).
  { unfold kept, NodePath.normalizeString. rewrite fold_left_app.
    destruct Hsegs as [H| ->].
    - rewrite fold_norm_plain, rev_app_distr, rev_involutive by assumption.
      f_equal. symmetry. clear -H. induction H as [|x l Hx _ IH]; [reflexivity|].
      cbn. now rewrite Hx, IH.
    - rewrite fold_norm_dot. cbn. now rewrite app_nil_r. }
  rewrite Hout.
  destruct (normalizeString_shape ("/" +:+ r) false) as (k & normals & E & Hn & Hk).
  fold kept in E. rewrite (Hk eq_refl) in E. cbn [repeat app] in E.
  assert (Hplain : Forall (fun s => plain s = true) (kept ++ List.filter plain segs)).
  { rewrite E. apply Forall_app. split; [assumption|].
    clear. induction segs as [|x l IH]; cbn; [constructor|].
    destruct (plain x) eqn:Hx; [constructor|]; assumption. }
  rewrite path_segments_render
    by (now apply plain_truthy || now apply plain_without_slash).
  now destruct (kept ++ List.filter plain segs).
Qed.

(** the segments of a normalised absolute path are what [normalize]
    keeps of it *)
Lemma path_segments_normalized (dir : string) :
  Js.startsWith dir "/" = true -> NodePath.normalize dir = dir ->
  path_segments dir = NodePath.normalizeString (Js.split dir "/") false.
Proof.
  intros Habs Hnorm.
  assert (Hd : dir <> "") by (intros ->; discriminate).
  rewrite <- Hnorm at 1. rewrite (normalize_render dir Hd), Habs. cbn [negb].
  destruct (normalizeString_shape dir false) as (k & normals & E & Hn & Hk).
  rewrite E, (Hk eq_refl). cbn [repeat app].
  rewrite path_segments_render
    by (now apply plain_truthy || now apply plain_without_slash).
  now destruct normals.
Qed.

(** what a match of the resolver is made of *)
Lemma resolve_match (url : string) (ctx : media_context) (m : media_match) :
  resolveMediaPath url ctx = Normal (Some m) ->
  exists decoded segments,
    Js.startsWith url (mediaPrefix ctx) = true /\
    Uri.decodeURIComponent
      (rawPath_of (Js.slice url (String.length (mediaPrefix ctx)))) = Some decoded /\
    escapes_root (NodePath.normalize decoded) = false /\
    segments = Js.filter_Boolean (Js.split (NodePath.normalize decoded) "/") /\
    segments <> [] /\
    cacheKey m = mediaDir ctx +:+ "/" +:+ Js.join segments "/" /\
    filePath m = NodePath.join (mediaOutputDir ctx :: segments) /\
    localPath m = "/" +:+ Js.join (mediaDir ctx :: segments) "/" /\
    localPathWithQuery m =
      (let query := query_of (Js.slice url (String.length (mediaPrefix ctx))) in
       if Js.truthy query then localPath m +:+ "?" +:+ query else localPath m).
Proof.
  unfold resolveMediaPath.
  destruct (Js.startsWith url (mediaPrefix ctx)) eqn:Hp; [|discriminate].
  cbn [negb]. set (remainder := Js.slice url (String.length (mediaPrefix ctx))).
  destruct (Js.truthy (rawPath_of remainder)); [|discriminate]. cbn [negb].
  destruct (Uri.decodeURIComponent (rawPath_of remainder)) as [decoded|]; [|discriminate].
  destruct (escapes_root (NodePath.normalize decoded)) eqn:Hg; [discriminate|].
  destruct (Js.filter_Boolean (Js.split (NodePath.normalize decoded) "/"))
    as [|seg segs] eqn:Hs; [discriminate|].
  intros [= <-]. exists decoded, (seg :: segs).
  cbn [cacheKey filePath localPath localPathWithQuery].
  split; [reflexivity|]. split; [reflexivity|]. split; [assumption|].
  split; [now symmetry|]. split; [discriminate|].
  repeat split; reflexivity.
Qed.

(** ** The build hook *)

Ltac run_simpl :=
  cbn [outcome manifest_path manifest_after manifest_written work_list downloads
       fileEntries document_writes] in *.

(** A build that downloads nothing leaves everything as it was. *)
Lemma setup_idle (options : Options.t) (env : build_env) :
  let r := netlifyHybridImagesSetup options env in
  work_list r = [] ->
  downloads r = pool_init /\ document_writes r = [] /\ manifest_written r = None /\
  manifest_after r = load_manifest (manifest_path r) (stored_manifest env).
Proof.
  cbv zeta. unfold netlifyHybridImagesSetup.
  destruct (Options.enabled options); cbn [negb]; [|now auto].
  destruct (kirbyUrl env) as [url|]; [|now auto].
  destruct (Js.truthy url); cbn [negb]; [|now auto].
  destruct (content_dir_exists env); cbn [negb]; [|now auto].
  destruct (json_files env) as [|file files]; [now auto|].
  destruct (scan _ _ _ (file :: files)) as [[|[k a] assetMap] entries]; [now auto|].
  destruct (computed_manifest_path _ options) as [path|].
  - destruct (merge_manifest _ _) as [m changed].
    destruct (0 <? failed _)%nat; [discriminate|].
    destruct (Options.rewriteContent options); [|discriminate].
    destruct (rewrite_entries _ _ _) as [writes [e|]]; discriminate.
  - destruct (0 <? failed _)%nat; [discriminate|].
    destruct (Options.rewriteContent options); [|discriminate].
    destruct (rewrite_entries _ _ _) as [writes [e|]]; discriminate.
Qed.

(** A build that reaches the downloads, phase by phase. *)
Lemma setup_download_phase (options : Options.t) (env : build_env) :
  let r := netlifyHybridImagesSetup options env in
  work_list r <> [] ->
  exists url,
    kirbyUrl env = Some url /\
    let ctx := build_context options env url in
    let loaded := load_manifest (manifest_path r) (stored_manifest env) in
    let scanned := scan ctx (manifest_path r) loaded (json_files env) in
    manifest_path r = computed_manifest_path (mediaOutputDir ctx) options /\
    work_list r = JsMap.values (fst scanned) /\
    fileEntries r = snd scanned /\
    downloads r =
      downloadWithConcurrency (work_list r) (network env)
        (or_default (Options.maxRetries options) 3)
        (or_default (Options.retryDelay options) 1000)
        (Options.skipUnchanged options &&
         match manifest_path r with Some _ => true | None => false end)
        (Options.concurrency options) (schedule env) /\
    manifest_after r =
      match manifest_path r with
      | Some _ => fst (merge_manifest loaded (downloads r))
      | None => loaded
      end /\
    manifest_written r =
      match manifest_path r with
      | Some _ =>
          if snd (merge_manifest loaded (downloads r))
          then Some (stringify_metadata <$> fst (merge_manifest loaded (downloads r)))
          else None
      | None => None
      end /\
    ((0 < failed (downloads r))%nat ->
     outcome r = RewritingSkipped (failed (downloads r)) /\ document_writes r = []) /\
    (failed (downloads r) = 0%nat ->
     document_writes r =
       if Options.rewriteContent options
       then fst (rewrite_entries ctx (fileEntries r) [])
       else []).
Proof.
  cbv zeta. unfold netlifyHybridImagesSetup.
  destruct (Options.enabled options); cbn [negb]; [|now intros []].
  destruct (kirbyUrl env) as [url|]; [|now intros []].
  destruct (Js.truthy url); cbn [negb]; [|now intros []].
  destruct (content_dir_exists env); cbn [negb]; [|now intros []].
  destruct (json_files env) as [|file files] eqn:Hfiles; [now intros []|].
  fold (build_context options env url).
  change (NodePath.join [path_resolve (projectRoot env) (Options.publicDir options);
                         Options.mediaDir options])
    with (mediaOutputDir (build_context options env url)).
  remember (build_context options env url) as ctx eqn:Hctx.
  remember (computed_manifest_path (mediaOutputDir ctx) options) as path eqn:Hpath.
  destruct (scan ctx path (load_manifest path (stored_manifest env)) (file :: files))
    as [assetMap entries] eqn:Hscan.
  destruct assetMap as [|[k a] assetMap]; [now intros []|].
  intros _. exists url. split; [reflexivity|]. rewrite <- Hctx.
  set (work := JsMap.values ((k, a) :: assetMap)) in *.
  set (result := downloadWithConcurrency work _ _ _ _ _ _).
  destruct path as [p|].
  - destruct (merge_manifest (load_manifest (Some p) (stored_manifest env)) result)
      as [m changed] eqn:Hmerge.
    destruct (Nat.ltb_spec 0 (failed result)) as [Hfailed|Hfailed].
    + run_simpl. rewrite Hscan, Hmerge. cbn [fst snd].
      repeat (split || intros); try reflexivity; try assumption; lia.
    + destruct (Options.rewriteContent options).
      * destruct (rewrite_entries ctx entries []) as [writes [e|]] eqn:Hrw;
          run_simpl; rewrite Hscan, Hmerge, ?Hrw; cbn [fst snd];
          repeat (split || intros); try reflexivity; try assumption; lia.
      * run_simpl. rewrite Hscan, Hmerge. cbn [fst snd].
        repeat (split || intros); try reflexivity; try assumption; lia.
  - destruct (Nat.ltb_spec 0 (failed result)) as [Hfailed|Hfailed].
    + run_simpl. rewrite Hscan. cbn [fst snd].
      repeat (split || intros); try reflexivity; try assumption; lia.
    + destruct (Options.rewriteContent options).
      * destruct (rewrite_entries ctx entries []) as [writes [e|]] eqn:Hrw;
          run_simpl; rewrite Hscan, ?Hrw; cbn [fst snd];
          repeat (split || intros); try reflexivity; try assumption; lia.
      * run_simpl. rewrite Hscan. cbn [fst snd].
        repeat (split || intros); try reflexivity; try assumption; lia.
Qed.

(** [normalize] leaves a normalised absolute path as it is *)
Lemma normalize_idempotent (path : string) :
  Js.startsWith path "/" = true ->
  Js.startsWith (NodePath.normalize path) "/" = true /\
  NodePath.normalize (NodePath.normalize path) = NodePath.normalize path.
Proof.
  intros Habs.
  assert (Hne : path <> "") by (intros ->; discriminate).
  rewrite (normalize_render path Hne), Habs. cbn [negb].
  set (trailing := NodePath.is_slash (Js.last_char path)).
  destruct (normalizeString_shape path false) as (k & out & -> & Hplain & Hk).
  rewrite (Hk eq_refl). cbn [repeat app]. split; [apply render_absolute|].
  destruct out as [|x out]; [reflexivity|].
  assert (Hj : Js.join (x :: out) "/" <> "").
  { apply join_not_empty. inversion Hplain; subst.
    match goal with H : plain x = true |- _ =>
      apply plain_spec in H as (Ht & _); now apply truthy_spec in Ht end. }
  assert (Hrender : render true trailing (x :: out) =
                    "/" +:+ Js.join (x :: out) "/" +:+ (if trailing then "/" else "")).
  { unfold render. apply String.eqb_neq in Hj. now rewrite Hj. }
  rewrite Hrender at 1.
  rewrite normalize_render by (string_app; discriminate).
  rewrite (startsWith_append "/"). cbn [negb].
  change ("/" +:+ Js.join (x :: out) "/" +:+ (if trailing then "/" else ""))
    with ((if true then "/" else "") +:+ Js.join (x :: out) "/" +:+
          (if trailing then "/" else "")).
  rewrite split_framed by (discriminate || now apply plain_without_slash).
  assert (Hout : NodePath.normalizeString
                   ((if true then [""] else []) ++ (x :: out) ++
                    (if trailing then [""] else [])) false = x :: out).
  { unfold NodePath.normalizeString. rewrite !fold_left_app.
    change (fold_left (NodePath.norm_step false) [""] []) with (@nil string).
    rewrite (fold_norm_plain false (x :: out) [] Hplain), app_nil_r.
    destruct trailing; [|apply rev_involutive].
    change (fold_left (NodePath.norm_step false) [""] (rev (x :: out)))
      with (rev (x :: out)).
    apply rev_involutive. }
  rewrite Hout. f_equal.
  destruct trailing.
  - change ("/" +:+ Js.join (x :: out) "/" +:+ "/")
      with (("/" +:+ Js.join (x :: out) "/") +:+ String "/" "").
    now rewrite last_char_append.
  - cbn [app]. rewrite append_empty_r. string_app.
    destruct (Js.join (x :: out) "/") as [|c rest] eqn:E; [contradiction|].
    change (Js.last_char (String "/" (String c rest)))
      with (Js.last_char (String c rest)).
    rewrite <- E. now apply join_no_trailing_slash.
Qed.

(** In a build the media output directory is a normalised absolute path. *)
Lemma build_media_directory (options : Options.t) (env : build_env) (url : string) :
  let dir := mediaOutputDir (build_context options env url) in
  Js.startsWith dir "/" = true /\ NodePath.normalize dir = dir.
Proof.
  cbv zeta. unfold build_context. cbn [mediaOutputDir].
  set (publicDir := path_resolve (projectRoot env) (Options.publicDir options)).
  assert (Hpub : exists r, publicDir = "/" +:+ r) by (unfold publicDir, path_resolve; eauto).
  destruct Hpub as [r Hr]. unfold NodePath.join. cbn [Js.filter_Boolean List.filter].
  replace (Js.truthy publicDir) with true by now rewrite Hr.
  destruct (Js.truthy (Options.mediaDir options));
    apply normalize_idempotent; cbn [Js.join String.concat]; rewrite Hr;
    rewrite ?append_assoc; apply startsWith_append.
Qed.

(** C3 - Traversal safety: a URL under the origin prefix whose decoded
    and normalised path begins with [../] or is [..] resolves to [null];
    so does the prefix followed by [../../etc/passwd], whatever the
    configuration; when the media output directory is a normalised
    absolute path, the file path of every match is an absolute path
    through the segments of that directory followed by ordinary
    segments, none of them [..]; and the media output directory of a
    build is such a path. *)
Theorem traversal_safety :
  (forall url ctx decoded,
     Js.startsWith url (mediaPrefix ctx) = true ->
     Uri.decodeURIComponent
       (rawPath_of (Js.slice url (String.length (mediaPrefix ctx)))) = Some decoded ->
     Js.startsWith (NodePath.normalize decoded) "../" = true \/
       NodePath.normalize decoded = ".." ->
     resolveMediaPath url ctx = Normal None) /\
  (forall ctx,
     resolveMediaPath (mediaPrefix ctx +:+ "../../etc/passwd") ctx = Normal None) /\
  (forall url ctx m,
     Js.startsWith (mediaOutputDir ctx) "/" = true ->
     NodePath.normalize (mediaOutputDir ctx) = mediaOutputDir ctx ->
     resolveMediaPath url ctx = Normal (Some m) ->
     lies_under (mediaOutputDir ctx) (filePath m)) /\
  (forall options env url,
     let dir := mediaOutputDir (build_context options env url) in
     Js.startsWith dir "/" = true /\ NodePath.normalize dir = dir).
Proof.
  split; [|split; [|split]].
  - intros url ctx decoded Hp Hd Hesc. unfold resolveMediaPath.
    rewrite Hp, Hd. cbn [negb].
    destruct (Js.truthy _); [|reflexivity]. cbn [negb].
    assert (Hg : escapes_root (NodePath.normalize decoded) = true).
    { unfold escapes_root. destruct Hesc as [-> | ->]; [reflexivity|].
      now rewrite orb_true_r. }
    now rewrite Hg.
  - intros ctx. unfold resolveMediaPath.
    rewrite startsWith_append, slice_append. reflexivity.
  - intros url ctx m Habs Hnorm Hres.
    apply resolve_match in Hres
      as (decoded & segments & _ & _ & Hg & Hseg & Hsne & _ & Hfile & _).
    rewrite Hfile.
    assert (Hcases : Forall (fun s => plain s = true) segments \/ segments = ["."]).
    { destruct (segments_after_guard decoded Hg) as [E | [E | [_ Hp]]];
        rewrite <- Hseg in *; [contradiction|now right|now left]. }
    destruct (join_segments (mediaOutputDir ctx) segments Habs Hsne Hcases) as [H1 H2].
    split; [assumption|].
    exists (List.filter plain segments). split.
    + now rewrite H2, path_segments_normalized.
    + clear. induction segments as [|x l IH]; cbn; [constructor|].
      destruct (plain x) eqn:Hx; [constructor|]; assumption.
  - apply build_media_directory.
Qed.

Lemma traversal_safety_witness :
  resolveMediaPath "https://cms.example/media/%2e%2e/%2E%2E/etc/passwd" example_ctx
    = Normal None /\
  lies_under "/site/public/media" "/site/public/media/pages/home/hero.jpg".
Proof.
  split.
  - apply (proj1 traversal_safety
             "https://cms.example/media/%2e%2e/%2E%2E/etc/passwd" example_ctx
             "../../etc/passwd"); [reflexivity | reflexivity | left; reflexivity].
  - apply (proj1 (proj2 (proj2 traversal_safety))
             "https://cms.example/media/pages/home/hero.jpg?w=400" example_ctx
             hero_match); reflexivity.
Defined.

(** ** Where the manifest is kept *)

Lemma path_resolve_relative (root : list string) (name : string) :
  root <> [] -> Forall (fun s => plain s = true) root -> plain name = true ->
  path_resolve (absolute_path root) name = absolute_path (root ++ [name]).
Proof.
  intros Hne Hroot Hname. unfold path_resolve.
  pose proof (plain_spec _ Hname) as (Ht & Hs & _).
  unfold Js.truthy in Ht. apply negb_true_iff in Ht. rewrite Ht.
  assert (Hrel : Js.startsWith name "/" = false).
  { destruct name as [|c name]; [discriminate|].
    cbn [occurs] in Hs. apply orb_false_iff in Hs as [Hc _].
    unfold Js.startsWith. cbn [String.prefix].
    destruct (ascii_dec "/" c) as [<-|]; [|reflexivity].
    rewrite Ascii.eqb_refl in Hc. discriminate. }
  rewrite Hrel. unfold absolute_path at 1.
  rewrite !append_assoc.
  change ("/" +:+ Js.join root "/" +:+ "/" +:+ name +:+ "/")
    with (String "/" (Js.join root "/" +:+ String "/" (name +:+ String "/" ""))).
  cbn [Js.split]. rewrite Ascii.eqb_refl, !split_append.
  rewrite (split_join root "/" Hne (plain_without_slash _ Hroot)), (split_without name "/" Hs).
  unfold NodePath.normalizeString. cbn [fold_left].
  change (NodePath.norm_step false [] "") with (@nil string).
  rewrite fold_left_app, (fold_norm_plain false root [] Hroot), app_nil_r.
  cbn [fold_left Js.split app].
  rewrite (norm_step_plain false (rev root) name Hname).
  change (NodePath.norm_step false (name :: rev root) "") with (name :: rev root).
  cbn [rev]. now rewrite rev_involutive.
Qed.

(** With a file name for [cacheManifest], the manifest is put into the
    media directory, itself a directory of the public directory. *)
Lemma manifest_path_inside_media_directory (root : list string)
    (publicName mediaName manifestName : string) :
  root <> [] -> Forall (fun s => plain s = true) root ->
  plain publicName = true -> plain mediaName = true -> plain manifestName = true ->
  let publicDir := path_resolve (absolute_path root) publicName in
  let mediaOutputDir := NodePath.join [publicDir; mediaName] in
  NodePath.join [mediaOutputDir; manifestName] =
    publicDir +:+ "/" +:+ mediaName +:+ "/" +:+ manifestName.
Proof.
  intros Hne Hroot Hp Hm Hn publicDir mediaOutputDir.
  subst mediaOutputDir publicDir.
  rewrite path_resolve_relative by assumption.
  assert (Hroot' : Forall (fun s => plain s = true) (root ++ [publicName]))
    by (apply Forall_app; split; [assumption|now constructor]).
  assert (Hne' : root ++ [publicName] <> []) by (now destruct root).
  rewrite (join_below_root (root ++ [publicName]) [mediaName]);
    [|assumption..|discriminate|now constructor].
  rewrite (join_below_root ((root ++ [publicName]) ++ [mediaName]) [manifestName]).
  - unfold absolute_path.
    rewrite !join_app by (try discriminate; try assumption; now destruct root).
    now rewrite !append_assoc.
  - now destruct root.
  - apply Forall_app; split; [assumption|now constructor].
  - discriminate.
  - now constructor.
Qed.

(** C2 - Location of the manifest: with the plugin's default options and
    the project at [/site], the build computes the manifest path
    [/site/public/media/hybrid-images-manifest.json], a file below the
    public directory [/site/public], and writes the manifest there. *)
Theorem manifest_written_below_public_directory :
  let r := netlifyHybridImagesSetup defaultOptions (example_env (fun _ => healthy_origin)) in
  manifest_path r = Some "/site/public/media/hybrid-images-manifest.json" /\
  lies_under (path_resolve "/site" (Options.publicDir defaultOptions))
             "/site/public/media/hybrid-images-manifest.json" /\
  manifest_written r <> None.
Proof.
  cbv zeta. split; [vm_compute; reflexivity|]. split.
  - split; [reflexivity|].
    exists ["media"; "hybrid-images-manifest.json"].
    split; [reflexivity|repeat constructor].
  - vm_compute. discriminate.
Qed.

(** ** The public path *)

Lemma rewrite_transformer_computes (ctx : media_context) (l : list string) :
  Forall (resolves_quietly ctx) l ->
  computes (rewrite_transformer ctx) (rewritten ctx) l.
Proof.
  intros H. eapply Forall_impl; [exact H|].
  intros s Hs []. unfold rewrite_transformer, rewritten.
  unfold resolves_quietly in Hs.
  destruct (resolveMediaPath s ctx) as [[m|]|e]; try reflexivity.
  exfalso. exact (Hs e eq_refl).
Qed.

Lemma rawPath_query_split (path query : string) :
  occurs "?" path = false -> occurs "?" query = false ->
  rawPath_of (path +:+ "?" +:+ query) = path /\
  query_of (path +:+ "?" +:+ query) = query.
Proof.
  intros Hp Hq. unfold rawPath_of, query_of.
  change (path +:+ "?" +:+ query) with (path +:+ String "?" query).
  rewrite split_append, (split_without path "?" Hp), (split_without query "?" Hq).
  split; reflexivity.
Qed.

Lemma rawPath_query_none (path : string) :
  occurs "?" path = false ->
  rawPath_of path = path /\ query_of path = "".
Proof.
  intros Hp. unfold rawPath_of, query_of.
  rewrite (split_without path "?" Hp). split; reflexivity.
Qed.

Lemma resolve_after_prefix (ctx : media_context) (remainder : string) (m : media_match) :
  resolveMediaPath (mediaPrefix ctx +:+ remainder) ctx = Normal (Some m) ->
  exists decoded,
    Uri.decodeURIComponent (rawPath_of remainder) = Some decoded /\
    localPathWithQuery m =
      "/" +:+ mediaDir ctx +:+ "/" +:+ Js.join (segments_of decoded) "/" +:+
      (if Js.truthy (query_of remainder) then "?" +:+ query_of remainder else "").
Proof.
  intros H. apply resolve_match in H
    as (decoded & segments & _ & Hd & _ & Hseg & Hne & _ & _ & Hl & Hq).
  rewrite slice_append in *. exists decoded. split; [assumption|].
  rewrite Hq, Hl. cbv zeta. fold (segments_of decoded) in Hseg. subst segments.
  rewrite join_cons by assumption.
  destruct (Js.truthy (query_of remainder)).
  - now rewrite ?append_assoc.
  - now rewrite ?append_assoc, ?append_empty_r.
Qed.

(** C9, as stated, fails on three inputs.  For a URL that ends in a
    question mark the public path has no question mark; the query after
    a second question mark is dropped; a document that is a single
    string is handed back as it was. *)
Lemma rewrite_shape_counterexample :
  (rewritten example_ctx "https://cms.example/media/a.jpg?" = "/media/a.jpg" /\
   spec_public_path example_ctx ["a.jpg"] "a.jpg?" = "/media/a.jpg?") /\
  (rewritten example_ctx "https://cms.example/media/a.jpg?w=1?h=2" = "/media/a.jpg?w=1" /\
   spec_public_path example_ctx ["a.jpg"] "a.jpg?w=1?h=2" = "/media/a.jpg?w=1?h=2") /\
  (rewritten example_ctx "https://cms.example/media/a.jpg" = "/media/a.jpg" /\
   transformContent (rewrite_transformer example_ctx)
     (JString "https://cms.example/media/a.jpg") tt
   = (Normal (JString "https://cms.example/media/a.jpg", true), tt)).
Proof. repeat split; vm_compute; reflexivity. Qed.

(** C9, amended - Shape of the rewritten references.  A URL made of the
    origin prefix, a path without question mark and at most one query
    without question mark resolves, if it resolves, to the public path
    made of a slash, the media directory, a slash and the normalised
    segments joined by slashes, followed by the question mark and the
    query exactly when the query is not empty.  In a document that is an
    array or an object the rewriter replaces every string that resolves
    by that public path and leaves the other strings alone; the flag it
    returns tells whether a string changed.  The example of the
    specification is rewritten as it says. *)
Theorem rewrite_output_shape :
  (forall ctx path query m,
     occurs "?" path = false -> occurs "?" query = false ->
     resolveMediaPath (mediaPrefix ctx +:+ path +:+ "?" +:+ query) ctx = Normal (Some m) ->
     exists decoded,
       Uri.decodeURIComponent path = Some decoded /\
       localPathWithQuery m =
         "/" +:+ mediaDir ctx +:+ "/" +:+ Js.join (segments_of decoded) "/" +:+
         (if Js.truthy query then "?" +:+ query else "")) /\
  (forall ctx path m,
     occurs "?" path = false ->
     resolveMediaPath (mediaPrefix ctx +:+ path) ctx = Normal (Some m) ->
     exists decoded,
       Uri.decodeURIComponent path = Some decoded /\
       localPathWithQuery m =
         "/" +:+ mediaDir ctx +:+ "/" +:+ Js.join (segments_of decoded) "/") /\
  (forall ctx data,
     is_container data = true ->
     Forall (resolves_quietly ctx) (strings_of data) ->
     transformContent (rewrite_transformer ctx) data tt =
       (Normal (spec_replace_strings (rewritten ctx) data,
                changes (rewritten ctx) (strings_of data)), tt)) /\
  transformContent (rewrite_transformer example_ctx)
    (JObject [("hero", JString "https://cms.example/media/pages/home/hero.jpg?w=400")]) tt
  = (Normal (JObject [("hero", JString "/media/pages/home/hero.jpg?w=400")], true), tt).
Proof.
  split; [|split; [|split]].
  - intros ctx path query m Hp Hq H.
    apply resolve_after_prefix in H as (decoded & Hd & Hl).
    destruct (rawPath_query_split path query Hp Hq) as [E1 E2].
    rewrite E1, E2 in *. now exists decoded.
  - intros ctx path m Hp H.
    apply resolve_after_prefix in H as (decoded & Hd & Hl).
    destruct (rawPath_query_none path Hp) as [E1 E2].
    rewrite E1, E2 in *. exists decoded. split; [assumption|].
    rewrite Hl. cbn [Js.truthy String.eqb negb]. now rewrite append_empty_r.
  - intros ctx data Hc Hq.
    rewrite (transformContent_replacing _ (rewritten ctx))
      by now apply rewrite_transformer_computes.
    now rewrite Hc.
  - vm_compute. reflexivity.
Qed.

Lemma rewrite_output_shape_witness :
  (exists decoded,
     Uri.decodeURIComponent "pages/home/hero.jpg" = Some decoded /\
     localPathWithQuery hero_match =
       "/" +:+ mediaDir example_ctx +:+ "/" +:+ Js.join (segments_of decoded) "/" +:+
       (if Js.truthy "w=400" then "?" +:+ "w=400" else "")) /\
  transformContent (rewrite_transformer example_ctx) home_document tt =
    (Normal (spec_replace_strings (rewritten example_ctx) home_document,
             changes (rewritten example_ctx) (strings_of home_document)), tt).
Proof.
  split.
  - apply (proj1 rewrite_output_shape example_ctx "pages/home/hero.jpg" "w=400" hero_match);
      reflexivity.
  - apply (proj1 (proj2 (proj2 rewrite_output_shape)) example_ctx home_document).
    + reflexivity.
    + repeat constructor; intros e; vm_compute; discriminate.
Defined.

(** ** The scanning pass *)

Lemma JsMap_has_keys {V} (m : list (string * V)) (k : string) :
  JsMap.has m k = true <-> In k (JsMap.keys m).
Proof.
  unfold JsMap.keys. induction m as [|[k0 v0] m IH]; cbn; [intuition discriminate|].
  rewrite orb_true_iff, IH, String.eqb_eq. tauto.
Qed.

Lemma JsMap_set_new {V} (m : list (string * V)) (k : string) (v : V) :
  JsMap.has m k = false -> JsMap.set m k v = m ++ [(k, v)].
Proof.
  induction m as [|[k0 v0] m IH]; cbn; [reflexivity|].
  intros H. apply orb_false_iff in H as [H1 H2]. rewrite H1. now rewrite IH.
Qed.

Lemma JsMap_get_app {V} (m1 m2 : list (string * V)) (k : string) :
  JsMap.get (m1 ++ m2) k =
    match JsMap.get m1 k with Some v => Some v | None => JsMap.get m2 k end.
Proof.
  induction m1 as [|[k0 v0] m1 IH]; cbn; [reflexivity|].
  now destruct (String.eqb k0 k).
Qed.

Lemma JsMap_get_has {V} (m : list (string * V)) (k : string) :
  JsMap.has m k = false <-> JsMap.get m k = None.
Proof.
  induction m as [|[k0 v0] m IH]; cbn; [tauto|].
  destruct (String.eqb k0 k); cbn; [split; discriminate|assumption].
Qed.

Section Scanning.

Variable ctx : media_context.
Variable manifestPath : option string.
Variable manifest : gmap string metadata.

Local Abbreviation callback := (scan_transformer ctx manifestPath manifest).
Local Abbreviation register' := (register ctx manifestPath manifest).

Local Abbreviation cached' := (cached manifestPath manifest).

Lemma scan_transformer_preserves s st v st' :
  callback s st = (Normal v, st') -> v = s.
Proof.
  unfold scan_transformer.
  destruct (resolveMediaPath s ctx) as [[m|]|e]; [|congruence|discriminate].
  destruct (JsMap.has st (cacheKey m)); congruence.
Qed.

Lemma register_spec (assetMap : list (string * asset)) (s : string) :
  register' assetMap s =
    match resolveMediaPath s ctx with
    | Normal (Some m) =>
        if JsMap.has assetMap (cacheKey m) then assetMap
        else assetMap ++ [(cacheKey m, Asset m (cached' (cacheKey m)))]
    | _ => assetMap
    end.
Proof.
  unfold register, scan_transformer, cached.
  destruct (resolveMediaPath s ctx) as [[m|]|e]; try reflexivity.
  destruct (JsMap.has assetMap (cacheKey m)) eqn:E; [reflexivity|].
  cbn [snd]. now apply JsMap_set_new.
Qed.

(** the walk of one document, as far as the asset map is concerned *)
Lemma run_callback_register (l : list string) : forall assetMap,
  snd (run_callback callback l assetMap) =
    fold_left register' (quiet_prefix ctx l) assetMap.
Proof.
  induction l as [|s l IH]; intros assetMap; [reflexivity|].
  cbn [run_callback quiet_prefix].
  destruct (callback s assetMap) as [[v|e] st'] eqn:E.
  - assert (Hst : st' = register' assetMap s) by (unfold register; now rewrite E).
    unfold scan_transformer in E.
    destruct (resolveMediaPath s ctx) as [[m|]|e'] eqn:Hr; [| |discriminate];
      cbn [fold_left]; rewrite IH; now subst st'.
  - unfold scan_transformer in E.
    destruct (resolveMediaPath s ctx) as [[m|]|e'] eqn:Hr.
    + destruct (JsMap.has assetMap (cacheKey m)); discriminate.
    + discriminate.
    + now injection E as _ <-.
Qed.

Lemma run_callback_quiet (l : list string) : forall assetMap,
  fst (run_callback callback l assetMap) = None ->
  Forall (resolves_quietly ctx) l.
Proof.
  induction l as [|s l IH]; intros assetMap; [constructor|].
  cbn [run_callback]. destruct (callback s assetMap) as [[v|e] st'] eqn:E.
  - intros H. constructor; [|eapply IH; eassumption].
    intros e' He. unfold scan_transformer in E. rewrite He in E. discriminate.
  - discriminate.
Qed.

Lemma scan_file_spec (assetMap : list (string * asset)) (entries : list (string * json))
    (file : string * option json) :
  let result := scan_file ctx manifestPath manifest (assetMap, entries) file in
  fst result =
    fold_left register'
      (match snd file with
       | Some data => quiet_prefix ctx (strings_of data)
       | None => []
       end) assetMap /\
  (snd result = entries \/
   exists data, snd file = Some data /\
     Forall (resolves_quietly ctx) (strings_of data) /\
     snd result = entries ++ [(fst file, data)]).
Proof.
  unfold scan_file. destruct file as [path [data|]]; cbn [fst snd]; [|now auto].
  rewrite (transformContent_preserving callback scan_transformer_preserves).
  pose proof (run_callback_register (strings_of data) assetMap) as Hreg.
  pose proof (run_callback_quiet (strings_of data) assetMap) as Hq.
  destruct (run_callback callback (strings_of data) assetMap) as [[e|] st'];
    cbn [fst snd] in *; (split; [now symmetry|]).
  - now left.
  - right. exists data. auto.
Qed.

Local Abbreviation kept_entry' := (kept_entry ctx).

Lemma scan_fold_spec (all files : list (string * option json)) :
  forall assetMap entries,
  incl files all -> Forall (kept_entry' all) entries ->
  let result := fold_left (scan_file ctx manifestPath manifest) files (assetMap, entries) in
  fst result = fold_left register' (scanned_strings ctx files) assetMap /\
  Forall (kept_entry' all) (snd result).
Proof.
  induction files as [|file files IH]; intros assetMap entries Hincl Hent; cbn zeta.
  - cbn. auto.
  - cbn [fold_left scanned_strings flat_map]. rewrite fold_left_app.
    destruct (scan_file_spec assetMap entries file) as [H1 H2]. cbv zeta in H1, H2.
    destruct (scan_file ctx manifestPath manifest (assetMap, entries) file)
      as [assetMap' entries'] eqn:E. cbn [fst snd] in H1, H2.
    rewrite <- H1. apply IH.
    + intros x Hx. apply Hincl. now right.
    + destruct H2 as [-> | (data & Hd & Hq & ->)]; [assumption|].
      apply Forall_app. split; [assumption|]. repeat constructor; cbn [fst snd].
      * apply Hincl. left. destruct file as [path d]. cbn in *. now subst d.
      * assumption.
Qed.

Lemma scan_spec (files : list (string * option json)) :
  let result := scan ctx manifestPath manifest files in
  fst result = fold_left register' (scanned_strings ctx files) [] /\
  Forall (kept_entry' files) (snd result).
Proof.
  apply scan_fold_spec; [apply incl_refl|constructor].
Qed.

Lemma first_match_found (l : list string) (s : string) (m : media_match) :
  In s l -> resolveMediaPath s ctx = Normal (Some m) ->
  exists first, first_match ctx l (cacheKey m) = Some first.
Proof.
  induction l as [|x l IH]; [intros []|].
  intros [->|Hin] Hr; cbn [first_match].
  - rewrite Hr, String.eqb_refl. eauto.
  - destruct (resolveMediaPath x ctx) as [[mx|]|e]; try now apply IH.
    destruct (String.eqb (cacheKey mx) (cacheKey m)); [eauto|now apply IH].
Qed.

Lemma first_match_key (l : list string) (k : string) (m : media_match) :
  first_match ctx l k = Some m -> cacheKey m = k.
Proof.
  induction l as [|x l IH]; [discriminate|]. cbn [first_match].
  destruct (resolveMediaPath x ctx) as [[mx|]|e]; try assumption.
  destruct (String.eqb_spec (cacheKey mx) k); [congruence|assumption].
Qed.

(** First occurrence wins: after the strings of [l] the asset map holds,
    for a key it did not have, the match of the first string of [l] that
    resolves to that key. *)
Lemma register_fold (l : list string) : forall assetMap,
  well_keyed assetMap ->
  let assetMap' := fold_left register' l assetMap in
  well_keyed assetMap' /\
  forall k,
    JsMap.get assetMap' k =
      match JsMap.get assetMap k with
      | Some a => Some a
      | None => option_map (fun m => Asset m (cached' k)) (first_match ctx l k)
      end.
Proof.
  induction l as [|s l IH]; intros assetMap Hwk; cbn zeta.
  - split; [assumption|]. intros k. cbn. now destruct (JsMap.get assetMap k).
  - cbn [fold_left first_match]. rewrite register_spec.
    destruct (resolveMediaPath s ctx) as [[m|]|e] eqn:Hr; try now apply IH.
    destruct (JsMap.has assetMap (cacheKey m)) eqn:Hhas.
    + destruct (IH assetMap Hwk) as [H1 H2]. split; [assumption|].
      intros k. rewrite H2. destruct (JsMap.get assetMap k) eqn:Hget; [reflexivity|].
      destruct (String.eqb_spec (cacheKey m) k) as [<-|]; [|reflexivity].
      apply JsMap_get_has in Hget. congruence.
    + destruct Hwk as [Hnd Hkeys].
      destruct (IH (assetMap ++ [(cacheKey m, Asset m (cached' (cacheKey m)))]))
        as [H1 H2].
      { split.
        - unfold JsMap.keys in *. rewrite map_app. cbn [map fst].
          apply NoDup_app. split; [assumption|]. split; [|apply NoDup_singleton].
          intros k Hk Hk'. apply list_elem_of_In in Hk, Hk'.
          destruct Hk' as [<-|[]].
          assert (JsMap.has assetMap (cacheKey m) = true)
            by now apply JsMap_has_keys.
          congruence.
        - apply Forall_app. split; [assumption|]. now repeat constructor. }
      split; [assumption|]. intros k. rewrite H2, JsMap_get_app.
      destruct (JsMap.get assetMap k) eqn:Hget; [reflexivity|].
      cbn [JsMap.get]. destruct (String.eqb_spec (cacheKey m) k) as [<-|]; reflexivity.
Qed.

Lemma well_keyed_values (assetMap : list (string * asset)) :
  well_keyed assetMap ->
  map (fun a => cacheKey (asset_match a)) (JsMap.values assetMap) = JsMap.keys assetMap.
Proof.
  intros [_ H]. unfold JsMap.values, JsMap.keys. rewrite map_map.
  induction H as [|[k a] l Hk _ IH]; [reflexivity|].
  cbn [map fst snd] in *. now rewrite IH, Hk.
Qed.

Lemma get_in_values (assetMap : list (string * asset)) (k : string) (a : asset) :
  JsMap.get assetMap k = Some a -> In a (JsMap.values assetMap).
Proof.
  unfold JsMap.values. induction assetMap as [|[k0 a0] l IH]; cbn; [discriminate|].
  destruct (String.eqb k0 k); [intros [= ->]; now left|intros H; right; now apply IH].
Qed.

End Scanning.

Lemma count_once (keys : list string) (k : string) :
  NoDup keys -> In k keys ->
  length (List.filter (fun k' => String.eqb k' k) keys) = 1%nat.
Proof.
  induction 1 as [|x l Hx Hnd IH]; [intros []|].
  cbn [List.filter]. destruct (String.eqb_spec x k) as [->|Hne].
  - intros _. cbn. f_equal.
    assert (Hnone : forall l', ~ In k l' ->
              List.filter (fun k' => String.eqb k' k) l' = []).
    { clear. induction l' as [|y l' IH]; [reflexivity|]. cbn. intros H.
      destruct (String.eqb_spec y k) as [->|]; [tauto|]. apply IH. tauto. }
    rewrite Hnone; [reflexivity|]. intros H. apply Hx. now apply list_elem_of_In.
  - intros [->|Hin]; [contradiction|]. now apply IH.
Qed.

Lemma scan_well_keyed (ctx : media_context) (manifestPath : option string)
    (manifest : gmap string metadata) (files : list (string * option json)) :
  well_keyed (fst (scan ctx manifestPath manifest files)) /\
  forall k,
    JsMap.get (fst (scan ctx manifestPath manifest files)) k =
      option_map (fun m => Asset m (cached manifestPath manifest k))
                 (first_match ctx (scanned_strings ctx files) k).
Proof.
  destruct (scan_spec ctx manifestPath manifest files) as [Hmap _]. cbv zeta in Hmap.
  destruct (register_fold ctx manifestPath manifest (scanned_strings ctx files) [])
    as [Hwk Hget]; [split; constructor|]. cbv zeta in Hwk, Hget.
  rewrite <- Hmap in Hwk, Hget. split; [assumption|]. intros k. now rewrite Hget.
Qed.

Lemma scan_work_list_keys (ctx : media_context) (manifestPath : option string)
    (manifest : gmap string metadata) (files : list (string * option json)) :
  NoDup (map (fun a => cacheKey (asset_match a))
             (JsMap.values (fst (scan ctx manifestPath manifest files)))).
Proof.
  destruct (scan_well_keyed ctx manifestPath manifest files) as [Hwk _].
  rewrite well_keyed_values by assumption. apply Hwk.
Qed.

(** C7 - Cache keys and de-duplication: a URL has one cache key, and
    the key does not depend on the query; the work list of the scanning
    pass holds no cache key twice; and every string of the scanned
    documents that resolves has exactly one asset on the work list, the
    one registered for the first string with its cache key. *)
Theorem scanner_deduplicates (ctx : media_context) (manifestPath : option string)
    (manifest : gmap string metadata) (files : list (string * option json)) :
  let assetMap := fst (scan ctx manifestPath manifest files) in
  let work := JsMap.values assetMap in
  (forall url m1 m2,
     resolveMediaPath url ctx = Normal (Some m1) ->
     resolveMediaPath url ctx = Normal (Some m2) -> cacheKey m1 = cacheKey m2) /\
  (forall path q1 q2 m1 m2,
     occurs "?" path = false ->
     resolveMediaPath (mediaPrefix ctx +:+ path +:+ "?" +:+ q1) ctx = Normal (Some m1) ->
     resolveMediaPath (mediaPrefix ctx +:+ path +:+ "?" +:+ q2) ctx = Normal (Some m2) ->
     cacheKey m1 = cacheKey m2) /\
  NoDup (map (fun a => cacheKey (asset_match a)) work) /\
  (forall s m,
     In s (scanned_strings ctx files) ->
     resolveMediaPath s ctx = Normal (Some m) ->
     length (List.filter
               (fun a => String.eqb (cacheKey (asset_match a)) (cacheKey m)) work) = 1%nat /\
     exists first,
       first_match ctx (scanned_strings ctx files) (cacheKey m) = Some first /\
       JsMap.get assetMap (cacheKey m) =
         Some (Asset first (cached manifestPath manifest (cacheKey m)))).
Proof.
  cbv zeta.
  destruct (scan_well_keyed ctx manifestPath manifest files) as [Hwk Hget].
  split; [congruence|]. split; [|split].
  - intros path q1 q2 m1 m2 Hp H1 H2.
    apply resolve_match in H1 as (d1 & s1 & _ & Hd1 & _ & Hs1 & _ & Hk1 & _).
    apply resolve_match in H2 as (d2 & s2 & _ & Hd2 & _ & Hs2 & _ & Hk2 & _).
    rewrite slice_append in Hd1, Hd2.
    assert (Hraw : forall q, rawPath_of (path +:+ "?" +:+ q) = path).
    { intros q. unfold rawPath_of.
      change (path +:+ "?" +:+ q) with (path +:+ String "?" q).
      now rewrite split_append, (split_without path "?" Hp). }
    rewrite Hraw in Hd1, Hd2. congruence.
  - apply scan_work_list_keys.
  - intros s m Hin Hr.
    destruct (first_match_found ctx _ s m Hin Hr) as [first Hfirst].
    specialize (Hget (cacheKey m)). rewrite Hfirst in Hget. cbn [option_map] in Hget.
    split; [|now exists first].
    pose proof (count_once (JsMap.keys (fst (scan ctx manifestPath manifest files)))
                  (cacheKey m) (proj1 Hwk)) as Hcount.
    rewrite <- (well_keyed_values _ Hwk) in Hcount.
    assert (Hlen : forall (l : list asset) k,
      length (List.filter (fun a => String.eqb (cacheKey (asset_match a)) k) l) =
      length (List.filter (fun k' => String.eqb k' k)
                (map (fun a => cacheKey (asset_match a)) l))).
    { clear. induction l as [|a l IH]; intros k; [reflexivity|]. cbn.
      destruct (String.eqb _ k); cbn; now rewrite IH. }
    rewrite Hlen. apply Hcount.
    apply get_in_values in Hget. apply in_map_iff.
    eexists. split; [|exact Hget]. cbn [asset_match].
    eapply first_match_key; eassumption.
Qed.

(** ** The worker pool *)

Lemma try_block_returns (a : asset) (world : asset_world) (maxRetries retryDelay : Z)
    (skipUnchanged : bool) (attempt : Z) (r : download_result) (ev : list event) :
  try_block a world maxRetries retryDelay skipUnchanged attempt = (Returns r, ev) ->
  dl_status r <> Failed /\ dl_metadata r <> None.
Proof.
  unfold try_block.
  destruct (mkdir_error _); [discriminate|].
  destruct (fetched _) as [resp|e]; [|discriminate].
  destruct (status resp =? 304)%Z.
  { intros [= <- _]. split; discriminate. }
  destruct (negb (response_ok resp)).
  { destruct (_ && _ && _); [discriminate|].
    destruct (attempt <? maxRetries)%Z; discriminate. }
  destruct (body _); [|discriminate].
  destruct (write_error _); [discriminate|].
  intros [= <- _]. split; discriminate.
Qed.

Lemma loop_body_metadata (a : asset) (world : asset_world) (maxRetries retryDelay : Z)
    (skipUnchanged : bool) (attempt : Z) (r : download_result) (ev : list event) :
  loop_body a world maxRetries retryDelay skipUnchanged attempt = (Returns r, ev) ->
  (dl_status r = Failed <-> dl_metadata r = None).
Proof.
  unfold loop_body.
  destruct (try_block a world maxRetries retryDelay skipUnchanged attempt)
    as [[r'| |e] ev'] eqn:E.
  - intros [= <- _]. apply try_block_returns in E as [H1 H2]. tauto.
  - discriminate.
  - unfold catch_block. destruct (_ && _); [discriminate|].
    intros [= <- _]. cbn. tauto.
Qed.

(** [Failed] is the one outcome without metadata. *)
Lemma downloadAsset_metadata (a : asset) (world : asset_world) (maxRetries retryDelay : Z)
    (skipUnchanged : bool) :
  let r := fst (downloadAsset a world maxRetries retryDelay skipUnchanged) in
  dl_status r = Failed <-> dl_metadata r = None.
Proof.
  cbv zeta. unfold downloadAsset. generalize 1%Z as attempt.
  induction (Z.to_nat maxRetries) as [|n IH]; intros attempt; cbn [attempt_loop].
  - cbn. tauto.
  - destruct (loop_body a world maxRetries retryDelay skipUnchanged attempt)
      as [[r| |e] ev] eqn:E.
    + cbn [fst]. eapply loop_body_metadata; eassumption.
    + specialize (IH (attempt + 1)%Z).
      now destruct (attempt_loop a world maxRetries retryDelay skipUnchanged n (attempt + 1)).
    + cbn. tauto.
Qed.

Lemma count_status_app s l1 l2 :
  count_status s (l1 ++ l2) = (count_status s l1 + count_status s l2)%nat.
Proof. unfold count_status. now rewrite List.filter_app, length_app. Qed.

Lemma count_status_total l :
  (count_status Downloaded l + count_status Skipped l + count_status Failed l)%nat
  = length l.
Proof.
  unfold count_status. induction l as [|[i s] l IH]; [reflexivity|].
  destruct s; cbn in *; lia.
Qed.

Lemma count_status_failed l :
  (0 < count_status Failed l)%nat <-> exists i, In (i, Failed) l.
Proof.
  unfold count_status. induction l as [|[i s] l IH]; cbn.
  - split; [lia|intros [_ []]].
  - destruct s; cbn; rewrite ?IH.
    + split; [intros [j H]; eauto|intros [j [[=]|H]]; eauto].
    + split; [intros [j H]; eauto|intros [j [[=]|H]]; eauto].
    + split; [eauto|lia].
Qed.

Lemma JsMap_keys_set {V} (m : list (string * V)) (k : string) (v : V) (k' : string) :
  In k' (JsMap.keys (JsMap.set m k v)) <-> k' = k \/ In k' (JsMap.keys m).
Proof.
  unfold JsMap.keys. induction m as [|[k0 v0] m IH]; cbn.
  - intuition.
  - destruct (String.eqb_spec k0 k) as [->|Hne]; cbn; [intuition|].
    rewrite IH. intuition.
Qed.

Lemma JsSet_add_spec (s : list string) (k k' : string) :
  In k' (JsSet.add s k) <-> k' = k \/ In k' s.
Proof.
  unfold JsSet.add, JsSet.has.
  destruct (existsb (String.eqb k) s) eqn:E.
  - apply existsb_exists in E as (x & Hx & Heq). apply String.eqb_eq in Heq. subst x.
    intuition. now subst.
  - rewrite in_app_iff. cbn. intuition.
Qed.

Lemma awaited_app ws1 ws2 : awaited (ws1 ++ ws2) = awaited ws1 ++ awaited ws2.
Proof. apply omap_app. Qed.

Lemma waiting_from_length b ws : length (waiting_from b ws) = length (awaited ws).
Proof.
  revert b. induction ws as [|[i|] ws IH]; intros b; cbn; [reflexivity| |apply IH].
  now rewrite IH.
Qed.

Lemma waiting_from_lookup b ws w :
  In w (waiting_from b ws) -> exists i, ws !! (w - b)%nat = Some (Some i) /\ (b <= w)%nat.
Proof.
  revert b. induction ws as [|[i|] ws IH]; intros b; cbn; [intros []| |].
  - intros [<-|H].
    + exists i. rewrite Nat.sub_diag. split; [reflexivity|lia].
    + apply IH in H as (j & Hj & Hle). exists j.
      replace (w - b)%nat with (S (w - S b))%nat by lia. split; [assumption|lia].
  - intros H. apply IH in H as (j & Hj & Hle). exists j.
    replace (w - b)%nat with (S (w - S b))%nat by lia. split; [assumption|lia].
Qed.

Lemma awaited_insert ws w i slot :
  ws !! w = Some (Some i) ->
  exists ws1 ws2,
    awaited ws = awaited ws1 ++ i :: awaited ws2 /\
    awaited (<[w := slot]> ws) =
      awaited ws1 ++ match slot with Some j => [j] | None => [] end ++ awaited ws2.
Proof.
  intros H. exists (take w ws), (drop (S w) ws). split.
  - rewrite <- (take_drop_middle ws w (Some i) H) at 1.
    now rewrite awaited_app.
  - rewrite insert_take_drop by (eapply lookup_lt_Some; eassumption).
    rewrite awaited_app. now destruct slot.
Qed.

Ltac pool_simpl :=
  cbn [index success skipped failed manifestUpdates manifestRemovals
       workers completed trace] in *.

Section PoolFacts.

Variable assets : list asset.
Variable world : nat -> asset_world.
Variables maxRetries retryDelay : Z.
Variable skipUnchanged : bool.

Local Abbreviation outcome_of i a :=
  (dl_status (fst (downloadAsset a (world i) maxRetries retryDelay skipUnchanged))).
Local Abbreviation claim' := (claim assets).
Local Abbreviation spawn' := (spawn assets).
Local Abbreviation resume' :=
  (resume assets world maxRetries retryDelay skipUnchanged).
Local Abbreviation record' :=
  (record_result world maxRetries retryDelay skipUnchanged).

Local Abbreviation pool_inv' :=
  (pool_inv assets world maxRetries retryDelay skipUnchanged).

Lemma pool_init_inv : pool_inv' pool_init.
Proof.
  constructor; cbn; try reflexivity; try lia.
  - intros _. constructor.
  - constructor.
  - intros k. split; [intros []|intros (i & a & [] & _)].
  - intros k. split; [intros []|intros (i & s & a & [] & _)].
Qed.

Lemma spawn_inv st : pool_inv' st -> pool_inv' (spawn' st).
Proof.
  intros [Hi Hc Hb Ho Hs1 Hs2 Hs3 Hr Hu]. unfold spawn, claim.
  destruct (Nat.ltb_spec (index st) (length assets)) as [Hlt|Hge];
    constructor; pool_simpl; try assumption; try lia.
  - rewrite awaited_app, seq_S, app_assoc. cbn [awaited omap id]. now rewrite Hc.
  - intros _. apply Forall_app. split; [now apply Hb|repeat constructor; eauto].
  - rewrite awaited_app. cbn. now rewrite app_nil_r.
Qed.

Lemma spawn_workers st : length (workers (spawn' st)) = S (length (workers st)).
Proof.
  unfold spawn, claim. destruct (_ <? _)%nat; cbn; rewrite length_app; cbn; lia.
Qed.

Lemma spawn_completed st : completed (spawn' st) = completed st.
Proof. unfold spawn, claim. now destruct (_ <? _)%nat. Qed.

Lemma awaited_bound st w i :
  pool_inv' st -> workers st !! w = Some (Some i) -> (i < index st)%nat.
Proof.
  intros Hinv Hw.
  assert (Hin : In i (map fst (completed st) ++ awaited (workers st))).
  { apply in_app_iff. right. unfold awaited.
    apply list_elem_of_In, list_elem_of_omap. exists (Some i). split; [|reflexivity].
    eapply list_elem_of_lookup_2; eassumption. }
  apply list_elem_of_In in Hin. rewrite (inv_claimed st Hinv) in Hin.
  apply list_elem_of_In, in_seq in Hin. lia.
Qed.

Lemma resume_inv st w : pool_inv' st -> pool_inv' (resume' w st).
Proof.
  intros Hinv. unfold resume.
  destruct (workers st !! w) as [[i|]|] eqn:Hw; try assumption.
  pose proof (awaited_bound st w i Hinv Hw) as Hi.
  destruct Hinv as [Hidx Hc Hb Ho Hs1 Hs2 Hs3 Hr Hu].
  destruct (assets !! i) as [a|] eqn:Ha.
  2:{ apply lookup_ge_None in Ha. lia. }
  unfold record_result.
  destruct (downloadAsset a (world i) maxRetries retryDelay skipUnchanged)
    as [result ev] eqn:Hdl.
  assert (Hstatus : dl_status result = outcome_of i a) by now rewrite Hdl.
  pose proof (downloadAsset_metadata a (world i) maxRetries retryDelay skipUnchanged)
    as Hmeta. cbv zeta in Hmeta. rewrite Hdl in Hmeta. cbn [fst] in Hmeta.
  unfold claim. cbn [index].
  destruct (awaited_insert (workers st) w i
              (if (index st <? length assets)%nat then Some (index st) else None) Hw)
    as (ws1 & ws2 & Hbefore & Hafter).
  rewrite Hbefore in Hc.
  destruct (Nat.ltb_spec (index st) (length assets)) as [Hlt|Hge];
    constructor; pool_simpl; try lia.
  - rewrite Hafter, map_app, seq_S. cbn [map fst app].
    rewrite <- Hc. rewrite <- !app_assoc. cbn [app].
    apply Permutation_app_head. symmetry.
    etransitivity; [symmetry; apply Permutation_middle|].
    apply perm_skip, Permutation_app_head. cbn [Nat.add].
    symmetry. apply Permutation_cons_append.
  - intros _. apply Forall_insert; [now apply Hb|eauto].
  - apply Forall_app. split; [assumption|].
    repeat constructor. exists a. cbn. split; [assumption|apply Hstatus].
  - rewrite count_status_app, Hs1. destruct (dl_status result); cbn; lia.
  - rewrite count_status_app, Hs2. destruct (dl_status result); cbn; lia.
  - rewrite count_status_app, Hs3. destruct (dl_status result); cbn; lia.
  - intros k. destruct (dl_status result) eqn:Hs; rewrite ?JsSet_add_spec, Hr;
      split.
    all: try (intros (j & b & Hin & Hb' & Hk); exists j, b;
              rewrite in_app_iff; now auto).
    all: try (intros (j & b & Hin & Hb' & Hk); apply in_app_iff in Hin as [Hin|[[=]|[]]];
              exists j, b; now auto).
    + intros [->|(j & b & Hin & Hb' & Hk)].
      * exists i, a. rewrite in_app_iff. cbn. auto.
      * exists j, b. rewrite in_app_iff. auto.
    + intros (j & b & Hin & Hb' & Hk). apply in_app_iff in Hin as [Hin|[[= <- ]|[]]].
      * right. exists j, b. auto.
      * left. congruence.
  - intros k. destruct (dl_metadata result) as [md|] eqn:Hmd.
    + assert (Hnf : dl_status result <> Failed) by (intros E; apply Hmeta in E; congruence).
      rewrite JsMap_keys_set, Hu. split.
      * intros [->|(j & s & b & Hin & Hs & Hb' & Hk)].
        -- exists i, (dl_status result), a. rewrite in_app_iff. cbn. auto.
        -- exists j, s, b. rewrite in_app_iff. auto.
      * intros (j & s & b & Hin & Hs & Hb' & Hk).
        apply in_app_iff in Hin as [Hin|[[= <- <-]|[]]].
        -- right. exists j, s, b. auto.
        -- left. congruence.
    + assert (Hf : dl_status result = Failed) by now apply Hmeta.
      rewrite Hu. split.
      * intros (j & s & b & Hin & Hs & Hb' & Hk). exists j, s, b.
        rewrite in_app_iff. auto.
      * intros (j & s & b & Hin & Hs & Hb' & Hk).
        apply in_app_iff in Hin as [Hin|[[= <- <-]|[]]]; [|congruence].
        exists j, s, b. auto.
  - rewrite Hafter, map_app. cbn [map fst app].
    rewrite <- Hc. rewrite <- !app_assoc. cbn [app].
    apply Permutation_app_head. apply Permutation_middle.
  - apply Forall_app. split; [assumption|].
    repeat constructor. exists a. cbn. split; [assumption|apply Hstatus].
  - rewrite count_status_app, Hs1. destruct (dl_status result); cbn; lia.
  - rewrite count_status_app, Hs2. destruct (dl_status result); cbn; lia.
  - rewrite count_status_app, Hs3. destruct (dl_status result); cbn; lia.
  - intros k. destruct (dl_status result) eqn:Hs; rewrite ?JsSet_add_spec, Hr;
      split.
    all: try (intros (j & b & Hin & Hb' & Hk); exists j, b;
              rewrite in_app_iff; now auto).
    all: try (intros (j & b & Hin & Hb' & Hk); apply in_app_iff in Hin as [Hin|[[=]|[]]];
              exists j, b; now auto).
    + intros [->|(j & b & Hin & Hb' & Hk)].
      * exists i, a. rewrite in_app_iff. cbn. auto.
      * exists j, b. rewrite in_app_iff. auto.
    + intros (j & b & Hin & Hb' & Hk). apply in_app_iff in Hin as [Hin|[[= <- ]|[]]].
      * right. exists j, b. auto.
      * left. congruence.
  - intros k. destruct (dl_metadata result) as [md|] eqn:Hmd.
    + assert (Hnf : dl_status result <> Failed) by (intros E; apply Hmeta in E; congruence).
      rewrite JsMap_keys_set, Hu. split.
      * intros [->|(j & s & b & Hin & Hs & Hb' & Hk)].
        -- exists i, (dl_status result), a. rewrite in_app_iff. cbn. auto.
        -- exists j, s, b. rewrite in_app_iff. auto.
      * intros (j & s & b & Hin & Hs & Hb' & Hk).
        apply in_app_iff in Hin as [Hin|[[= <- <-]|[]]].
        -- right. exists j, s, b. auto.
        -- left. congruence.
    + assert (Hf : dl_status result = Failed) by now apply Hmeta.
      rewrite Hu. split.
      * intros (j & s & b & Hin & Hs & Hb' & Hk). exists j, s, b.
        rewrite in_app_iff. auto.
      * intros (j & s & b & Hin & Hs & Hb' & Hk).
        apply in_app_iff in Hin as [Hin|[[= <- <-]|[]]]; [|congruence].
        exists j, s, b. auto.
Qed.

Lemma resume_workers st w : length (workers (resume' w st)) = length (workers st).
Proof.
  unfold resume. destruct (workers st !! w) as [[i|]|]; try reflexivity.
  destruct (assets !! i) as [a|]; [|cbn; apply length_insert].
  unfold claim, record_result.
  destruct (downloadAsset _ _ _ _ _). pool_simpl.
  destruct (_ <? _)%nat; pool_simpl; apply length_insert.
Qed.

Lemma resume_completed st w i :
  pool_inv' st -> workers st !! w = Some (Some i) ->
  length (completed (resume' w st)) = S (length (completed st)).
Proof.
  intros Hinv Hw. pose proof (awaited_bound st w i Hinv Hw) as Hi.
  pose proof (inv_index st Hinv) as Hidx.
  unfold resume. rewrite Hw.
  destruct (assets !! i) as [a|] eqn:Ha; [|apply lookup_ge_None in Ha; lia].
  unfold claim, record_result.
  destruct (downloadAsset _ _ _ _ _). pool_simpl.
  destruct (_ <? _)%nat; pool_simpl; rewrite length_app; cbn; lia.
Qed.

Lemma completed_bound st :
  pool_inv' st ->
  (length (completed st) + length (awaited (workers st)) = index st)%nat.
Proof.
  intros Hinv. pose proof (inv_claimed st Hinv) as H.
  apply Permutation_length in H.
  now rewrite length_app, length_map, length_seq in H.
Qed.

(** While a download is outstanding some worker is waiting, and the
    schedule picks a waiting worker. *)
Lemma pick_waiting st choice :
  pool_inv' st -> workers st <> [] -> (length (completed st) < length assets)%nat ->
  exists w i, pick choice st = Some w /\ workers st !! w = Some (Some i).
Proof.
  intros Hinv Hne Hlt.
  pose proof (completed_bound st Hinv) as Hlen.
  pose proof (inv_index st Hinv) as Hidx.
  assert (Hwait : waiting st <> []).
  { unfold waiting. intros E.
    pose proof (waiting_from_length 0 (workers st)) as Hl. rewrite E in Hl. cbn in Hl.
    destruct (Nat.lt_ge_cases (index st) (length assets)) as [Hi|Hi]; [|lia].
    pose proof (inv_busy st Hinv Hi) as Hbusy.
    destruct (workers st) as [|[j|] ws]; [contradiction|cbn in E; discriminate E|].
    inversion Hbusy as [|? ? Hsome _]. destruct Hsome as [? [=]]. }
  unfold pick.
  destruct (waiting st !! (choice mod length (waiting st))%nat) as [w|] eqn:E.
  - exists w. apply list_elem_of_lookup_2, list_elem_of_In, waiting_from_lookup in E
      as (i & Hi & _).
    rewrite Nat.sub_0_r in Hi. now exists i.
  - apply lookup_ge_None in E.
    assert (length (waiting st) <> 0)%nat by (now destruct (waiting st)).
    pose proof (Nat.mod_upper_bound choice (length (waiting st))). lia.
Qed.

Lemma pick_none st choice :
  pick choice st = None -> waiting st = [].
Proof.
  unfold pick. intros E. apply lookup_ge_None in E.
  destruct (waiting st) as [|w ws] eqn:Hw; [reflexivity|].
  pose proof (Nat.mod_upper_bound choice (length (w :: ws))). cbn in *. lia.
Qed.

(** With enough fuel for the downloads that are outstanding, the pool
    runs until every asset has been downloaded and no worker waits. *)
Lemma run_pool_completes fuel : forall schedule st,
  pool_inv' st -> workers st <> [] ->
  (length assets <= length (completed st) + fuel)%nat ->
  let st' := run_pool assets world maxRetries retryDelay skipUnchanged fuel schedule st in
  pool_inv' st' /\ length (completed st') = length assets /\
  waiting st' = [] /\ length (workers st') = length (workers st).
Proof.
  induction fuel as [|fuel IH]; intros schedule st Hinv Hne Hfuel; cbn zeta.
  - cbn [run_pool].
    pose proof (completed_bound st Hinv) as Hlen.
    pose proof (inv_index st Hinv) as Hidx.
    split; [assumption|]. split; [lia|]. split; [|reflexivity].
    unfold waiting.
    pose proof (waiting_from_length 0 (workers st)) as Hl.
    destruct (waiting_from 0 (workers st)); [reflexivity|cbn in Hl; lia].
  - cbn [run_pool].
    destruct (pick (hd 0%nat schedule) st) as [w|] eqn:Hpick.
    + assert (Hw : exists i, workers st !! w = Some (Some i)).
      { unfold pick in Hpick.
        apply list_elem_of_lookup_2, list_elem_of_In, waiting_from_lookup in Hpick
          as (i & Hi & _).
        rewrite Nat.sub_0_r in Hi. now exists i. }
      destruct Hw as [i Hw].
      pose proof (resume_completed st w i Hinv Hw) as Hc.
      pose proof (resume_workers st w) as Hwk.
      destruct (IH (tl schedule) (resume' w st)) as (H1 & H2 & H3 & H4).
      * now apply resume_inv.
      * intros E. rewrite E in Hwk. destruct (workers st); [contradiction|discriminate].
      * lia.
      * split; [assumption|]. split; [assumption|]. split; [assumption|lia].
    + pose proof (pick_none st _ Hpick) as Hwait.
      split; [assumption|]. split; [|split; [assumption|reflexivity]].
      destruct (Nat.lt_ge_cases (length (completed st)) (length assets)) as [Hlt|Hge].
      * destruct (pick_waiting st (hd 0%nat schedule) Hinv Hne Hlt) as (w & i & E & _).
        congruence.
      * pose proof (completed_bound st Hinv). pose proof (inv_index st Hinv). lia.
Qed.

Lemma iter_spawn_inv n :
  pool_inv' (Nat.iter n spawn' pool_init) /\
  length (workers (Nat.iter n spawn' pool_init)) = n /\
  completed (Nat.iter n spawn' pool_init) = [].
Proof.
  induction n as [|n (IH1 & IH2 & IH3)].
  - split; [apply pool_init_inv|split; reflexivity].
  - change (Nat.iter (S n) spawn' pool_init) with (spawn' (Nat.iter n spawn' pool_init)).
    split; [now apply spawn_inv|].
    rewrite spawn_workers, spawn_completed, IH2. split; [reflexivity|assumption].
Qed.

(** the number of workers that [Array.from] creates *)
Lemma worker_count_spec (concurrency : Z) :
  assets <> [] ->
  worker_count assets concurrency =
    Z.to_nat (Z.min (Z.max 1 concurrency) (Z.of_nat (length assets))) /\
  (1 <= worker_count assets concurrency <= length assets)%nat.
Proof.
  intros Hne. unfold worker_count. split; [reflexivity|].
  assert (length assets <> 0)%nat by (now destruct assets). lia.
Qed.

End PoolFacts.

Lemma downloadWithConcurrency_spec (assets : list asset) (world : nat -> asset_world)
    (maxRetries retryDelay : Z) (skipUnchanged : bool)
    (concurrency : Z) (schedule : list nat) :
  let st := downloadWithConcurrency assets world maxRetries retryDelay skipUnchanged
              concurrency schedule in
  pool_inv assets world maxRetries retryDelay skipUnchanged st /\
  length (completed st) = length assets /\
  waiting st = [] /\
  length (workers st) = match assets with [] => 0%nat | _ => worker_count assets concurrency end.
Proof.
  cbv zeta. unfold downloadWithConcurrency.
  destruct assets as [|a rest].
  { split; [apply pool_init_inv|]. repeat split; reflexivity. }
  set (l := a :: rest). assert (Hne : l <> []) by discriminate.
  destruct (iter_spawn_inv l world maxRetries retryDelay skipUnchanged
              (worker_count l concurrency)) as (Hinv & Hw & Hc).
  destruct (worker_count_spec l concurrency Hne) as [_ Hbounds].
  destruct (run_pool_completes l world maxRetries retryDelay skipUnchanged
              (length l) schedule (pool_start l concurrency)) as (H1 & H2 & H3 & H4).
  - exact Hinv.
  - unfold pool_start. intros E. rewrite E in Hw. cbn in Hw. lia.
  - lia.
  - split; [assumption|]. split; [assumption|]. split; [assumption|].
    rewrite H4. exact Hw.
Qed.

(** every download that was started has been completed *)
Lemma pool_done (assets : list asset) (world : nat -> asset_world)
    (maxRetries retryDelay : Z) (skipUnchanged : bool) (st : pool_state) :
  pool_inv assets world maxRetries retryDelay skipUnchanged st ->
  length (completed st) = length assets ->
  map fst (completed st) ≡ₚ seq 0 (length assets).
Proof.
  intros Hinv Hlen.
  pose proof (completed_bound _ _ _ _ _ st Hinv) as Hb.
  pose proof (inv_index st Hinv) as Hi.
  pose proof (inv_claimed st Hinv) as Hc.
  assert (Hnone : awaited (workers st) = [])
    by (destruct (awaited (workers st)); [reflexivity|cbn in Hb; lia]).
  rewrite Hnone in Hb, Hc. rewrite app_nil_r in Hc. cbn in Hb.
  assert (Hidx : index st = length assets) by lia.
  now rewrite Hc, Hidx.
Qed.

(** C10 - The pool for any concurrency: for every integer
    [concurrency], zero and negative ones included, every schedule and
    every non-empty list of [n] assets, the pool creates
    [min (max 1 concurrency) n] workers, which is at least one; it runs
    until no worker waits; every asset is downloaded exactly once; and
    the three counters add up to [n]. *)
Theorem scheduler_total (assets : list asset) (world : nat -> asset_world)
    (maxRetries retryDelay : Z) (skipUnchanged : bool)
    (concurrency : Z) (schedule : list nat) :
  assets <> [] ->
  let st := downloadWithConcurrency assets world maxRetries retryDelay skipUnchanged
              concurrency schedule in
  length (workers st) =
    Z.to_nat (Z.min (Z.max 1 concurrency) (Z.of_nat (length assets))) /\
  (1 <= length (workers st))%nat /\
  waiting st = [] /\
  map fst (completed st) ≡ₚ seq 0 (length assets) /\
  (success st + skipped st + failed st)%nat = length assets.
Proof.
  intros Hne st.
  destruct (downloadWithConcurrency_spec assets world maxRetries retryDelay skipUnchanged
              concurrency schedule) as (Hinv & Hlen & Hwait & Hworkers).
  fold st in Hinv, Hlen, Hwait, Hworkers.
  destruct (worker_count_spec assets concurrency Hne) as [Hcount Hbounds].
  assert (Hw : length (workers st) = worker_count assets concurrency)
    by (destruct assets; [contradiction|assumption]).
  split; [now rewrite Hw|]. split; [lia|]. split; [assumption|].
  split; [eapply pool_done; eassumption|].
  rewrite (inv_success st Hinv), (inv_skipped st Hinv),
    (inv_failed st Hinv), count_status_total. assumption.
Qed.

Lemma scheduler_total_witness :
  let st := downloadWithConcurrency [hero_fresh; hero_asset; hero_fresh]
              partly_failing 3 1000 true (-4) [2%nat; 5%nat] in
  length (workers st) = Z.to_nat (Z.min (Z.max 1 (-4)) (Z.of_nat 3)) /\
  (1 <= length (workers st))%nat /\
  waiting st = [] /\
  map fst (completed st) ≡ₚ seq 0 3 /\
  (success st + skipped st + failed st)%nat = 3%nat.
Proof.
  apply (scheduler_total [hero_fresh; hero_asset; hero_fresh] partly_failing 3 1000 true
           (-4) [2%nat; 5%nat]).
  discriminate.
Defined.

(** ** The manifest after the downloads *)

Lemma upsert_fold (updates : list (string * metadata)) :
  forall (m : gmap string metadata) (changed : bool) (k : string),
  let r := fold_left upsert updates (m, changed) in
  (In k (JsMap.keys updates) -> is_Some (fst r !! k)) /\
  (~ In k (JsMap.keys updates) -> fst r !! k = m !! k) /\
  (snd r = false -> updates = []).
Proof.
  induction updates as [|[key data] updates IH]; intros m changed k; cbn zeta.
  - cbn. tauto.
  - cbn [fold_left].
    replace (upsert (m, changed) (key, data))
      with (<[key := spread (default empty_object (m !! key)) data]> m, true)
      by reflexivity.
    set (m1 := <[key := spread (default empty_object (m !! key)) data]> m).
    destruct (IH m1 true k) as (H1 & H2 & H3). cbv zeta in H1, H2, H3.
    split; [|split].
    + intros [<-|Hin]; [|now apply H1].
      destruct (in_dec String.string_dec key (JsMap.keys updates)) as [Hin|Hnin]; [now apply H1|].
      rewrite (H2 Hnin). unfold m1. rewrite lookup_insert_eq. eauto.
    + intros Hnin. cbn in Hnin. rewrite H2 by tauto.
      unfold m1. apply lookup_insert_ne. tauto.
    + intros Hf. exfalso. clear -Hf.
      assert (Htrue : forall l (m0 : gmap string metadata),
                snd (fold_left upsert l (m0, true)) = true).
      { induction l as [|u l IHl]; intros m0; [reflexivity|]. cbn. apply IHl. }
      rewrite Htrue in Hf. discriminate.
Qed.

Lemma remove_fold (removals : list string) :
  forall (m : gmap string metadata) (changed : bool) (k : string),
  let r := fold_left remove_key removals (m, changed) in
  (In k removals -> fst r !! k = None) /\
  (~ In k removals -> fst r !! k = m !! k) /\
  (snd r = false -> fst r = m /\ changed = false).
Proof.
  induction removals as [|key removals IH]; intros m changed k; cbn zeta.
  - cbn. tauto.
  - cbn [fold_left].
    replace (remove_key (m, changed) key)
      with (match m !! key with
            | Some _ => (delete key m, true)
            | None => (m, changed)
            end) by reflexivity.
    destruct (m !! key) as [v|] eqn:Hkey.
    + destruct (IH (delete key m) true k) as (H1 & H2 & H3). cbv zeta in H1, H2, H3.
      split; [|split].
      * intros [<-|Hin]; [|now apply H1].
        destruct (in_dec String.string_dec key removals) as [Hin|Hnin]; [now apply H1|].
        rewrite (H2 Hnin). apply lookup_delete_eq.
      * intros Hnin. cbn in Hnin. rewrite H2 by tauto. apply lookup_delete_ne. tauto.
      * intros Hf. apply H3 in Hf as [_ [=]].
    + destruct (IH m changed k) as (H1 & H2 & H3). cbv zeta in H1, H2, H3.
      split; [|split]; [|intros Hnin; cbn in Hnin; apply H2; tauto|assumption].
      intros [<-|Hin]; [|now apply H1].
      destruct (in_dec String.string_dec key removals) as [Hin|Hnin]; [now apply H1|].
      now rewrite (H2 Hnin).
Qed.

(** the manifest after upserts and removals, key by key *)
Lemma merge_manifest_lookup (manifest : gmap string metadata) (result : pool_state)
    (k : string) :
  let merged := merge_manifest manifest result in
  (In k (manifestRemovals result) -> fst merged !! k = None) /\
  (~ In k (manifestRemovals result) ->
   In k (JsMap.keys (manifestUpdates result)) -> is_Some (fst merged !! k)) /\
  (~ In k (manifestRemovals result) ->
   ~ In k (JsMap.keys (manifestUpdates result)) -> fst merged !! k = manifest !! k) /\
  (snd merged = false -> fst merged = manifest).
Proof.
  cbv zeta. unfold merge_manifest.
  destruct (fold_left upsert (manifestUpdates result) (manifest, false))
    as [m1 c1] eqn:Hup.
  destruct (upsert_fold (manifestUpdates result) manifest false k) as (U1 & U2 & U3).
  cbv zeta in U1, U2, U3. rewrite Hup in U1, U2, U3. cbn [fst snd] in U1, U2, U3.
  destruct (remove_fold (manifestRemovals result) m1 c1 k) as (R1 & R2 & R3).
  cbv zeta in R1, R2, R3.
  split; [assumption|]. split; [|split].
  - intros Hr Hu. rewrite (R2 Hr). now apply U1.
  - intros Hr Hu. rewrite (R2 Hr). now apply U2.
  - intros Hf. destruct (R3 Hf) as [-> ->].
    specialize (U3 eq_refl). rewrite U3 in Hup. cbn in Hup. congruence.
Qed.

(** ** Builds *)

Lemma setup_downloads (options : Options.t) (env : build_env) :
  let r := netlifyHybridImagesSetup options env in
  downloads r =
    downloadWithConcurrency (work_list r) (network env)
      (or_default (Options.maxRetries options) 3)
      (or_default (Options.retryDelay options) 1000)
      (Options.skipUnchanged options &&
       match manifest_path r with Some _ => true | None => false end)
      (Options.concurrency options) (schedule env).
Proof.
  cbv zeta.
  destruct (work_list (netlifyHybridImagesSetup options env)) as [|a l] eqn:Hwork.
  - now destruct (setup_idle options env Hwork) as (-> & _).
  - destruct (setup_download_phase options env) as (url & _ & H).
    + rewrite Hwork. discriminate.
    + cbv zeta in H. destruct H as (_ & _ & _ & H & _). now rewrite <- Hwork.
Qed.

Lemma setup_pool_inv (options : Options.t) (env : build_env) :
  let r := netlifyHybridImagesSetup options env in
  pool_inv (work_list r) (network env)
    (or_default (Options.maxRetries options) 3)
    (or_default (Options.retryDelay options) 1000)
    (Options.skipUnchanged options &&
     match manifest_path r with Some _ => true | None => false end)
    (downloads r) /\
  length (completed (downloads r)) = length (work_list r).
Proof.
  cbv zeta.
  pose proof (downloadWithConcurrency_spec
                (work_list (netlifyHybridImagesSetup options env)) (network env)
                (or_default (Options.maxRetries options) 3)
                (or_default (Options.retryDelay options) 1000)
                (Options.skipUnchanged options &&
                 match manifest_path (netlifyHybridImagesSetup options env) with
                 | Some _ => true | None => false end)
                (Options.concurrency options) (schedule env)) as H.
  cbv zeta in H. rewrite <- (setup_downloads options env) in H.
  destruct H as (H1 & H2 & _). now split.
Qed.

Lemma setup_entries (options : Options.t) (env : build_env) :
  let r := netlifyHybridImagesSetup options env in
  work_list r <> [] ->
  Forall (fun entry => In (fst entry, Some (snd entry)) (json_files env)) (fileEntries r).
Proof.
  cbv zeta. intros Hwork.
  destruct (setup_download_phase options env Hwork) as (url & _ & H).
  cbv zeta in H. destruct H as (_ & _ & -> & _).
  eapply Forall_impl; [apply scan_spec|]. now intros entry [Hin _].
Qed.

(** C1 - Partial-failure atomicity: the failure counter of the pool is
    positive exactly when the download of some asset ended as [Failed];
    and in every build in which it is positive the hook ends with
    rewriting skipped, writes no document, and every document it holds
    is a file of the content directory exactly as it was parsed. *)
Theorem partial_failure_leaves_content_untouched (options : Options.t) (env : build_env) :
  let r := netlifyHybridImagesSetup options env in
  ((exists i, In (i, Failed) (completed (downloads r))) <->
   (0 < failed (downloads r))%nat) /\
  ((0 < failed (downloads r))%nat ->
   outcome r = RewritingSkipped (failed (downloads r)) /\
   document_writes r = [] /\
   Forall (fun entry => In (fst entry, Some (snd entry)) (json_files env))
          (fileEntries r)).
Proof.
  intros r. split.
  - destruct (setup_pool_inv options env) as [Hinv _]. fold r in Hinv.
    rewrite (inv_failed _ Hinv). symmetry. apply count_status_failed.
  - intros Hfailed.
    assert (Hwork : work_list r <> []).
    { intros Hwork. destruct (setup_idle options env Hwork) as (Hd & _).
      fold r in Hd. rewrite Hd in Hfailed. cbn in Hfailed. lia. }
    destruct (setup_download_phase options env Hwork) as (url & _ & H).
    cbv zeta in H. fold r in H. destruct H as (_ & _ & _ & _ & _ & _ & Hskip & _).
    destruct (Hskip Hfailed) as [Ho Hw].
    split; [assumption|]. split; [assumption|].
    now apply setup_entries.
Qed.

Lemma partial_failure_witness :
  let r := netlifyHybridImagesSetup defaultOptions (example_env partly_failing) in
  outcome r = RewritingSkipped (failed (downloads r)) /\
  document_writes r = [] /\
  Forall (fun entry => In (fst entry, Some (snd entry))
                          (json_files (example_env partly_failing)))
         (fileEntries r).
Proof.
  apply (proj2 (partial_failure_leaves_content_untouched
                  defaultOptions (example_env partly_failing))).
  vm_compute. lia.
Defined.

(** the work list of a build holds no cache key twice *)
Lemma work_list_keys (options : Options.t) (env : build_env) :
  NoDup (map (fun a => cacheKey (asset_match a))
             (work_list (netlifyHybridImagesSetup options env))).
Proof.
  destruct (work_list (netlifyHybridImagesSetup options env)) as [|a l] eqn:Hwork;
    [constructor|].
  destruct (setup_download_phase options env) as (url & _ & H);
    [rewrite Hwork; discriminate|].
  cbv zeta in H. destruct H as (_ & Hw & _). rewrite <- Hwork, Hw.
  apply scan_work_list_keys.
Qed.

Lemma NoDup_fst_unique {A B} (l : list (A * B)) (x : A) (y1 y2 : B) :
  NoDup (map fst l) -> In (x, y1) l -> In (x, y2) l -> y1 = y2.
Proof.
  induction l as [|[a b] l IH]; [intros _ []|].
  cbn [map fst]. intros Hnd. apply NoDup_cons in Hnd as [Hx Hnd].
  intros [[= -> ->]|H1] [[= ->]|H2]; try reflexivity.
  - exfalso. apply Hx, list_elem_of_In, in_map_iff. now exists (x, y2).
  - exfalso. subst. apply Hx, list_elem_of_In, in_map_iff. now exists (x, y1).
  - now apply IH.
Qed.

Lemma NoDup_key_index (assets : list asset) (i j : nat) (a b : asset) :
  NoDup (map (fun a => cacheKey (asset_match a)) assets) ->
  assets !! i = Some a -> assets !! j = Some b ->
  cacheKey (asset_match a) = cacheKey (asset_match b) -> i = j.
Proof.
  intros Hnd Hi Hj Hk.
  eapply NoDup_lookup; [exact Hnd| |].
  - rewrite list_lookup_fmap, Hi. reflexivity.
  - rewrite list_lookup_fmap, Hj. cbn. now rewrite Hk.
Qed.

Lemma record_outcomes_lookup (assets : list asset) (outcomes : list (nat * download_status)) :
  forall (h : gmap string download_status) (k : string),
  let h' := record_outcomes assets outcomes h in
  ((forall i s a, In (i, s) outcomes -> assets !! i = Some a ->
      cacheKey (asset_match a) <> k) /\ h' !! k = h !! k) \/
  (exists i s a, In (i, s) outcomes /\ assets !! i = Some a /\
      cacheKey (asset_match a) = k /\ h' !! k = Some s).
Proof.
  induction outcomes as [|[i s] outcomes IH]; intros h k; cbn zeta.
  - left. split; [intros ? ? ? []|reflexivity].
  - unfold record_outcomes in *. cbn [fold_left fst snd].
    set (h1 := match assets !! i with
               | Some a => <[cacheKey (asset_match a) := s]> h
               | None => h
               end).
    destruct (IH h1 k) as [[Hnone Hsame]|(j & t & b & Hin & Hb & Hk & Hl)].
    + cbv zeta in Hsame. rewrite Hsame. unfold h1.
      destruct (assets !! i) as [a|] eqn:Ha.
      * destruct (String.string_dec (cacheKey (asset_match a)) k) as [E|E].
        -- right. exists i, s, a. rewrite E, lookup_insert_eq.
           repeat split; auto. now left.
        -- left. rewrite lookup_insert_ne by assumption. split; [|reflexivity].
           intros j t b [[= <- <-]|Hin] Hb; [congruence|eauto].
      * left. split; [|reflexivity].
        intros j t b [[= <- <-]|Hin] Hb; [congruence|eauto].
    + right. exists j, t, b. repeat split; auto. now right.
Qed.


Lemma load_manifest_configured (p : string) (file : manifest_file) :
  load_manifest (Some p) file = entries_of file.
Proof. now destruct file. Qed.

Lemma persisted_lookup (options : Options.t) (env : build_env) (k : string) :
  let r := netlifyHybridImagesSetup options env in
  manifest_path r <> None ->
  is_Some (persisted_after r env !! k) <-> is_Some (manifest_after r !! k).
Proof.
  cbv zeta. intros Hpath. unfold persisted_after.
  destruct (work_list (netlifyHybridImagesSetup options env)) as [|a l] eqn:Hwork.
  - destruct (setup_idle options env Hwork) as (_ & _ & -> & ->).
    destruct (manifest_path _); [|contradiction].
    now rewrite load_manifest_configured.
  - destruct (setup_download_phase options env) as (url & _ & H);
      [rewrite Hwork; discriminate|].
    cbv zeta in H. destruct H as (_ & _ & _ & _ & -> & -> & _).
    destruct (manifest_path _) as [p|]; [|contradiction].
    destruct (snd (merge_manifest _ _)) eqn:Hchanged.
    + rewrite lookup_fmap. apply fmap_is_Some.
    + destruct (merge_manifest_lookup
                  (load_manifest (Some p) (stored_manifest env))
                  (downloads (netlifyHybridImagesSetup options env)) k)
        as (_ & _ & _ & Hsame).
      rewrite (Hsame Hchanged). now rewrite load_manifest_configured.
Qed.

Lemma manifest_after_lookup (options : Options.t) (env : build_env) (k : string) :
  let r := netlifyHybridImagesSetup options env in
  (In k (manifestRemovals (downloads r)) -> manifest_after r !! k = None) /\
  (is_Some (manifest_after r !! k) ->
   In k (JsMap.keys (manifestUpdates (downloads r))) \/
   (~ In k (JsMap.keys (manifestUpdates (downloads r))) /\
    manifest_path r <> None /\
    is_Some (entries_of (stored_manifest env) !! k))).
Proof.
  cbv zeta.
  destruct (work_list (netlifyHybridImagesSetup options env)) as [|a l] eqn:Hwork.
  - destruct (setup_idle options env Hwork) as (-> & _ & _ & ->). cbn.
    split; [intros []|]. intros Hsome. right. split; [tauto|].
    destruct (manifest_path _);
      [|unfold load_manifest in Hsome; rewrite lookup_empty in Hsome; now destruct Hsome].
    split; [discriminate|]. now rewrite load_manifest_configured in Hsome.
  - destruct (setup_download_phase options env) as (url & _ & H);
      [rewrite Hwork; discriminate|].
    cbv zeta in H. destruct H as (_ & _ & _ & _ & -> & _).
    destruct (manifest_path _) as [p|].
    + destruct (merge_manifest_lookup
                  (load_manifest (Some p) (stored_manifest env))
                  (downloads (netlifyHybridImagesSetup options env)) k)
        as (M1 & M2 & M3 & _). cbv zeta in M1, M2, M3.
      split; [assumption|]. intros Hsome.
      destruct (in_dec String.string_dec k
                  (manifestRemovals (downloads (netlifyHybridImagesSetup options env))))
        as [Hr|Hr]; [rewrite (M1 Hr) in Hsome; now destruct Hsome|].
      destruct (in_dec String.string_dec k
                  (JsMap.keys (manifestUpdates
                                 (downloads (netlifyHybridImagesSetup options env)))))
        as [Hu|Hu]; [now left|].
      right. split; [assumption|]. split; [discriminate|].
      rewrite (M3 Hr Hu) in Hsome. now rewrite load_manifest_configured in Hsome.
    + cbn. split.
      * intros _. apply lookup_empty.
      * intros Hsome. rewrite lookup_empty in Hsome. now destruct Hsome.
Qed.



Lemma scanner_deduplicates_witness :
  let files := json_files (example_env partly_failing) in
  let assetMap := fst (scan example_ctx None ∅ files) in
  length (List.filter
            (fun a => String.eqb (cacheKey (asset_match a)) (cacheKey hero_match))
            (JsMap.values assetMap)) = 1%nat /\
  exists first,
    first_match example_ctx (scanned_strings example_ctx files) (cacheKey hero_match)
      = Some first /\
    JsMap.get assetMap (cacheKey hero_match) =
      Some (Asset first (cached None ∅ (cacheKey hero_match))).
Proof.
  apply (proj2 (proj2 (proj2
           (scanner_deduplicates example_ctx None ∅
              (json_files (example_env partly_failing)))))
           "https://cms.example/media/pages/home/hero.jpg?w=800" 
           {| cacheKey := "media/pages/home/hero.jpg";
              remoteUrl := "https://cms.example/media/pages/home/hero.jpg?w=800";
              downloadUrl := "https://cms.example/media/pages/home/hero.jpg";
              filePath := "/site/public/media/pages/home/hero.jpg";
              localPath := "/media/pages/home/hero.jpg";
              localPathWithQuery := "/media/pages/home/hero.jpg?w=800" |}).
  - vm_compute. auto 10.
  - reflexivity.
Defined.

(** ** The file collector *)

Lemma dirent_induction (P : dirent -> Prop) :
  P RegularFile -> P OtherEntry ->
  (forall entries, Forall (fun item => P (snd item)) entries -> P (Directory entries)) ->
  forall node, P node.
Proof.
  intros Hfile Hother Hdir. fix IH 1. intros [| entries |].
  - exact Hfile.
  - apply Hdir. induction entries as [|[name entry] l IHl]; constructor; [apply IH|exact IHl].
  - exact Hother.
Qed.

(** below a normalised absolute directory the collector lists the
    JSON files of the tree, each by its absolute path *)
Lemma collect_directory_paths (node : dirent) : forall root,
  root <> [] -> Forall (fun seg => plain seg = true) root -> well_named node = true ->
  collect_directory (absolute_path root) node =
    map (fun p => absolute_path (root ++ p)) (json_paths node).
Proof.
  induction node as [| | entries IH] using dirent_induction;
    intros root Hne Hroot Hnamed; try reflexivity.
  cbn [collect_directory json_paths well_named] in *.
  induction IH as [|[name entry] entries Hentry _ IHentries]; [reflexivity|].
  cbn [forallb fst snd] in Hnamed.
  apply andb_true_iff in Hnamed as [Hn Hrest].
  apply andb_true_iff in Hn as [Hname Hsub].
  cbn [collect_entries flat_map fst snd]. fold (collect_entries collect_directory).
  rewrite (join_below_root root [name]) by (assumption || discriminate || now constructor).
  specialize (IHentries Hrest). cbn [snd] in Hentry.
  destruct entry as [| sub |].
  - destruct (endsWith name ".json"); cbn [map app]; now rewrite IHentries.
  - rewrite map_app, map_map, IHentries. f_equal.
    rewrite Hentry; [|now destruct root|apply Forall_app; split; [assumption|now constructor]
                     |assumption].
    apply map_ext. intros p. now rewrite <- app_assoc.
  - cbn [app map]. exact IHentries.
Qed.

Lemma length_append (a b : string) :
  String.length (a +:+ b) = (String.length a + String.length b)%nat.
Proof. induction a as [|c a IH]; string_app; cbn; [reflexivity|now rewrite IH]. Qed.

Lemma slice_past (a b : string) (k : nat) :
  Js.slice (a +:+ b) (String.length a + k) = Js.slice b k.
Proof. induction a as [|c a IH]; string_app; cbn; [reflexivity|assumption]. Qed.

Lemma endsWith_append (a b suffix : string) :
  endsWith b suffix = true -> endsWith (a +:+ b) suffix = true.
Proof.
  unfold endsWith. intros H. apply andb_true_iff in H as [Hlen Heq].
  apply Nat.leb_le in Hlen. rewrite length_append.
  apply andb_true_iff. split; [apply Nat.leb_le; lia|].
  replace (String.length a + String.length b - String.length suffix)%nat
    with (String.length a + (String.length b - String.length suffix))%nat by lia.
  now rewrite slice_past.
Qed.

Lemma path_segments_absolute (segs : list string) :
  Forall (fun seg => plain seg = true) segs -> path_segments (absolute_path segs) = segs.
Proof.
  intros Hplain. unfold path_segments, absolute_path.
  change ("/" +:+ Js.join segs "/") with (String "/" (Js.join segs "/")).
  cbn [Js.split]. rewrite Ascii.eqb_refl.
  destruct segs as [|x l]; [reflexivity|].
  rewrite (split_join (x :: l) "/") by (discriminate || now apply plain_without_slash).
  change (Js.filter_Boolean ("" :: x :: l)) with (Js.filter_Boolean (x :: l)).
  now apply filter_Boolean_all, plain_truthy.
Qed.

(** the names that lead to a collected file are names of directory
    entries, and the last of them ends in [.json] *)
Lemma json_paths_names (node : dirent) :
  well_named node = true ->
  Forall (fun p => Forall (fun seg => plain seg = true) p /\
                   exists dirs name, p = dirs ++ [name] /\ endsWith name ".json" = true)
         (json_paths node).
Proof.
  induction node as [| | entries IH] using dirent_induction; try constructor.
  cbn [json_paths well_named]. intros Hnamed.
  induction IH as [|[name entry] entries Hentry _ IHentries]; [constructor|].
  cbn [forallb fst snd] in Hnamed.
  apply andb_true_iff in Hnamed as [Hn Hrest].
  apply andb_true_iff in Hn as [Hname Hsub].
  cbn [flat_map fst snd]. apply Forall_app. split; [|now apply IHentries].
  cbn [snd] in Hentry. destruct entry as [| sub |]; [|clear IHentries|constructor].
  - destruct (endsWith name ".json") eqn:E; constructor; [|constructor].
    split; [now repeat constructor|]. now exists [], name.
  - apply List.Forall_map. eapply Forall_impl; [exact (Hentry Hsub)|].
    intros p (Hp & dirs & last & -> & Hlast). cbn beta. split; [now constructor|].
    now exists (name :: dirs), last.
Qed.

(** X1 - The collector, for a directory that is a normalised absolute path
    over a tree of properly named entries: the files it returns are the
    regular files whose name ends in [.json], at any depth of the tree,
    each by the absolute path made of the directory and the names that lead
    to the file, in the order of the directory listings.  Directories are
    searched whatever their name; entries that are neither a file nor a
    directory are passed over. *)
Theorem collectJsonFiles_lists_json_files (root : list string)
    (entries : list (string * dirent)) :
  root <> [] -> Forall (fun seg => plain seg = true) root ->
  well_named (Directory entries) = true ->
  collectJsonFiles (absolute_path root) (Some (Directory entries)) =
    Normal (map (fun p => absolute_path (root ++ p)) (json_paths (Directory entries))).
Proof.
  intros Hne Hroot Hnamed. unfold collectJsonFiles. f_equal.
  now apply collect_directory_paths.
Qed.

Lemma collectJsonFiles_lists_json_files_witness :
  collectJsonFiles (absolute_path ["site"; "public"; "content"]) (Some example_tree) =
    Normal (map (fun p => absolute_path (["site"; "public"; "content"] ++ p))
              (json_paths example_tree)).
Proof.
  apply (collectJsonFiles_lists_json_files ["site"; "public"; "content"]).
  - discriminate.
  - repeat constructor.
  - reflexivity.
Defined.

(** X2 - What the collector returns: under the same conditions, every path
    ends in [.json] and lies under the directory that was searched; a
    directory that does not exist gives no file and no exception. *)
Theorem collected_files_are_json_below_directory (root : list string)
    (entries : list (string * dirent)) (files : list string) :
  root <> [] -> Forall (fun seg => plain seg = true) root ->
  well_named (Directory entries) = true ->
  collectJsonFiles (absolute_path root) (Some (Directory entries)) = Normal files ->
  Forall (fun file => endsWith file ".json" = true /\
                      lies_under (absolute_path root) file) files /\
  collectJsonFiles (absolute_path root) None = Normal [].
Proof.
  intros Hne Hroot Hnamed. unfold collectJsonFiles at 1.
  rewrite collect_directory_paths by assumption. intros [= <-].
  split; [|reflexivity].
  apply List.Forall_map. eapply Forall_impl; [exact (json_paths_names _ Hnamed)|].
  intros p (Hp & dirs & name & -> & Hname). cbn beta. split.
  - unfold absolute_path. rewrite app_assoc, join_app by (discriminate || now destruct root).
    rewrite <- !append_assoc. now apply endsWith_append.
  - split; [apply (startsWith_append "/")|]. exists (dirs ++ [name]). split; [|assumption].
    rewrite !path_segments_absolute; [reflexivity|assumption|].
    apply Forall_app. now split.
Qed.

Lemma collected_files_are_json_below_directory_witness :
  Forall (fun file => endsWith file ".json" = true /\
                      lies_under (absolute_path ["site"; "public"; "content"]) file)
         ["/site/public/content/home.json"; "/site/public/content/pages.json/about.json"] /\
  collectJsonFiles (absolute_path ["site"; "public"; "content"]) None = Normal [].
Proof.
  apply (collected_files_are_json_below_directory ["site"; "public"; "content"]
           [("home.json", RegularFile);
            ("latest.json", OtherEntry);
            ("notes.txt", RegularFile);
            ("pages.json", Directory [("about.json", RegularFile); ("drafts", Directory [])])]).
  - discriminate.
  - repeat constructor.
  - reflexivity.
  - vm_compute. reflexivity.
Defined.

(** ** The resolver's match *)

(** X3 - In a build whose project root is a normalised absolute path and
    whose [publicDir] and [mediaDir] are plain directory names, an asset is
    stored where it is served: the file path of a match is the public
    directory followed by the public path.  The one exception is the media
    URL whose path is a single dot, which resolves to the media directory
    itself. *)
Theorem file_stored_where_served (options : Options.t) (env : build_env)
    (url s : string) (m : media_match) (root : list string) :
  root <> [] -> Forall (fun seg => plain seg = true) root ->
  projectRoot env = absolute_path root ->
  plain (Options.publicDir options) = true ->
  plain (Options.mediaDir options) = true ->
  resolveMediaPath s (build_context options env url) = Normal (Some m) ->
  filePath m =
    path_resolve (projectRoot env) (Options.publicDir options) +:+ localPath m \/
  (localPath m = "/" +:+ Options.mediaDir options +:+ "/." /\
   filePath m = mediaOutputDir (build_context options env url)).
Proof.
  intros Hne Hroot Hproject Hpub Hmedia Hres.
  apply resolve_match in Hres
    as (decoded & segments & _ & _ & Hg & Hseg & Hsne & _ & Hfile & Hlocal & _).
  cbn [build_context mediaDir mediaOutputDir] in *.
  rewrite Hproject, path_resolve_relative in * by assumption.
  set (pub := root ++ [Options.publicDir options]) in *.
  assert (Hpne : pub <> []) by (subst pub; now destruct root).
  assert (Hpplain : Forall (fun seg => plain seg = true) pub)
    by (apply Forall_app; split; [assumption|now constructor]).
  rewrite (join_below_root pub [Options.mediaDir options]) in *
    by (assumption || discriminate || now constructor).
  assert (Hdne : pub ++ [Options.mediaDir options] <> []) by (now destruct pub).
  assert (Hdplain : Forall (fun seg => plain seg = true) (pub ++ [Options.mediaDir options]))
    by (apply Forall_app; split; [assumption|now constructor]).
  destruct (segments_after_guard decoded Hg) as [E | [E | [_ Hp]]];
    rewrite <- Hseg in *; [contradiction| |].
  - right. rewrite Hfile, Hlocal, E. split; [reflexivity|].
    now apply join_dot_root.
  - left. rewrite Hfile, Hlocal, join_below_root by assumption.
    unfold absolute_path. rewrite <- app_assoc. cbn [app].
    rewrite join_app by (assumption || discriminate).
    now rewrite !append_assoc.
Qed.

Lemma file_stored_where_served_witness :
  filePath hero_match = "/site/public" +:+ localPath hero_match \/
  (localPath hero_match = "/" +:+ "media" +:+ "/." /\
   filePath hero_match = "/site/public/media").
Proof.
  apply (file_stored_where_served defaultOptions (example_env partly_failing)
           "https://cms.example" "https://cms.example/media/pages/home/hero.jpg?w=400"
           hero_match ["site"]); try reflexivity.
  - discriminate.
  - repeat constructor.
Defined.

Lemma strings_of_replaced (f : string -> string) (node : json) :
  strings_of (spec_replace_strings f node) = map f (strings_of node).
Proof.
  induction node as [| b | n | s | items IH | entries IH] using json_induction;
    try reflexivity.
  - cbn [spec_replace_strings strings_of].
    induction IH as [|item items Hitem _ IHitems]; [reflexivity|].
    cbn [map flat_map]. now rewrite map_app, Hitem, IHitems.
  - cbn [spec_replace_strings strings_of].
    induction IH as [|[key v] entries Hv _ IHentries]; [reflexivity|].
    cbn [map flat_map fst snd] in *. now rewrite map_app, Hv, IHentries.
Qed.

(** a public path is no media URL *)
Lemma resolve_rooted (ctx : media_context) (s : string) :
  mediaPrefix ctx <> "" -> Js.startsWith (mediaPrefix ctx) "/" = false ->
  resolveMediaPath ("/" +:+ s) ctx = Normal None.
Proof.
  intros Hne Hrel. unfold resolveMediaPath.
  replace (Js.startsWith ("/" +:+ s) (mediaPrefix ctx)) with false; [reflexivity|].
  destruct (mediaPrefix ctx) as [|c p]; [contradiction|]. string_app.
  unfold Js.startsWith in *. cbn [String.prefix] in *.
  destruct (ascii_dec c "/") as [->|Hc]; [|reflexivity].
  destruct (ascii_dec "/" "/"); [destruct p; discriminate Hrel|contradiction].
Qed.

Lemma rewritten_twice (ctx : media_context) (s : string) :
  mediaPrefix ctx <> "" -> Js.startsWith (mediaPrefix ctx) "/" = false ->
  resolveMediaPath (rewritten ctx s) ctx = Normal None \/ rewritten ctx s = s.
Proof.
  intros Hne Hrel. unfold rewritten.
  destruct (resolveMediaPath s ctx) as [[m|]|e] eqn:E; [|now right..].
  left. apply resolve_match in E
    as (decoded & segments & _ & _ & _ & _ & _ & _ & _ & Hl & Hq).
  rewrite Hq, Hl. cbv zeta. destruct (Js.truthy _).
  - rewrite !append_assoc. now apply resolve_rooted.
  - now apply resolve_rooted.
Qed.

(** X4 - Rewriting twice is rewriting once.  When the origin prefix does not
    begin with a slash (it begins with the scheme of the CMS), the
    rewritten form of a document that is an array or an object, none of
    whose strings throws, is left as it is by a second rewriting pass,
    which reports it as not modified. *)
Theorem rewriting_is_idempotent (ctx : media_context) (data : json) :
  mediaPrefix ctx <> "" -> Js.startsWith (mediaPrefix ctx) "/" = false ->
  is_container data = true ->
  Forall (resolves_quietly ctx) (strings_of data) ->
  exists data' modified,
    transformContent (rewrite_transformer ctx) data tt = (Normal (data', modified), tt) /\
    transformContent (rewrite_transformer ctx) data' tt = (Normal (data', false), tt).
Proof.
  intros Hne Hrel Hcont Hquiet.
  rewrite (transformContent_replacing _ (rewritten ctx))
    by now apply rewrite_transformer_computes.
  rewrite Hcont. eexists _, _. split; [reflexivity|].
  assert (Hfix : Forall (fun s => rewritten ctx s = s /\ resolves_quietly ctx s)
                   (map (rewritten ctx) (strings_of data))).
  { apply List.Forall_map. eapply Forall_impl; [exact Hquiet|]. intros s Hs. cbn beta.
    destruct (rewritten_twice ctx s Hne Hrel) as [H|H].
    - split; [unfold rewritten at 1; now rewrite H|]. intros e. now rewrite H.
    - rewrite H. now split. }
  rewrite (transformContent_replacing _ (rewritten ctx)).
  - assert (Hcont' : is_container (spec_replace_strings (rewritten ctx) data) = true)
      by (destruct data; try discriminate; reflexivity).
    rewrite Hcont'.
    assert (Hsame : changes (rewritten ctx)
                      (strings_of (spec_replace_strings (rewritten ctx) data)) = false).
    { rewrite strings_of_replaced. unfold changes.
      apply not_true_iff_false. intros H. apply existsb_exists in H as (s & Hin & Hs).
      rewrite List.Forall_forall in Hfix. destruct (Hfix s Hin) as [E _].
      rewrite E, String.eqb_refl in Hs. discriminate. }
    rewrite Hsame. f_equal. f_equal. f_equal. now apply unchanged_document.
  - apply rewrite_transformer_computes. rewrite strings_of_replaced.
    eapply Forall_impl; [exact Hfix|]. now intros s [_ H].
Qed.

Lemma rewriting_is_idempotent_witness :
  exists data' modified,
    transformContent (rewrite_transformer example_ctx) home_document tt
      = (Normal (data', modified), tt) /\
    transformContent (rewrite_transformer example_ctx) data' tt = (Normal (data', false), tt).
Proof.
  apply (rewriting_is_idempotent example_ctx home_document).
  - discriminate.
  - reflexivity.
  - reflexivity.
  - repeat constructor; intros e; vm_compute; discriminate.
Defined.

Lemma decode_plain (fuel : nat) : forall s,
  (String.length s <= fuel)%nat -> occurs "%" s = false -> Uri.decode fuel s = Some s.
Proof.
  induction fuel as [|fuel IH]; intros [|c s] Hlen Hp; cbn [Uri.decode]; try reflexivity.
  - cbn in Hlen. lia.
  - cbn [occurs] in Hp. apply orb_false_iff in Hp as [Hc Hp]. rewrite Hc.
    rewrite IH; [reflexivity|cbn in Hlen; lia|assumption].
Qed.

(** X5 - The only exception of the resolver is the [URIError] of
    [decodeURIComponent], and it is raised only for a string under the
    origin prefix whose path, before the first question mark, holds a
    percent sign.  No other string of a document can make the resolver
    throw. *)
Theorem resolver_throws_only_on_escapes (url : string) (ctx : media_context)
    (e : js_error) :
  resolveMediaPath url ctx = Throw e ->
  e = Uri.URIError /\
  Js.startsWith url (mediaPrefix ctx) = true /\
  occurs "%" (rawPath_of (Js.slice url (String.length (mediaPrefix ctx)))) = true.
Proof.
  unfold resolveMediaPath.
  destruct (Js.startsWith url (mediaPrefix ctx)); [|discriminate]. cbn [negb].
  set (rawPath := rawPath_of _).
  destruct (Js.truthy rawPath); [|discriminate]. cbn [negb].
  destruct (Uri.decodeURIComponent rawPath) as [decoded|] eqn:Hd.
  - destruct (escapes_root _); [discriminate|].
    destruct (Js.filter_Boolean _); discriminate.
  - intros [= <-]. split; [reflexivity|]. split; [reflexivity|].
    destruct (occurs "%" rawPath) eqn:Hp; [reflexivity|].
    unfold Uri.decodeURIComponent in Hd. rewrite decode_plain in Hd by (lia || assumption).
    discriminate.
Qed.

Lemma resolver_throws_only_on_escapes_witness :
  Uri.URIError = Uri.URIError /\
  Js.startsWith "https://cms.example/media/sale-100%.jpg" (mediaPrefix example_ctx) = true /\
  occurs "%" (rawPath_of (Js.slice "https://cms.example/media/sale-100%.jpg"
                            (String.length (mediaPrefix example_ctx)))) = true.
Proof.
  apply (resolver_throws_only_on_escapes "https://cms.example/media/sale-100%.jpg"
           example_ctx Uri.URIError).
  vm_compute. reflexivity.
Defined.

Lemma rawPath_of_cons (c : ascii) (s : string) :
  rawPath_of (String c s) = if Ascii.eqb c "?" then "" else String c (rawPath_of s).
Proof.
  unfold rawPath_of. cbn [Js.split].
  destruct (Ascii.eqb c "?"); [reflexivity|].
  destruct (Js.split s "?") as [|h t] eqn:E; [now apply split_not_nil in E|reflexivity].
Qed.

(** a string is its part before the first question mark, followed by
    nothing or by a question mark and more *)
Lemma rawPath_of_spec (s : string) :
  occurs "?" (rawPath_of s) = false /\
  exists rest, s = rawPath_of s +:+ rest /\ (rest = "" \/ exists q, rest = "?" +:+ q).
Proof.
  induction s as [|c s (IH1 & rest & IH2 & IH3)].
  - split; [reflexivity|]. exists "". split; [reflexivity|now left].
  - rewrite rawPath_of_cons. destruct (Ascii.eqb_spec c "?") as [->|Hc].
    + split; [reflexivity|]. exists (String "?" s). split; [reflexivity|].
      right. now exists s.
    + split.
      * cbn [occurs]. apply Ascii.eqb_neq in Hc. now rewrite Hc.
      * exists rest. string_app. split; [now f_equal|assumption].
Qed.

(** X6 - The query is not part of the download: the download URL of a match
    is the string that resolved, cut before its first question mark; the
    remote URL is the whole string. *)
Theorem download_url_drops_query (url : string) (ctx : media_context) (m : media_match) :
  resolveMediaPath url ctx = Normal (Some m) ->
  remoteUrl m = url /\
  exists path rest,
    downloadUrl m = mediaPrefix ctx +:+ path /\ occurs "?" path = false /\
    url = downloadUrl m +:+ rest /\ (rest = "" \/ exists q, rest = "?" +:+ q).
Proof.
  unfold resolveMediaPath.
  destruct (Js.startsWith url (mediaPrefix ctx)) eqn:Hp; [|discriminate]. cbn [negb].
  apply startsWith_spec in Hp as [remainder ->]. rewrite slice_append.
  destruct (Js.truthy (rawPath_of remainder)); [|discriminate]. cbn [negb].
  destruct (Uri.decodeURIComponent _); [|discriminate].
  destruct (escapes_root _); [discriminate|].
  destruct (Js.filter_Boolean _); [discriminate|].
  intros [= <-]. cbn [remoteUrl downloadUrl]. split; [reflexivity|].
  destruct (rawPath_of_spec remainder) as (Hq & rest & Hrest & Hcases).
  exists (rawPath_of remainder), rest. split; [reflexivity|]. split; [assumption|].
  split; [|assumption]. rewrite append_assoc. now f_equal.
Qed.

Lemma download_url_drops_query_witness :
  remoteUrl hero_match = "https://cms.example/media/pages/home/hero.jpg?w=400" /\
  exists path rest,
    downloadUrl hero_match = mediaPrefix example_ctx +:+ path /\ occurs "?" path = false /\
    "https://cms.example/media/pages/home/hero.jpg?w=400" = downloadUrl hero_match +:+ rest /\
    (rest = "" \/ exists q, rest = "?" +:+ q).
Proof.
  apply (download_url_drops_query "https://cms.example/media/pages/home/hero.jpg?w=400"
           example_ctx hero_match).
  reflexivity.
Defined.

Lemma append_cancel_l (a x y : string) : a +:+ x = a +:+ y -> x = y.
Proof. induction a as [|c a IH]; string_app; [trivial|]. intros [= H]. now apply IH. Qed.

Lemma segments_without_slash (path : string) :
  Forall (fun s => occurs "/" s = false) (Js.filter_Boolean (Js.split path "/")).
Proof.
  unfold Js.filter_Boolean. pose proof (split_parts_without path "/") as H.
  induction H as [|x l Hx _ IH]; cbn; [constructor|].
  destruct (Js.truthy x); [constructor|]; assumption.
Qed.

(** X7 - One cache key, one file: two strings that resolve to the same cache
    key resolve to the same file path and to the same public path, so
    keeping the first match of a key loses no file. *)
Theorem same_key_same_file (ctx : media_context) (s1 s2 : string) (m1 m2 : media_match) :
  resolveMediaPath s1 ctx = Normal (Some m1) ->
  resolveMediaPath s2 ctx = Normal (Some m2) ->
  cacheKey m1 = cacheKey m2 ->
  filePath m1 = filePath m2 /\ localPath m1 = localPath m2.
Proof.
  intros H1 H2 Hk.
  apply resolve_match in H1 as (d1 & l1 & _ & _ & _ & Hs1 & Hn1 & Hk1 & Hf1 & Hl1 & _).
  apply resolve_match in H2 as (d2 & l2 & _ & _ & _ & Hs2 & Hn2 & Hk2 & Hf2 & Hl2 & _).
  rewrite Hk1, Hk2 in Hk. apply append_cancel_l in Hk.
  change ("/" +:+ Js.join l1 "/") with (String "/" (Js.join l1 "/")) in Hk.
  change ("/" +:+ Js.join l2 "/") with (String "/" (Js.join l2 "/")) in Hk.
  injection Hk as Hj.
  assert (E : l1 = l2).
  { transitivity (Js.split (Js.join l1 "/") "/").
    - symmetry. apply (split_join l1 "/"); [assumption|].
      rewrite Hs1. apply segments_without_slash.
    - rewrite Hj. apply (split_join l2 "/"); [assumption|].
      rewrite Hs2. apply segments_without_slash. }
  rewrite Hf1, Hf2, Hl1, Hl2, E. now split.
Qed.

Lemma same_key_same_file_witness :
  filePath hero_match =
    filePath {| cacheKey := "media/pages/home/hero.jpg";
                remoteUrl := "https://cms.example/media/pages/./home/hero%2Ejpg";
                downloadUrl := "https://cms.example/media/pages/./home/hero%2Ejpg";
                filePath := "/site/public/media/pages/home/hero.jpg";
                localPath := "/media/pages/home/hero.jpg";
                localPathWithQuery := "/media/pages/home/hero.jpg" |} /\
  localPath hero_match = "/media/pages/home/hero.jpg".
Proof.
  apply (same_key_same_file example_ctx
           "https://cms.example/media/pages/home/hero.jpg?w=400"
           "https://cms.example/media/pages/./home/hero%2Ejpg"); reflexivity.
Defined.

(** ** The walker with any callback *)

Section AnyCallback.

Context {St : Type}.
Variable t : string -> St -> completion string * St.

Lemma visit_child_skeleton (child : json) :
  (forall st flag r st' flag',
     visit t child st flag = (Normal r, st', flag') ->
     skeleton (vr_value r) = skeleton child) ->
  forall st flag c st' flag',
    visit_child (visit t) child st flag = (Normal c, st', flag') ->
    skeleton c = skeleton child.
Proof.
  intros IH st flag c st' flag'. unfold visit_child.
  destruct (visit t child st flag) as [[[r|e] st1] flag1] eqn:E; [|discriminate].
  destruct (vr_modified r); intros [= <- _ _]; [|reflexivity]. eapply IH, E.
Qed.

Lemma visit_skeleton (node : json) : forall st flag r st' flag',
  visit t node st flag = (Normal r, st', flag') ->
  skeleton (vr_value r) = skeleton node.
Proof.
  induction node as [| b | n | s | items IH | entries IH] using json_induction;
    intros st flag r st' flag'; cbn [visit].
  1-3: now intros [= <- _ _].
  - destruct (t s st) as [[v|e] st1]; [|discriminate].
    destruct (String.eqb v s); now intros [= <- _ _].
  - destruct (visit_items (visit t) items st flag) as [[[items'|e] st1] flag1] eqn:E;
      [|discriminate].
    intros [= <- _ _]. cbn [vr_value skeleton]. f_equal.
    revert st flag items' st1 flag1 E.
    induction IH as [|item items Hitem _ IHitems]; intros st flag items' st1 flag1.
    + now intros [= <- _ _].
    + cbn [visit_items]. fold (visit_items (visit t)).
      destruct (visit_child (visit t) item st flag) as [[[c|e] st2] flag2] eqn:Ec;
        [|discriminate].
      destruct (visit_items (visit t) items st2 flag2) as [[[rest|e] st3] flag3] eqn:Er;
        [|discriminate].
      intros [= <- _ _]. cbn [map]. f_equal.
      * eapply visit_child_skeleton; eassumption.
      * eapply IHitems; eassumption.
  - destruct (visit_entries (visit t) entries st flag) as [[[entries'|e] st1] flag1] eqn:E;
      [|discriminate].
    intros [= <- _ _]. cbn [vr_value skeleton]. f_equal.
    revert st flag entries' st1 flag1 E.
    induction IH as [|[key v] entries Hv _ IHentries]; intros st flag entries' st1 flag1.
    + now intros [= <- _ _].
    + cbn [visit_entries]. fold (visit_entries (visit t)). cbn [snd] in Hv.
      destruct (visit_child (visit t) v st flag) as [[[c|e] st2] flag2] eqn:Ec;
        [|discriminate].
      destruct (visit_entries (visit t) entries st2 flag2) as [[[rest|e] st3] flag3] eqn:Er;
        [|discriminate].
      intros [= <- _ _]. cbn [map fst snd]. f_equal.
      * f_equal. eapply visit_child_skeleton; eassumption.
      * eapply IHentries; eassumption.
Qed.

End AnyCallback.

(** X8 - The walker keeps the shape of a document, whatever the callback
    does: the document it returns has the arrays, the objects with their
    keys in their order, the numbers, booleans and nulls of the document it
    was given; strings stand where strings stood. *)
Theorem transformContent_keeps_shape {St : Type}
    (t : string -> St -> completion string * St)
    (data : json) (st : St) (value : json) (modified : bool) (st' : St) :
  transformContent t data st = (Normal (value, modified), st') ->
  skeleton value = skeleton data.
Proof.
  unfold transformContent.
  destruct (visit t data st false) as [[[r|e] st1] flag] eqn:E; [|discriminate].
  intros [= <- _ _]. destruct (is_container data); [|reflexivity].
  eapply visit_skeleton, E.
Qed.

Lemma transformContent_keeps_shape_witness :
  skeleton
    (JObject [("hero", JString "https://cms.example/media/pages/home/hero.jpg?w=400!");
              ("title", JString "Home!");
              ("gallery",
               JArray [JString "https://cms.example/media/pages/home/a.jpg!";
                       JString "https://cms.example/media/pages/home/hero.jpg?w=400!";
                       JNumber "3"])])
  = skeleton home_document.
Proof.
  apply (transformContent_keeps_shape marking_callback home_document [] _ true
           (strings_of home_document)).
  vm_compute. reflexivity.
Defined.

Section CallbackOrder.

Context {St : Type}.
Variable t : string -> St -> completion string * St.

Local Abbreviation follows := (walk_follows t).

Lemma visit_child_calls (child : json) :
  (forall st flag, follows (strings_of child) st (visit t child st flag)) ->
  forall st flag, follows (strings_of child) st (visit_child (visit t) child st flag).
Proof.
  intros IH st flag. specialize (IH st flag). unfold walk_follows, visit_child in *.
  destruct (run_callback t (strings_of child) st) as [[e|] st1].
  - destruct IH as (flag' & ->). eauto.
  - destruct IH as (r & flag' & ->). eauto.
Qed.

Lemma visit_calls (node : json) : forall st flag,
  follows (strings_of node) st (visit t node st flag).
Proof.
  induction node as [| b | n | s | items IH | entries IH] using json_induction;
    intros st flag; unfold walk_follows; cbn [visit strings_of run_callback]; eauto.
  - destruct (t s st) as [[v|e] st1]; [|eauto].
    destruct (String.eqb v s); eauto.
  - enough (H : follows (flat_map strings_of items) st (visit_items (visit t) items st flag)).
    { unfold walk_follows in H.
      destruct (run_callback t (flat_map strings_of items) st) as [[e|] st1].
      - destruct H as (flag' & ->). eauto.
      - destruct H as (v & flag' & ->). eauto. }
    revert st flag. induction IH as [|item items Hitem _ IHitems]; intros st flag.
    + unfold walk_follows. cbn. eauto.
    + unfold walk_follows. cbn [visit_items flat_map]. fold (visit_items (visit t)).
      rewrite run_callback_app.
      pose proof (visit_child_calls item Hitem st flag) as Hc. unfold walk_follows in Hc.
      destruct (run_callback t (strings_of item) st) as [[e|] st1].
      * destruct Hc as (flag' & ->). eauto.
      * destruct Hc as (c & flag1 & ->). specialize (IHitems st1 flag1).
        unfold walk_follows in IHitems.
        destruct (run_callback t (flat_map strings_of items) st1) as [[e|] st2].
        -- destruct IHitems as (flag' & ->). eauto.
        -- destruct IHitems as (rest & flag' & ->). eauto.
  - enough (H : follows (flat_map (fun kv => strings_of (snd kv)) entries) st
                  (visit_entries (visit t) entries st flag)).
    { unfold walk_follows in H.
      destruct (run_callback t (flat_map _ entries) st) as [[e|] st1].
      - destruct H as (flag' & ->). eauto.
      - destruct H as (v & flag' & ->). eauto. }
    revert st flag. induction IH as [|[key v] entries Hv _ IHentries]; intros st flag.
    + unfold walk_follows. cbn. eauto.
    + unfold walk_follows. cbn [visit_entries flat_map snd] in *.
      fold (visit_entries (visit t)). rewrite run_callback_app.
      pose proof (visit_child_calls v Hv st flag) as Hc. unfold walk_follows in Hc.
      destruct (run_callback t (strings_of v) st) as [[e|] st1].
      * destruct Hc as (flag' & ->). eauto.
      * destruct Hc as (c & flag1 & ->). specialize (IHentries st1 flag1).
        unfold walk_follows in IHentries.
        destruct (run_callback t (flat_map _ entries) st1) as [[e|] st2].
        -- destruct IHentries as (flag' & ->). eauto.
        -- destruct IHentries as (rest & flag' & ->). eauto.
Qed.

End CallbackOrder.

(** X9 - The walker hands the callback every string value of the document
    once and nothing else (no key, no number), in the order of the
    document, threading the callback's store; the first exception of the
    callback ends the walk and is passed on. *)
Theorem transformContent_calls {St : Type} (t : string -> St -> completion string * St)
    (data : json) (st : St) :
  match run_callback t (strings_of data) st with
  | (None, st') => exists value modified,
      transformContent t data st = (Normal (value, modified), st')
  | (Some e, st') => transformContent t data st = (Throw e, st')
  end.
Proof.
  unfold transformContent. pose proof (visit_calls t data st false) as H.
  unfold walk_follows in H.
  destruct (run_callback t (strings_of data) st) as [[e|] st'].
  - destruct H as (flag' & ->). reflexivity.
  - destruct H as (r & flag' & ->). eauto.
Qed.

Lemma changed_document (f : string -> string) (node : json) :
  changes f (strings_of node) = true -> spec_replace_strings f node <> node.
Proof.
  induction node as [| b | n | s | items IH | entries IH] using json_induction;
    try discriminate.
  - cbn. rewrite orb_false_r, negb_true_iff. intros H [= E].
    apply String.eqb_neq in H. contradiction.
  - cbn [strings_of spec_replace_strings]. intros H [= E]. revert H E.
    induction IH as [|item items Hitem _ IHitems]; [discriminate|].
    cbn [flat_map map]. rewrite changes_app. intros H [= E1 E2].
    apply orb_true_iff in H as [H|H]; [now apply Hitem in H|now apply IHitems].
  - cbn [strings_of spec_replace_strings]. intros H [= E]. revert H E.
    induction IH as [|[key v] entries Hv _ IHentries]; [discriminate|].
    cbn [flat_map map fst snd] in *. rewrite changes_app. intros H [= E1 E2].
    apply orb_true_iff in H as [H|H]; [now apply Hv in H|now apply IHentries].
Qed.

(** X10 - The flag [modified].  Whatever the callback does, a walk that
    returns the flag low returns the document it was given.  For a callback
    that computes a function of the string, and a document that is an array
    or an object, the flag is low exactly when the document returned is
    the document given. *)
Theorem modified_flag_exact {St : Type} (t : string -> St -> completion string * St) :
  (forall data st value st',
     transformContent t data st = (Normal (value, false), st') -> value = data) /\
  (forall f data st,
     computes t f (strings_of data) -> is_container data = true ->
     exists value modified,
       transformContent t data st = (Normal (value, modified), st) /\
       (modified = false <-> value = data)).
Proof.
  split.
  - intros data st value st'. unfold transformContent.
    destruct (visit t data st false) as [[[r|e] st1] flag] eqn:E; [|discriminate].
    intros [= <- -> _]. destruct (is_container data); [|reflexivity].
    now destruct (visit_unmodified t data _ _ _ _ E).
  - intros f data st Hc Hcont.
    rewrite (transformContent_replacing t f data st Hc), Hcont.
    eexists _, _. split; [reflexivity|].
    destruct (changes f (strings_of data)) eqn:E.
    + split; [discriminate|]. intros H. now apply changed_document in E.
    + split; [intros _|reflexivity]. now apply unchanged_document.
Qed.

Lemma modified_flag_exact_witness :
  exists value modified,
    transformContent (rewrite_transformer example_ctx) home_document tt
      = (Normal (value, modified), tt) /\
    (modified = false <-> value = home_document).
Proof.
  apply (proj2 (modified_flag_exact (rewrite_transformer example_ctx))
           (rewritten example_ctx) home_document tt).
  - repeat constructor; intros []; vm_compute; reflexivity.
  - reflexivity.
Defined.

(** ** The fetcher, attempt by attempt *)

Section FetcherAttempts.

Variable a : asset.
Variable world : asset_world.
Variables maxRetries retryDelay : Z.
Variable skipUnchanged : bool.

Local Abbreviation body_of := (loop_body a world maxRetries retryDelay skipUnchanged).
Local Abbreviation loop := (attempt_loop a world maxRetries retryDelay skipUnchanged).
Local Abbreviation ensure := (EnsureDirectoryOf (filePath (asset_match a))).
Local Abbreviation request :=
  (Request (downloadUrl (asset_match a)) (request_headers a world skipUnchanged)).

Lemma loop_body_transient attempt :
  transient_failure (attempts world attempt) -> (attempt < maxRetries)%Z ->
  body_of attempt = (Continues, [ensure; request; Sleep (retryDelay * attempt)]).
Proof.
  intros (Hmk & [(resp & Hf & Hs) | (e & Hf & He)]) Hlt.
  - apply (loop_body_retriable_status _ _ _ _ _ _ (status resp)); [|assumption..].
    split; [assumption|]. now exists resp.
  - unfold loop_body, try_block, catch_block. rewrite Hmk, Hf, He.
    apply Z.ltb_lt in Hlt. now rewrite Hlt.
Qed.

Lemma loop_body_transient_last attempt :
  transient_failure (attempts world attempt) -> (maxRetries <= attempt)%Z ->
  body_of attempt = (Returns (DownloadResult Failed None), [ensure; request]).
Proof.
  intros (Hmk & [(resp & Hf & H304 & Hok & H4) | (e & Hf & He)]) Hge;
    apply Z.ltb_ge in Hge; unfold loop_body, try_block, catch_block; rewrite Hmk, Hf.
  - destruct (Z.eqb_spec (status resp) 304) as [|_]; [contradiction|].
    unfold response_ok.
    replace ((200 <=? status resp)%Z && (status resp <=? 299)%Z) with false
      by (symmetry; apply andb_false_iff;
          destruct (Z.leb_spec 200 (status resp)); [right; apply Z.leb_gt; lia|now left]).
    cbn [negb].
    replace ((400 <=? status resp)%Z && (status resp <? 500)%Z
             && negb (status resp =? 429)%Z) with false.
    + rewrite Hge, andb_false_r. reflexivity.
    + symmetry. destruct H4 as [H4|H4]; [|now rewrite H4].
      apply andb_false_iff. left. apply andb_false_iff.
      destruct (Z.leb_spec 400 (status resp)); [right; apply Z.ltb_ge; lia|now left].
  - rewrite Hge, andb_false_r. reflexivity.
Qed.

Lemma loop_body_rejects attempt e :
  rejects_with (attempts world attempt) e ->
  exists ev,
    body_of attempt =
      (let '(it, ev') := catch_block maxRetries retryDelay attempt e in (it, ev ++ ev')) /\
    sleeps ev = [] /\ attempts_made ev = 1%nat /\ (length (requests ev) <= 1)%nat.
Proof.
  unfold loop_body, try_block.
  intros [Hmk | (Hmk & [Hf | (resp & Hf & H304 & Hok & [Hb | ((bytes & Hb) & Hw)])])];
    rewrite Hmk; [| rewrite Hf | rewrite Hf | rewrite Hf ].
  - eexists. split; [reflexivity|]. cbn. repeat split; lia.
  - eexists. split; [reflexivity|]. cbn. repeat split; lia.
  - apply Z.eqb_neq in H304. rewrite H304, Hok, Hb. cbn [negb].
    eexists. split; [reflexivity|]. cbn. repeat split; lia.
  - apply Z.eqb_neq in H304. rewrite H304, Hok, Hb, Hw. cbn [negb].
    eexists. split; [reflexivity|]. cbn. repeat split; lia.
Qed.

End FetcherAttempts.

Lemma retry_events_attempts file url h (delay : nat -> Z) (l : list nat) :
  attempts_made
    (concat (map (fun j => [EnsureDirectoryOf file; Request url h; Sleep (delay j)]) l))
  = length l.
Proof. induction l as [|j l IH]; cbn; [reflexivity|]. now f_equal. Qed.

Lemma attempts_made_app ev1 ev2 :
  attempts_made (ev1 ++ ev2) = (attempts_made ev1 + attempts_made ev2)%nat.
Proof. unfold attempts_made. now rewrite omap_app, length_app. Qed.

(** [k] transient failures in a row, with attempts left: the loop is at
    attempt [k + 1], having slept [retryDelay * n] after attempt [n]. *)
Lemma transient_failures_retried (a : asset) (world : asset_world)
    (maxRetries retryDelay : Z) (skipUnchanged : bool) (k : nat) :
  (Z.of_nat k < maxRetries)%Z ->
  (forall j, (j < k)%nat -> transient_failure (attempts world (1 + Z.of_nat j))) ->
  exists ev,
    downloadAsset a world maxRetries retryDelay skipUnchanged =
      (fst (attempt_loop a world maxRetries retryDelay skipUnchanged
              (Z.to_nat maxRetries - k) (1 + Z.of_nat k)),
       ev ++ snd (attempt_loop a world maxRetries retryDelay skipUnchanged
                    (Z.to_nat maxRetries - k) (1 + Z.of_nat k))) /\
    sleeps ev = map (fun j => retryDelay * (1 + Z.of_nat j))%Z (seq 0 k) /\
    length (requests ev) = k /\ writes ev = [] /\ attempts_made ev = k.
Proof.
  intros Hk Hfail. unfold downloadAsset.
  set (evs := fun j : nat =>
     [EnsureDirectoryOf (filePath (asset_match a));
      Request (downloadUrl (asset_match a)) (request_headers a world skipUnchanged);
      Sleep (retryDelay * (1 + Z.of_nat j))]).
  exists (concat (map evs (seq 0 k))). split.
  - apply attempt_loop_continues; [lia|].
    intros j Hj. apply loop_body_transient; [now apply Hfail|lia].
  - subst evs.
    rewrite retry_events_sleeps, retry_events_requests, retry_events_writes,
      retry_events_attempts, length_seq.
    repeat split; reflexivity.
Qed.

(** X11 - Transient failures on every attempt: with [maxRetries >= 1] attempts
    allowed, and each of them ending in a status that is retried (429,
    5xx, any other status outside 2xx, 304 and 4xx) or in a timeout or a
    connection error, the call makes exactly [maxRetries] requests, sleeps
    [retryDelay * n] after attempt [n] for every [n < maxRetries], writes
    nothing and returns [failed] without metadata. *)
Theorem retries_exhausted (a : asset) (world : asset_world)
    (maxRetries retryDelay : Z) (skipUnchanged : bool) :
  (1 <= maxRetries)%Z ->
  (forall n, (1 <= n <= maxRetries)%Z -> transient_failure (attempts world n)) ->
  let r := downloadAsset a world maxRetries retryDelay skipUnchanged in
  fst r = DownloadResult Failed None /\
  length (requests (snd r)) = Z.to_nat maxRetries /\
  sleeps (snd r) =
    map (fun j => retryDelay * (1 + Z.of_nat j))%Z (seq 0 (Z.to_nat maxRetries - 1)) /\
  writes (snd r) = [].
Proof.
  intros Hmax Hfail r. subst r.
  destruct (transient_failures_retried a world maxRetries retryDelay skipUnchanged
              (Z.to_nat maxRetries - 1)) as (ev & -> & Hs & Hr & Hw & _).
  { lia. }
  { intros j Hj. apply Hfail. lia. }
  replace (Z.to_nat maxRetries - (Z.to_nat maxRetries - 1))%nat with 1%nat by lia.
  cbn [attempt_loop]. rewrite loop_body_transient_last by (try apply Hfail; lia).
  cbn [fst snd]. rewrite requests_app, sleeps_app, writes_app, length_app, Hs, Hr, Hw.
  cbn. rewrite app_nil_r. repeat split; lia.
Qed.

Lemma retries_exhausted_witness :
  let r := downloadAsset hero_fresh overloaded_origin 3 1000 true in
  fst r = DownloadResult Failed None /\
  length (requests (snd r)) = Z.to_nat 3 /\
  sleeps (snd r) = map (fun j => 1000 * (1 + Z.of_nat j))%Z (seq 0 (Z.to_nat 3 - 1)) /\
  writes (snd r) = [].
Proof.
  apply (retries_exhausted hero_fresh overloaded_origin 3 1000 true); [lia|].
  intros n _. split; [reflexivity|]. left. eexists. split; [reflexivity|].
  unfold retriable_status. cbn. lia.
Defined.

(** X12 - Timeouts and connection errors are retried like a 503: after [k]
    transient failures, with attempts left, a delivered 2xx on attempt
    [k + 1] ends the call as [downloaded]; there were [k + 1] requests, the
    sleep after attempt [n] lasted [retryDelay * n], and the file was
    written once. *)
Theorem transient_failures_then_download (a : asset) (world : asset_world)
    (maxRetries retryDelay : Z) (skipUnchanged : bool) (k : nat) (st : Z) :
  (Z.of_nat k < maxRetries)%Z ->
  (forall j, (j < k)%nat -> transient_failure (attempts world (1 + Z.of_nat j))) ->
  answered (attempts world (1 + Z.of_nat k)) st -> (200 <= st <= 299)%Z ->
  delivered (attempts world (1 + Z.of_nat k)) ->
  let r := downloadAsset a world maxRetries retryDelay skipUnchanged in
  dl_status (fst r) = Downloaded /\
  sleeps (snd r) = map (fun j => retryDelay * (1 + Z.of_nat j))%Z (seq 0 k) /\
  length (requests (snd r)) = S k /\
  writes (snd r) = [filePath (asset_match a)].
Proof.
  intros Hk Hfail Hans Hok Hdel r. subst r.
  destruct (transient_failures_retried a world maxRetries retryDelay skipUnchanged k
              Hk Hfail) as (ev & -> & Hs & Hr & Hw & _).
  destruct (Z.to_nat maxRetries - k)%nat as [|n] eqn:En; [lia|].
  cbn [attempt_loop].
  destruct (loop_body_success a world maxRetries retryDelay skipUnchanged _ st Hans Hok Hdel)
    as (md & bytes & -> & _).
  cbn [fst snd dl_status]. rewrite requests_app, sleeps_app, writes_app, length_app, Hs, Hr, Hw.
  cbn. rewrite app_nil_r. repeat split; lia.
Qed.

Lemma transient_failures_then_download_witness :
  let r := downloadAsset hero_fresh stalling_origin 3 1000 true in
  dl_status (fst r) = Downloaded /\
  sleeps (snd r) = map (fun j => 1000 * (1 + Z.of_nat j))%Z (seq 0 2) /\
  length (requests (snd r)) = 3%nat /\
  writes (snd r) = [filePath (asset_match hero_fresh)].
Proof.
  apply (transient_failures_then_download hero_fresh stalling_origin 3 1000 true 2 200).
  - lia.
  - intros j Hj.
    destruct j as [|[|j]]; [| |lia];
      (split; [reflexivity|]; right; eexists; split; reflexivity).
  - split; [reflexivity|]. eexists; split; reflexivity.
  - lia.
  - split; [eexists; reflexivity|reflexivity].
Defined.

(** X13 - An exception that is neither a timeout nor one of the four
    connection errors ends the call in the attempt in which it is raised,
    whether by creating the directory, by the request, by reading the body
    or by writing the file: on the first attempt, the call returns
    [failed] without metadata after at most one request and no sleep. *)
Theorem permanent_error_not_retried (a : asset) (world : asset_world)
    (maxRetries retryDelay : Z) (skipUnchanged : bool) (e : js_error) :
  (1 <= maxRetries)%Z ->
  rejects_with (attempts world 1) e -> isRetriable e = false ->
  let r := downloadAsset a world maxRetries retryDelay skipUnchanged in
  fst r = DownloadResult Failed None /\
  sleeps (snd r) = [] /\
  attempts_made (snd r) = 1%nat /\
  (length (requests (snd r)) <= 1)%nat.
Proof.
  intros Hmax Hrej He r. subst r. unfold downloadAsset.
  destruct (Z.to_nat maxRetries) as [|n] eqn:En; [lia|]. cbn [attempt_loop].
  destruct (loop_body_rejects a world maxRetries retryDelay skipUnchanged 1 e Hrej)
    as (ev & -> & Hs & Ha & Hr).
  unfold catch_block. rewrite He. cbn [andb fst snd]. rewrite app_nil_r. now repeat split.
Qed.

Lemma permanent_error_not_retried_witness :
  let r := downloadAsset hero_fresh unknown_host 3 1000 true in
  fst r = DownloadResult Failed None /\
  sleeps (snd r) = [] /\
  attempts_made (snd r) = 1%nat /\
  (length (requests (snd r)) <= 1)%nat.
Proof.
  eapply (permanent_error_not_retried hero_fresh unknown_host 3 1000 true); [lia| |].
  - right. split; [reflexivity|]. left. reflexivity.
  - vm_compute. reflexivity.
Defined.

Section FetcherShape.

Variable a : asset.
Variable world : asset_world.
Variables maxRetries retryDelay : Z.
Variable skipUnchanged : bool.

Local Abbreviation body_of := (loop_body a world maxRetries retryDelay skipUnchanged).
Local Abbreviation loop := (attempt_loop a world maxRetries retryDelay skipUnchanged).
Local Abbreviation file := (filePath (asset_match a)).
Local Abbreviation ensure := (EnsureDirectoryOf (filePath (asset_match a))).
Local Abbreviation request :=
  (Request (downloadUrl (asset_match a)) (request_headers a world skipUnchanged)).

(** The ways through the loop body.  [pre] is what the attempt did
    before an exception took it to the [catch] block, or before the
    status of the response sent it round again. *)
Lemma loop_body_cases attempt :
  exists it ev, body_of attempt = (it, ensure :: ev) /\
  ((exists pre,
      (pre = [] \/ pre = [request] \/ exists bytes, pre = [request; WriteFile file bytes]) /\
      ((it = Continues /\ (attempt < maxRetries)%Z /\
        ev = pre ++ [Sleep (retryDelay * attempt)]) \/
       (it = Returns (DownloadResult Failed None) /\ ev = pre))) \/
   (it = Returns (DownloadResult Skipped
                    (Some (revalidated a (now (attempts world attempt))))) /\
    ev = [request] /\ answered (attempts world attempt) 304) \/
   (exists resp bytes,
      fetched (attempts world attempt) = Normal resp /\ response_ok resp = true /\
      it = Returns (DownloadResult Downloaded
             (Some {| etag := header_or_undefined (header_etag resp);
                      lastModified := header_or_undefined (header_lastModified resp);
                      size := Value (length bytes);
                      downloadedAt := Value (now (attempts world attempt));
                      checkedAt := Value (now (attempts world attempt));
                      meta_remoteUrl := Absent;
                      meta_localPath := Absent |})) /\
      ev = [request; WriteFile file bytes])).
Proof.
  assert (Hcatch : forall e pre,
    (pre = [] \/ pre = [request] \/ exists bytes, pre = [request; WriteFile file bytes]) ->
    exists it ev,
      (let '(it, ev') := catch_block maxRetries retryDelay attempt e in
       (it, (ensure :: pre) ++ ev')) = (it, ensure :: ev) /\
      exists pre0,
        (pre0 = [] \/ pre0 = [request] \/
         exists bytes, pre0 = [request; WriteFile file bytes]) /\
        ((it = Continues /\ (attempt < maxRetries)%Z /\
          ev = pre0 ++ [Sleep (retryDelay * attempt)]) \/
         (it = Returns (DownloadResult Failed None) /\ ev = pre0))).
  { intros e pre Hpre. unfold catch_block.
    destruct (isRetriable e); cbn [andb];
      [destruct (Z.ltb_spec attempt maxRetries) as [Hlt|Hge]|].
    - eexists _, _. split; [reflexivity|]. exists pre. split; [assumption|]. left. auto.
    - eexists _, _. split; [cbn; rewrite app_nil_r; reflexivity|].
      exists pre. split; [assumption|]. right. auto.
    - eexists _, _. split; [cbn; rewrite app_nil_r; reflexivity|].
      exists pre. split; [assumption|]. right. auto. }
  unfold loop_body, try_block.
  destruct (mkdir_error (attempts world attempt)) as [e|] eqn:Hmk.
  { destruct (Hcatch e []) as (it & ev & E & H); [now left|]. cbn [app] in E.
    exists it, ev. split; [exact E|]. now left. }
  destruct (fetched (attempts world attempt)) as [resp|e] eqn:Hf.
  2:{ destruct (Hcatch e [request]) as (it & ev & E & H); [now right; left|].
      exists it, ev. split; [exact E|]. now left. }
  destruct (status resp =? 304)%Z eqn:H304.
  { eexists _, _. split; [reflexivity|]. right. left. split; [reflexivity|].
    split; [reflexivity|]. split; [assumption|]. exists resp.
    split; [assumption|]. now apply Z.eqb_eq. }
  destruct (response_ok resp) eqn:Hok; cbn [negb].
  2:{ destruct (_ && _ && _).
    + destruct (Hcatch (http_error resp) [request]) as (it & ev & E & H); [now right; left|].
      exists it, ev. split; [exact E|]. now left.
    + destruct (Z.ltb_spec attempt maxRetries) as [Hlt|Hge].
      * eexists _, _. split; [reflexivity|]. left. exists [request].
        split; [now right; left|]. left. auto.
      * destruct (Hcatch (http_error resp) [request]) as (it & ev & E & H);
          [now right; left|].
        exists it, ev. split; [exact E|]. now left. }
  destruct (body (attempts world attempt)) as [bytes|e].
  2:{ destruct (Hcatch e [request]) as (it & ev & E & H); [now right; left|].
      exists it, ev. split; [exact E|]. now left. }
  destruct (write_error (attempts world attempt)) as [e|].
  - destruct (Hcatch e [request; WriteFile file bytes]) as (it & ev & E & H);
      [right; right; now exists bytes|].
    exists it, ev. split; [exact E|]. now left.
  - eexists _, _. split; [reflexivity|]. right. right. exists resp, bytes. auto.
Qed.

Lemma pre_effects (pre : list event) :
  (pre = [] \/ pre = [request] \/ exists bytes, pre = [request; WriteFile file bytes]) ->
  attempts_made pre = 0%nat /\ sleeps pre = [] /\
  (length (requests pre) <= 1)%nat /\ (length (writes pre) <= 1)%nat /\
  Forall (eq file) (writes pre).
Proof.
  intros [-> | [-> | (bytes & ->)]]; cbn; repeat split; try lia; repeat constructor.
Qed.

Lemma backoff_shift (attempt : Z) (n : nat) :
  (retryDelay * attempt)%Z ::
    map (fun j => retryDelay * (attempt + 1 + Z.of_nat j))%Z (seq 0 n)
  = map (fun j => retryDelay * (attempt + Z.of_nat j))%Z (seq 0 (S n)).
Proof.
  cbn [seq map]. rewrite <- seq_shift, map_map. f_equal; [f_equal; lia|].
  apply map_ext. intros j. f_equal. lia.
Qed.

(** The effort of the loop from attempt [attempt] on, with [remaining]
    attempts left. *)
Lemma attempt_loop_effort remaining : forall attempt,
  Z.of_nat remaining = Z.max 0 (maxRetries - attempt + 1) ->
  let ev := snd (loop remaining attempt) in
  let n := attempts_made ev in
  (n <= remaining)%nat /\ ((0 < remaining)%nat -> (0 < n)%nat) /\
  sleeps ev = map (fun j => retryDelay * (attempt + Z.of_nat j))%Z (seq 0 (n - 1)) /\
  (length (requests ev) <= n)%nat /\ (length (writes ev) <= n)%nat /\
  Forall (eq file) (writes ev).
Proof.
  induction remaining as [|remaining IH]; intros attempt Hrem; cbn [attempt_loop].
  { cbn. repeat split; try lia; constructor. }
  destruct (loop_body_cases attempt) as (it & ev & E & H). rewrite E.
  destruct H as [(pre & Hpre & [(-> & Hlt & ->) | (-> & ->)])
                | [(-> & -> & _) | (resp & bytes & _ & _ & -> & ->)]].
  - specialize (IH (attempt + 1)%Z ltac:(lia)).
    destruct (loop remaining (attempt + 1)%Z) as [r ev']. cbn [fst snd] in *.
    destruct IH as (Hn & Hpos & Hs & Hr & Hw & Hf).
    destruct (pre_effects pre Hpre) as (Pa & Ps & Pr & Pw & Pf).
    change (ensure :: pre ++ [Sleep (retryDelay * attempt)])
      with ([ensure] ++ pre ++ [Sleep (retryDelay * attempt)]).
    rewrite !attempts_made_app, !sleeps_app, !requests_app, !writes_app, !length_app.
    rewrite Pa, Ps. cbn [attempts_made sleeps requests writes omap length app Nat.add].
    cbn. rewrite !app_nil_r.
    specialize (Hpos ltac:(lia)).
    destruct (attempts_made ev') as [|n'] eqn:En; [lia|].
    cbn [Nat.sub] in *. rewrite Nat.sub_0_r in *.
    rewrite Hs, backoff_shift.
    repeat split; try lia. apply Forall_app. now split.
  - destruct (pre_effects pre Hpre) as (Pa & Ps & Pr & Pw & Pf).
    cbn [fst snd]. change (ensure :: pre) with ([ensure] ++ pre).
    rewrite !attempts_made_app, !sleeps_app, !requests_app, !writes_app, !length_app.
    rewrite Pa, Ps. cbn. repeat split; try lia. assumption.
  - cbn. repeat split; try lia; constructor.
  - cbn. repeat split; try lia; repeat constructor.
Qed.

End FetcherShape.

(** X14 - The effort of a call, whatever the world does: at most [maxRetries]
    attempts, and none exactly when [maxRetries] is zero or negative; no
    more requests and no more writes than attempts, every write to the
    asset's own file; and one sleep after every attempt but the last:
    [retryDelay * 1], [retryDelay * 2], ... in this order. *)
Theorem download_effort (a : asset) (world : asset_world)
    (maxRetries retryDelay : Z) (skipUnchanged : bool) :
  let ev := snd (downloadAsset a world maxRetries retryDelay skipUnchanged) in
  let n := attempts_made ev in
  (Z.of_nat n <= Z.max 0 maxRetries)%Z /\
  (n = 0%nat <-> (maxRetries <= 0)%Z) /\
  sleeps ev = map (fun j => retryDelay * (1 + Z.of_nat j))%Z (seq 0 (n - 1)) /\
  (length (requests ev) <= n)%nat /\
  (length (writes ev) <= n)%nat /\
  Forall (eq (filePath (asset_match a))) (writes ev).
Proof.
  cbv zeta. unfold downloadAsset.
  destruct (attempt_loop_effort a world maxRetries retryDelay skipUnchanged
              (Z.to_nat maxRetries) 1 ltac:(lia)) as (Hn & Hpos & Hs & Hr & Hw & Hf).
  cbv zeta in *. repeat split; try assumption; lia.
Qed.

Lemma attempt_loop_outcome (a : asset) (world : asset_world)
    (maxRetries retryDelay : Z) (skipUnchanged : bool) (remaining : nat) :
  forall attempt,
  let r := attempt_loop a world maxRetries retryDelay skipUnchanged remaining attempt in
  match dl_status (fst r) with
  | Downloaded =>
      exists ev n resp bytes,
        snd r = ev ++ [WriteFile (filePath (asset_match a)) bytes] /\
        (attempt <= n < attempt + Z.of_nat remaining)%Z /\
        fetched (attempts world n) = Normal resp /\ response_ok resp = true /\
        dl_metadata (fst r) =
          Some {| etag := header_or_undefined (header_etag resp);
                  lastModified := header_or_undefined (header_lastModified resp);
                  size := Value (length bytes);
                  downloadedAt := Value (now (attempts world n));
                  checkedAt := Value (now (attempts world n));
                  meta_remoteUrl := Absent;
                  meta_localPath := Absent |}
  | Skipped =>
      exists ev n,
        snd r = ev ++ [Request (downloadUrl (asset_match a))
                         (request_headers a world skipUnchanged)] /\
        (attempt <= n < attempt + Z.of_nat remaining)%Z /\
        answered (attempts world n) 304 /\
        dl_metadata (fst r) = Some (revalidated a (now (attempts world n)))
  | Failed => dl_metadata (fst r) = None
  end.
Proof.
  induction remaining as [|remaining IH]; intros attempt; cbn [attempt_loop];
    [reflexivity|].
  destruct (loop_body_cases a world maxRetries retryDelay skipUnchanged attempt)
    as (it & ev & E & H). rewrite E.
  destruct H as [(pre & Hpre & [(-> & Hlt & ->) | (-> & ->)])
                | [(-> & -> & H304) | (resp & bytes & Hf & Hok & -> & ->)]].
  - specialize (IH (attempt + 1)%Z). cbv zeta in IH.
    destruct (attempt_loop a world maxRetries retryDelay skipUnchanged remaining
                (attempt + 1)%Z) as [r ev']. cbn [fst snd] in *.
    destruct (dl_status r).
    + destruct IH as (ev0 & n & resp & bytes & -> & Hn & Hf & Hok & Hmd).
      eexists _, n, resp, bytes. rewrite app_assoc.
      split; [reflexivity|]. repeat split; try assumption; lia.
    + destruct IH as (ev0 & n & -> & Hn & H304 & Hmd).
      eexists _, n. rewrite app_assoc.
      split; [reflexivity|]. repeat split; try assumption; try lia; apply H304.
    + assumption.
  - reflexivity.
  - cbn [fst snd dl_status dl_metadata].
    exists [EnsureDirectoryOf (filePath (asset_match a))], attempt.
    split; [reflexivity|]. split; [lia|]. now split.
  - cbn [fst snd dl_status dl_metadata].
    exists [EnsureDirectoryOf (filePath (asset_match a));
            Request (downloadUrl (asset_match a)) (request_headers a world skipUnchanged)],
           attempt, resp, bytes.
    split; [reflexivity|]. split; [lia|]. now repeat split.
Qed.

(** X15 - What a call returns, whatever the world does.  [downloaded]: the
    last thing the call did was to write the body of a 2xx answer to the
    asset's file, and the metadata record the length of that body, the
    validators of that answer (undefined where it had none) and one time for
    both [downloadedAt] and [checkedAt].  [skipped]: the last thing it did
    was a request that was answered 304, and the metadata are the cached
    ones with [checkedAt] set anew.  [failed]: there are no metadata. *)
Theorem download_outcome (a : asset) (world : asset_world)
    (maxRetries retryDelay : Z) (skipUnchanged : bool) :
  let r := downloadAsset a world maxRetries retryDelay skipUnchanged in
  match dl_status (fst r) with
  | Downloaded =>
      exists ev n resp bytes,
        snd r = ev ++ [WriteFile (filePath (asset_match a)) bytes] /\
        (1 <= n <= maxRetries)%Z /\
        fetched (attempts world n) = Normal resp /\ response_ok resp = true /\
        dl_metadata (fst r) =
          Some {| etag := header_or_undefined (header_etag resp);
                  lastModified := header_or_undefined (header_lastModified resp);
                  size := Value (length bytes);
                  downloadedAt := Value (now (attempts world n));
                  checkedAt := Value (now (attempts world n));
                  meta_remoteUrl := Absent;
                  meta_localPath := Absent |}
  | Skipped =>
      exists ev n,
        snd r = ev ++ [Request (downloadUrl (asset_match a))
                         (request_headers a world skipUnchanged)] /\
        (1 <= n <= maxRetries)%Z /\
        answered (attempts world n) 304 /\
        dl_metadata (fst r) = Some (revalidated a (now (attempts world n)))
  | Failed => dl_metadata (fst r) = None
  end.
Proof.
  cbv zeta. unfold downloadAsset.
  pose proof (attempt_loop_outcome a world maxRetries retryDelay skipUnchanged
                (Z.to_nat maxRetries) 1) as H. cbv zeta in H.
  destruct (dl_status _).
  - destruct H as (ev & n & resp & bytes & H1 & Hn & H2).
    exists ev, n, resp, bytes. split; [assumption|]. split; [lia|assumption].
  - destruct H as (ev & n & H1 & Hn & H2).
    exists ev, n. split; [assumption|]. split; [lia|assumption].
  - assumption.
Qed.

(** X16 - Validators are sent only to confirm a local copy: a request of the
    call carries headers only if [skipUnchanged] is on, the asset's file
    exists and its cache entry holds a validator; the headers are then not
    empty, and each of them is [If-None-Match] with the cached etag or
    [If-Modified-Since] with the cached date. *)
Theorem validators_need_local_copy (a : asset) (world : asset_world)
    (maxRetries retryDelay : Z) (skipUnchanged : bool) :
  Forall (fun h =>
            match h with
            | None => True
            | Some hs =>
                skipUnchanged = true /\ file_exists world = true /\ hs <> [] /\
                exists m, asset_metadata a = Some m /\
                  forall name v, In (name, v) hs ->
                    (name = "If-None-Match" /\ etag m = Value v) \/
                    (name = "If-Modified-Since" /\ lastModified m = Value v)
            end)
         (requests (snd (downloadAsset a world maxRetries retryDelay skipUnchanged))).
Proof.
  eapply Forall_impl; [apply attempt_loop_requests|].
  intros h ->. unfold request_headers, shouldUseConditional, hasMetadata, conditionalHeaders.
  destruct skipUnchanged; [|exact I]. destruct (file_exists world); [|exact I].
  destruct (asset_metadata a) as [m|]; [|exact I]. cbn [andb].
  destruct (prop_truthy (etag m) || prop_truthy (lastModified m)) eqn:Ht; [|exact I].
  split; [reflexivity|]. split; [reflexivity|]. split.
  - unfold conditional_header, prop_truthy in *.
    destruct (etag m) as [| |tag]; destruct (lastModified m) as [| |date];
      cbn in Ht |- *; try discriminate;
      repeat match goal with |- context [Js.truthy ?s] => destruct (Js.truthy s) end;
      cbn in *; discriminate.
  - exists m. split; [reflexivity|]. intros name v Hin.
    apply in_app_or in Hin as [Hin|Hin]; [left|right];
      unfold conditional_header in Hin;
      match type of Hin with In _ (match ?p with _ => _ end) =>
        destruct p as [| |w]; try contradiction;
        destruct (Js.truthy w); [|contradiction];
        destruct Hin as [[= <- <-]|[]]; now split
      end.
Qed.

(** ** The worker pool, step by step *)

Section PoolSteps.

Variable assets : list asset.
Variable world : nat -> asset_world.
Variables maxRetries retryDelay : Z.
Variable skipUnchanged : bool.

Local Abbreviation resume' := (resume assets world maxRetries retryDelay skipUnchanged).
Local Abbreviation run := (run_pool assets world maxRetries retryDelay skipUnchanged).
Local Abbreviation pool_inv' := (pool_inv assets world maxRetries retryDelay skipUnchanged).
Local Abbreviation events_of := (own_events assets world maxRetries retryDelay skipUnchanged).
Local Abbreviation status_of := (own_status assets world maxRetries retryDelay skipUnchanged).

(** What holds at the start and is kept by the creation of a worker and
    by the settling of a download holds whenever the pool is looked at. *)
Lemma pool_steps (P : pool_state -> Prop) :
  P pool_init ->
  (forall st, P st -> P (spawn assets st)) ->
  (forall w st, P st -> P (resume' w st)) ->
  forall concurrency fuel schedule, P (run fuel schedule (pool_start assets concurrency)).
Proof.
  intros Hinit Hspawn Hresume concurrency fuel schedule.
  assert (Hstart : P (pool_start assets concurrency)).
  { unfold pool_start. induction (worker_count assets concurrency) as [|n IH];
      [exact Hinit|]. cbn [Nat.iter]. now apply Hspawn. }
  revert schedule Hstart. generalize (pool_start assets concurrency).
  induction fuel as [|fuel IH]; intros st schedule Hst; cbn [run_pool]; [assumption|].
  destruct (pick _ st); [|assumption]. apply IH. now apply Hresume.
Qed.

Lemma pool_result (P : pool_state -> Prop) :
  P pool_init ->
  (forall st, P st -> P (spawn assets st)) ->
  (forall w st, P st -> P (resume' w st)) ->
  forall concurrency schedule,
    P (downloadWithConcurrency assets world maxRetries retryDelay skipUnchanged
         concurrency schedule).
Proof.
  intros Hinit Hspawn Hresume concurrency schedule.
  pose proof (pool_steps P Hinit Hspawn Hresume concurrency (length assets) schedule) as H.
  unfold downloadWithConcurrency. destruct assets; [exact Hinit|exact H].
Qed.

Lemma spawn_fields st :
  let st' := spawn assets st in
  success st' = success st /\ skipped st' = skipped st /\ failed st' = failed st /\
  manifestUpdates st' = manifestUpdates st /\ manifestRemovals st' = manifestRemovals st /\
  completed st' = completed st /\ trace st' = trace st.
Proof. unfold spawn, claim. destruct (_ <? _)%nat; cbn; repeat split. Qed.

(** the step of [resume]: nothing but the workers changes, or the
    result of one download is recorded *)
Lemma resume_fields w st :
  let st' := resume' w st in
  (success st' = success st /\ skipped st' = skipped st /\ failed st' = failed st /\
   manifestUpdates st' = manifestUpdates st /\ manifestRemovals st' = manifestRemovals st /\
   completed st' = completed st /\ trace st' = trace st) \/
  (exists i a,
     workers st !! w = Some (Some i) /\ assets !! i = Some a /\
     let d := downloadAsset a (world i) maxRetries retryDelay skipUnchanged in
     completed st' = completed st ++ [(i, dl_status (fst d))] /\
     trace st' = trace st ++ snd d /\
     manifestUpdates st' =
       match own_update assets world maxRetries retryDelay skipUnchanged i with
       | Some v => JsMap.set (manifestUpdates st) (cacheKey (asset_match a)) v
       | None => manifestUpdates st
       end).
Proof.
  cbv zeta. unfold resume.
  destruct (workers st !! w) as [[i|]|] eqn:Hw; [|left; repeat split..].
  destruct (assets !! i) as [a|] eqn:Ha; [|left; repeat split].
  right. exists i, a. split; [reflexivity|]. split; [assumption|].
  unfold own_update. rewrite Ha. unfold record_result, claim.
  destruct (downloadAsset a (world i) maxRetries retryDelay skipUnchanged) as [result ev].
  cbn [index fst snd]. destruct (dl_metadata result); destruct (_ <? _)%nat; cbn; repeat split.
Qed.

(** The trace of the pool is made of the events of the downloads, one
    download after the other in the order of their completion. *)
Lemma pool_trace_completed concurrency schedule :
  let st := downloadWithConcurrency assets world maxRetries retryDelay skipUnchanged
              concurrency schedule in
  trace st = flat_map events_of (map fst (completed st)).
Proof.
  apply (pool_result (fun st => trace st = flat_map events_of (map fst (completed st)))).
  - reflexivity.
  - intros st H. destruct (spawn_fields st) as (_ & _ & _ & _ & _ & -> & ->). exact H.
  - intros w st H.
    destruct (resume_fields w st) as [(_ & _ & _ & _ & _ & -> & ->)
                                     | (i & a & _ & Ha & -> & -> & _)]; [exact H|].
    rewrite map_app, flat_map_app, H. cbn [map flat_map fst].
    unfold own_events, own_download. rewrite Ha. cbn. now rewrite app_nil_r.
Qed.

Lemma run_pool_inv fuel : forall schedule st,
  pool_inv' st -> pool_inv' (run fuel schedule st).
Proof.
  induction fuel as [|fuel IH]; intros schedule st Hinv; cbn [run_pool]; [assumption|].
  destruct (pick _ st); [|assumption]. apply IH. now apply resume_inv.
Qed.

Lemma run_pool_workers fuel : forall schedule st,
  length (workers (run fuel schedule st)) = length (workers st).
Proof.
  induction fuel as [|fuel IH]; intros schedule st; cbn [run_pool]; [reflexivity|].
  destruct (pick _ st); [|reflexivity]. now rewrite IH, resume_workers.
Qed.

End PoolSteps.

Lemma filter_length_fst {A B} (g : A -> bool) (l : list (A * B)) :
  length (List.filter (fun c => g (fst c)) l) = length (List.filter g (map fst l)).
Proof.
  induction l as [|[x y] l IH]; [reflexivity|]. cbn. destruct (g x); cbn; now rewrite IH.
Qed.

Lemma filter_length_Permutation {A} (g : A -> bool) (l l' : list A) :
  l ≡ₚ l' -> length (List.filter g l) = length (List.filter g l').
Proof.
  induction 1 as [|x l l' _ IH|x y l|l l' l'' _ IH1 _ IH2]; cbn.
  - reflexivity.
  - destruct (g x); cbn; now rewrite IH.
  - destruct (g x), (g y); reflexivity.
  - now rewrite IH1.
Qed.

Section PoolResults.

Variable assets : list asset.
Variable world : nat -> asset_world.
Variables maxRetries retryDelay : Z.
Variable skipUnchanged : bool.
Variable concurrency : Z.
Variable schedule : list nat.

Local Abbreviation status_of := (own_status assets world maxRetries retryDelay skipUnchanged).
Local Abbreviation st :=
  (downloadWithConcurrency assets world maxRetries retryDelay skipUnchanged
     concurrency schedule).

(** the pool has recorded for every asset the status of its own download *)
Lemma completed_own_status (i : nat) (s : download_status) :
  In (i, s) (completed st) <-> status_of i = Some s.
Proof.
  destruct (downloadWithConcurrency_spec assets world maxRetries retryDelay skipUnchanged
              concurrency schedule) as (Hinv & Hlen & _). cbv zeta in Hinv, Hlen.
  pose proof (pool_done _ _ _ _ _ _ Hinv Hlen) as Hperm.
  assert (Hto : forall j t, In (j, t) (completed st) -> status_of j = Some t).
  { intros j t Hin. pose proof (inv_outcomes _ Hinv) as Ho.
    rewrite List.Forall_forall in Ho. destruct (Ho _ Hin) as (a & Ha & Hs).
    cbn [fst snd] in *. unfold own_status, own_download. rewrite Ha. cbn. now rewrite Hs. }
  split; [apply Hto|]. intros Hs.
  assert (Hi : (i < length assets)%nat).
  { unfold own_status, own_download in Hs.
    destruct (assets !! i) eqn:Ha; [|discriminate]. eapply lookup_lt_Some; eassumption. }
  assert (Hin : In i (map fst (completed st))).
  { apply list_elem_of_In. rewrite Hperm. apply list_elem_of_In, in_seq. lia. }
  apply in_map_iff in Hin as ([j t] & <- & Hin). cbn [fst] in *.
  pose proof (Hto _ _ Hin) as Ht. rewrite Hs in Ht. now injection Ht as ->.
Qed.

Lemma count_status_tally (s : download_status) :
  count_status s (completed st) =
    tally assets world maxRetries retryDelay skipUnchanged s.
Proof.
  destruct (downloadWithConcurrency_spec assets world maxRetries retryDelay skipUnchanged
              concurrency schedule) as (Hinv & Hlen & _). cbv zeta in Hinv, Hlen.
  pose proof (pool_done _ _ _ _ _ _ Hinv Hlen) as Hperm.
  unfold count_status, tally.
  rewrite <- (filter_length_Permutation _ _ _ Hperm), <- filter_length_fst.
  f_equal. apply filter_ext_in. intros [i t] Hin. cbn [fst snd].
  apply completed_own_status in Hin. now rewrite Hin.
Qed.

End PoolResults.

(** X17 - The result of the pool, asset by asset: whatever the concurrency
    and the order in which the downloads settle, the three counters are
    the numbers of assets whose own download ends as [downloaded],
    [skipped] and [failed]; the removal set holds the cache keys of the
    assets that failed and no others, the update map has the cache keys of
    the assets that did not fail and no others. *)
Theorem pool_result_by_asset (assets : list asset) (world : nat -> asset_world)
    (maxRetries retryDelay : Z) (skipUnchanged : bool)
    (concurrency : Z) (schedule : list nat) :
  let st := downloadWithConcurrency assets world maxRetries retryDelay skipUnchanged
              concurrency schedule in
  let status_of := own_status assets world maxRetries retryDelay skipUnchanged in
  success st = tally assets world maxRetries retryDelay skipUnchanged Downloaded /\
  skipped st = tally assets world maxRetries retryDelay skipUnchanged Skipped /\
  failed st = tally assets world maxRetries retryDelay skipUnchanged Failed /\
  (forall k, In k (manifestRemovals st) <->
     exists i a, assets !! i = Some a /\ cacheKey (asset_match a) = k /\
                 status_of i = Some Failed) /\
  (forall k, In k (JsMap.keys (manifestUpdates st)) <->
     exists i a s, assets !! i = Some a /\ cacheKey (asset_match a) = k /\
                   status_of i = Some s /\ s <> Failed).
Proof.
  cbv zeta.
  destruct (downloadWithConcurrency_spec assets world maxRetries retryDelay skipUnchanged
              concurrency schedule) as (Hinv & _). cbv zeta in Hinv.
  rewrite (inv_success _ Hinv), (inv_skipped _ Hinv), (inv_failed _ Hinv),
    !count_status_tally.
  pose proof (completed_own_status assets world maxRetries retryDelay skipUnchanged
                concurrency schedule) as Hown.
  split; [reflexivity|]. split; [reflexivity|]. split; [reflexivity|]. split.
  - intros k. rewrite (inv_removals _ Hinv). split.
    + intros (i & a & Hin & Ha & Hk). exists i, a. apply Hown in Hin. auto.
    + intros (i & a & Ha & Hk & Hs). exists i, a. apply Hown in Hs. auto.
  - intros k. rewrite (inv_updates _ Hinv). split.
    + intros (i & s & a & Hin & Hs & Ha & Hk). exists i, a, s. apply Hown in Hin. auto.
    + intros (i & a & s & Ha & Hk & Hs & Hnf). exists i, s, a. apply Hown in Hs. auto.
Qed.


(** X19 - The bound on concurrency: after any number of downloads has
    settled, the downloads in flight are at most as many as the workers,
    which are [min (max 1 concurrency) n], hence at most
    [max 1 concurrency]; and as long as an asset is unclaimed every worker
    has a download in flight. *)
Theorem pool_concurrency_bound (assets : list asset) (world : nat -> asset_world)
    (maxRetries retryDelay : Z) (skipUnchanged : bool)
    (concurrency : Z) (settled : nat) (schedule : list nat) :
  let st := run_pool assets world maxRetries retryDelay skipUnchanged settled schedule
              (pool_start assets concurrency) in
  (length (waiting st) <= worker_count assets concurrency)%nat /\
  (Z.of_nat (worker_count assets concurrency) <= Z.max 1 concurrency)%Z /\
  ((index st < length assets)%nat ->
   length (waiting st) = worker_count assets concurrency).
Proof.
  cbv zeta.
  destruct (iter_spawn_inv assets world maxRetries retryDelay skipUnchanged
              (worker_count assets concurrency)) as (Hinv & Hw & _).
  fold (pool_start assets concurrency) in Hinv, Hw.
  pose proof (run_pool_inv assets world maxRetries retryDelay skipUnchanged settled schedule
                _ Hinv) as Hinv'.
  pose proof (run_pool_workers assets world maxRetries retryDelay skipUnchanged settled
                schedule (pool_start assets concurrency)) as Hlen.
  rewrite Hw in Hlen. unfold waiting. rewrite waiting_from_length.
  set (st := run_pool _ _ _ _ _ _ _ _) in *.
  assert (Hle : forall ws : list (option nat), (length (awaited ws) <= length ws)%nat).
  { unfold awaited. induction ws as [|[i|] ws IH]; cbn; lia. }
  split; [rewrite <- Hlen; apply Hle|]. split; [unfold worker_count; cbv zeta; lia|].
  intros Hidx. pose proof (inv_busy _ Hinv' Hidx) as Hbusy. rewrite <- Hlen.
  clear -Hbusy. unfold awaited.
  induction Hbusy as [|w ws [i ->] _ IH]; cbn; [reflexivity|now rewrite IH].
Qed.

Lemma JsMap_get_set {V} (m : list (string * V)) (k : string) (v : V) (k' : string) :
  JsMap.get (JsMap.set m k v) k' = if String.eqb k k' then Some v else JsMap.get m k'.
Proof.
  induction m as [|[k0 v0] m IH]; cbn; [reflexivity|].
  destruct (String.eqb_spec k0 k) as [->|Hne]; cbn.
  - now destruct (String.eqb k k').
  - rewrite IH. destruct (String.eqb_spec k0 k') as [->|]; [|reflexivity].
    destruct (String.eqb_spec k k'); [congruence|reflexivity].
Qed.

(** every entry of the update map was put there for an asset whose
    download has been completed *)
Lemma pool_updates_origin (assets : list asset) (world : nat -> asset_world)
    (maxRetries retryDelay : Z) (skipUnchanged : bool)
    (concurrency : Z) (schedule : list nat) (k : string) (v : metadata) :
  JsMap.get
    (manifestUpdates (downloadWithConcurrency assets world maxRetries retryDelay
                        skipUnchanged concurrency schedule)) k = Some v ->
  exists i a, assets !! i = Some a /\ cacheKey (asset_match a) = k /\
              own_update assets world maxRetries retryDelay skipUnchanged i = Some v.
Proof.
  revert k v.
  apply (pool_result assets world maxRetries retryDelay skipUnchanged
           (fun st => forall k v, JsMap.get (manifestUpdates st) k = Some v ->
              exists i a, assets !! i = Some a /\ cacheKey (asset_match a) = k /\
                own_update assets world maxRetries retryDelay skipUnchanged i = Some v)).
  - intros k v [=].
  - intros st H. destruct (spawn_fields assets st) as (_ & _ & _ & -> & _). exact H.
  - intros w st H.
    destruct (resume_fields assets world maxRetries retryDelay skipUnchanged w st)
      as [(_ & _ & _ & -> & _) | (i & a & _ & Ha & _ & _ & ->)]; [exact H|].
    destruct (own_update assets world maxRetries retryDelay skipUnchanged i) as [u|] eqn:Hu;
      [|exact H].
    intros k v. rewrite JsMap_get_set.
    destruct (String.eqb_spec (cacheKey (asset_match a)) k) as [<-|_]; [|apply H].
    intros [= <-]. now exists i, a.
Qed.

Lemma pool_updates_lookup (assets : list asset) (world : nat -> asset_world)
    (maxRetries retryDelay : Z) (skipUnchanged : bool)
    (concurrency : Z) (schedule : list nat) (i : nat) (a : asset) :
  NoDup (map (fun a => cacheKey (asset_match a)) assets) ->
  assets !! i = Some a ->
  JsMap.get
    (manifestUpdates (downloadWithConcurrency assets world maxRetries retryDelay
                        skipUnchanged concurrency schedule))
    (cacheKey (asset_match a))
  = own_update assets world maxRetries retryDelay skipUnchanged i.
Proof.
  intros Hnd Ha.
  set (st := downloadWithConcurrency _ _ _ _ _ _ _).
  assert (Horigin : forall v, JsMap.get (manifestUpdates st) (cacheKey (asset_match a)) = Some v ->
            own_update assets world maxRetries retryDelay skipUnchanged i = Some v).
  { intros v Hv. apply pool_updates_origin in Hv as (j & b & Hb & Hk & Hu).
    now rewrite (NoDup_key_index assets i j a b Hnd Ha Hb (eq_sym Hk)). }
  destruct (JsMap.get (manifestUpdates st) (cacheKey (asset_match a))) as [v|] eqn:Hget;
    [symmetry; now apply Horigin|].
  destruct (own_update assets world maxRetries retryDelay skipUnchanged i) as [u|] eqn:Hu;
    [|reflexivity].
  exfalso. apply JsMap_get_has in Hget.
  assert (Hin : In (cacheKey (asset_match a)) (JsMap.keys (manifestUpdates st))).
  { destruct (downloadWithConcurrency_spec assets world maxRetries retryDelay skipUnchanged
                concurrency schedule) as (Hinv & _). cbv zeta in Hinv.
    apply (inv_updates _ Hinv).
    unfold own_update in Hu. rewrite Ha in Hu.
    exists i, (dl_status (fst (downloadAsset a (world i) maxRetries retryDelay
                                 skipUnchanged))), a.
    split; [|split; [|now split]].
    - apply completed_own_status. unfold own_status, own_download. now rewrite Ha.
    - intros Hf. apply downloadAsset_metadata in Hf. now rewrite Hf in Hu. }
  apply JsMap_has_keys in Hin. congruence.
Qed.

(** X20 - The update map, asset by asset: when no two assets of the list share
    a cache key, the map holds for the key of an asset what the download
    of that asset returned as metadata, with the asset's [remoteUrl] and
    [localPath] added, and nothing if that download failed. *)
Theorem pool_updates_by_asset (assets : list asset) (world : nat -> asset_world)
    (maxRetries retryDelay : Z) (skipUnchanged : bool)
    (concurrency : Z) (schedule : list nat) (i : nat) (a : asset) :
  NoDup (map (fun a => cacheKey (asset_match a)) assets) ->
  assets !! i = Some a ->
  JsMap.get
    (manifestUpdates (downloadWithConcurrency assets world maxRetries retryDelay
                        skipUnchanged concurrency schedule))
    (cacheKey (asset_match a))
  = own_update assets world maxRetries retryDelay skipUnchanged i.
Proof. apply pool_updates_lookup. Qed.

Lemma pool_updates_by_asset_witness :
  JsMap.get
    (manifestUpdates (downloadWithConcurrency [hero_fresh] partly_failing 3 1000 true 2 []))
    (cacheKey (asset_match hero_fresh))
  = own_update [hero_fresh] partly_failing 3 1000 true 0.
Proof.
  apply (pool_updates_by_asset [hero_fresh] partly_failing 3 1000 true 2 [] 0 hero_fresh).
  - repeat constructor. intros H. inversion H.
  - reflexivity.
Defined.

(** ** Builds, effect by effect *)

(** what holds of the events of every single download holds of the
    trace of the pool *)
Lemma pool_trace_forall (assets : list asset) (world : nat -> asset_world)
    (maxRetries retryDelay : Z) (skipUnchanged : bool) (P : event -> Prop) :
  (forall i a, assets !! i = Some a ->
     Forall P (snd (downloadAsset a (world i) maxRetries retryDelay skipUnchanged))) ->
  forall concurrency schedule,
    Forall P (trace (downloadWithConcurrency assets world maxRetries retryDelay
                       skipUnchanged concurrency schedule)).
Proof.
  intros HP.
  apply (pool_result assets world maxRetries retryDelay skipUnchanged
           (fun st => Forall P (trace st))).
  - constructor.
  - intros st H. destruct (spawn_fields assets st) as (_ & _ & _ & _ & _ & _ & ->). exact H.
  - intros w st H.
    destruct (resume_fields assets world maxRetries retryDelay skipUnchanged w st)
      as [(_ & _ & _ & _ & _ & _ & ->) | (i & a & _ & Ha & _ & -> & _)]; [exact H|].
    apply Forall_app. split; [exact H|]. now apply HP.
Qed.

Lemma first_match_sound (ctx : media_context) (l : list string) (k : string)
    (m : media_match) :
  first_match ctx l k = Some m ->
  exists s, In s l /\ resolveMediaPath s ctx = Normal (Some m).
Proof.
  induction l as [|x l IH]; [discriminate|]. cbn [first_match].
  destruct (resolveMediaPath x ctx) as [[mx|]|e] eqn:E.
  - destruct (String.eqb (cacheKey mx) k).
    + intros [= <-]. exists x. split; [now left|assumption].
    + intros H. destruct (IH H) as (s & Hin & Hs). exists s. split; [now right|assumption].
  - intros H. destruct (IH H) as (s & Hin & Hs). exists s. split; [now right|assumption].
  - intros H. destruct (IH H) as (s & Hin & Hs). exists s. split; [now right|assumption].
Qed.

Lemma JsMap_values_get {V} (m : list (string * V)) (v : V) :
  NoDup (JsMap.keys m) -> In v (JsMap.values m) -> exists k, JsMap.get m k = Some v.
Proof.
  unfold JsMap.keys, JsMap.values.
  induction m as [|[k0 v0] m IH]; [intros _ []|]. cbn [map fst snd].
  intros Hnd. apply NoDup_cons in Hnd as [Hk Hnd]. intros [<-|Hin].
  - exists k0. cbn. now rewrite String.eqb_refl.
  - destruct (IH Hnd Hin) as (k & Hget). exists k. cbn.
    destruct (String.eqb_spec k0 k) as [->|]; [|assumption].
    exfalso. apply Hk. apply list_elem_of_In.
    assert (Hhas : JsMap.has m k = true).
    { destruct (JsMap.has m k) eqn:E; [reflexivity|].
      apply JsMap_get_has in E. congruence. }
    now apply JsMap_has_keys in Hhas.
Qed.

(** every asset of the work list is the match of a string that was
    scanned, with the metadata the manifest had for its key *)
Lemma scanned_assets (ctx : media_context) (manifestPath : option string)
    (manifest : gmap string metadata) (files : list (string * option json)) (a : asset) :
  In a (JsMap.values (fst (scan ctx manifestPath manifest files))) ->
  exists s,
    In s (scanned_strings ctx files) /\
    resolveMediaPath s ctx = Normal (Some (asset_match a)) /\
    asset_metadata a = cached manifestPath manifest (cacheKey (asset_match a)).
Proof.
  intros Hin.
  destruct (scan_well_keyed ctx manifestPath manifest files) as [[Hnd Hkeys] Hget].
  destruct (JsMap_values_get _ _ Hnd Hin) as (k & Hk).
  rewrite Hget in Hk.
  destruct (first_match ctx (scanned_strings ctx files) k) as [m|] eqn:Hfirst;
    [|discriminate].
  injection Hk as <-. cbn [asset_match asset_metadata].
  pose proof (first_match_key ctx _ _ _ Hfirst) as <-.
  destruct (first_match_sound ctx _ _ _ Hfirst) as (s & Hs & Hr).
  exists s. now repeat split.
Qed.

Lemma match_below_directory (url : string) (ctx : media_context) (m : media_match) :
  Js.startsWith (mediaOutputDir ctx) "/" = true ->
  NodePath.normalize (mediaOutputDir ctx) = mediaOutputDir ctx ->
  resolveMediaPath url ctx = Normal (Some m) ->
  lies_under (mediaOutputDir ctx) (filePath m).
Proof.
  intros Habs Hnorm Hres.
  apply resolve_match in Hres
    as (decoded & segments & _ & _ & Hg & Hseg & Hsne & _ & Hfile & _).
  rewrite Hfile.
  assert (Hcases : Forall (fun s => plain s = true) segments \/ segments = ["."]).
  { destruct (segments_after_guard decoded Hg) as [E | [E | [_ Hp]]];
      rewrite <- Hseg in *; [contradiction|now right|now left]. }
  destruct (join_segments (mediaOutputDir ctx) segments Habs Hsne Hcases) as [H1 H2].
  split; [assumption|].
  exists (List.filter plain segments). split.
  - now rewrite H2, path_segments_normalized.
  - clear. induction segments as [|x l IH]; cbn; [constructor|].
    destruct (plain x) eqn:Hx; [constructor|]; assumption.
Qed.

Lemma download_writes (a : asset) (world : asset_world)
    (maxRetries retryDelay : Z) (skipUnchanged : bool) :
  Forall (fun e => match e with
                   | WriteFile path _ => path = filePath (asset_match a)
                   | _ => True
                   end)
         (snd (downloadAsset a world maxRetries retryDelay skipUnchanged)).
Proof.
  unfold downloadAsset. generalize 1%Z as attempt.
  induction (Z.to_nat maxRetries) as [|remaining IH]; intros attempt; cbn [attempt_loop];
    [constructor|].
  destruct (loop_body_cases a world maxRetries retryDelay skipUnchanged attempt)
    as (it & ev & E & H). rewrite E.
  assert (Hev : Forall (fun e => match e with
                                 | WriteFile path _ => path = filePath (asset_match a)
                                 | _ => True
                                 end)
                  (EnsureDirectoryOf (filePath (asset_match a)) :: ev)).
  { constructor; [exact I|].
    destruct H as [(pre & Hpre & [(_ & _ & ->) | (_ & ->)])
                  | [(_ & -> & _) | (resp & bytes & _ & _ & _ & ->)]].
    - apply Forall_app. split; [|repeat constructor].
      destruct Hpre as [-> | [-> | (bytes & ->)]]; repeat constructor.
    - destruct Hpre as [-> | [-> | (bytes & ->)]]; repeat constructor.
    - repeat constructor.
    - repeat constructor. }
  destruct it as [r| |e]; cbn [snd]; try assumption.
  specialize (IH (attempt + 1)%Z).
  destruct (attempt_loop a world maxRetries retryDelay skipUnchanged remaining
              (attempt + 1)%Z) as [r ev']. cbn [snd] in *.
  apply Forall_app. now split.
Qed.

(** X21 - Downloads stay in the media directory: every file that a build
    writes while downloading lies under the media output directory of that
    build. *)
Theorem build_writes_below_media_directory (options : Options.t) (env : build_env)
    (url : string) :
  kirbyUrl env = Some url ->
  let r := netlifyHybridImagesSetup options env in
  Forall (lies_under (mediaOutputDir (build_context options env url)))
         (writes (trace (downloads r))).
Proof.
  intros Hurl r.
  destruct (work_list r) as [|a0 l0] eqn:Hwork.
  { destruct (setup_idle options env Hwork) as (Hd & _). fold r in Hd. rewrite Hd.
    constructor. }
  destruct (setup_download_phase options env) as (url' & Hurl' & H);
    [fold r; rewrite Hwork; discriminate|].
  rewrite Hurl in Hurl'. injection Hurl' as <-.
  cbv zeta in H. fold r in H. destruct H as (_ & Hw & _ & Hd & _).
  rewrite Hd.
  set (ctx := build_context options env url) in *.
  assert (Hevents : Forall (fun e => match e with
                                     | WriteFile path _ => lies_under (mediaOutputDir ctx) path
                                     | _ => True
                                     end)
                      (trace (downloadWithConcurrency (work_list r) (network env)
                         (or_default (Options.maxRetries options) 3)
                         (or_default (Options.retryDelay options) 1000)
                         (Options.skipUnchanged options &&
                          match manifest_path r with Some _ => true | None => false end)
                         (Options.concurrency options) (schedule env)))).
  { apply pool_trace_forall. intros i a Ha.
    eapply Forall_impl; [apply download_writes|].
    intros [| | path content |]; try trivial. intros ->.
    assert (Hin : In a (work_list r))
      by (apply list_elem_of_In; eapply list_elem_of_lookup_2; eassumption).
    rewrite Hw in Hin. apply scanned_assets in Hin as (s & _ & Hs & _).
    destruct (build_media_directory options env url) as [Habs Hnorm].
    eapply match_below_directory; eassumption. }
  clear -Hevents. induction Hevents as [|e ev He _ IH]; [constructor|].
  destruct e; cbn; try assumption. now constructor.
Qed.

Lemma build_writes_below_media_directory_witness :
  Forall (lies_under "/site/public/media")
    (writes (trace (downloads (netlifyHybridImagesSetup defaultOptions
                                 (example_env partly_failing))))).
Proof.
  apply (build_writes_below_media_directory defaultOptions (example_env partly_failing)
           "https://cms.example").
  reflexivity.
Defined.

Lemma requests_Forall (Q : option (list (string * string)) -> Prop) (ev : list event) :
  Forall (fun e => match e with Request _ h => Q h | _ => True end) ev ->
  Forall Q (requests ev).
Proof.
  induction 1 as [|e ev He _ IH]; [constructor|].
  destruct e; cbn; try assumption. now constructor.
Qed.

Lemma download_requests (a : asset) (world : asset_world)
    (maxRetries retryDelay : Z) (skipUnchanged : bool) :
  Forall (fun e => match e with
                   | Request _ h => h = request_headers a world skipUnchanged
                   | _ => True
                   end)
         (snd (downloadAsset a world maxRetries retryDelay skipUnchanged)).
Proof.
  unfold downloadAsset. generalize 1%Z as attempt.
  induction (Z.to_nat maxRetries) as [|remaining IH]; intros attempt; cbn [attempt_loop];
    [constructor|].
  destruct (loop_body_cases a world maxRetries retryDelay skipUnchanged attempt)
    as (it & ev & E & H). rewrite E.
  assert (Hev : Forall (fun e => match e with
                                 | Request _ h => h = request_headers a world skipUnchanged
                                 | _ => True
                                 end)
                  (EnsureDirectoryOf (filePath (asset_match a)) :: ev)).
  { constructor; [exact I|].
    destruct H as [(pre & Hpre & [(_ & _ & ->) | (_ & ->)])
                  | [(_ & -> & _) | (resp & bytes & _ & _ & _ & ->)]].
    - apply Forall_app. split; [|repeat constructor].
      destruct Hpre as [-> | [-> | (bytes & ->)]]; repeat constructor.
    - destruct Hpre as [-> | [-> | (bytes & ->)]]; repeat constructor.
    - repeat constructor.
    - repeat constructor. }
  destruct it as [r| |e]; cbn [snd]; try assumption.
  specialize (IH (attempt + 1)%Z).
  destruct (attempt_loop a world maxRetries retryDelay skipUnchanged remaining
              (attempt + 1)%Z) as [r ev']. cbn [snd] in *.
  apply Forall_app. now split.
Qed.

(** the downloads of a build, as setup_download_phase gives them, also
    for a build that downloads nothing *)
Lemma setup_trace_forall (options : Options.t) (env : build_env) (P : event -> Prop) :
  let r := netlifyHybridImagesSetup options env in
  (forall i a, work_list r !! i = Some a ->
     Forall P (snd (downloadAsset a (network env i)
                      (or_default (Options.maxRetries options) 3)
                      (or_default (Options.retryDelay options) 1000)
                      (Options.skipUnchanged options &&
                       match manifest_path r with Some _ => true | None => false end)))) ->
  Forall P (trace (downloads r)).
Proof.
  cbv zeta. intros HP. rewrite (setup_downloads options env). now apply pool_trace_forall.
Qed.

(** X22 - A full download: with [skipUnchanged] switched off, or without a
    cache manifest, no request of a build carries a validator: every asset
    is asked for unconditionally. *)
Theorem no_validators_without_manifest (options : Options.t) (env : build_env) :
  Options.skipUnchanged options = false \/ Options.cacheManifest options = None ->
  let r := netlifyHybridImagesSetup options env in
  Forall (fun headers => headers = None) (requests (trace (downloads r))).
Proof.
  intros Hoff r. apply requests_Forall, setup_trace_forall.
  intros i a Ha. fold r in Ha |- *.
  assert (Hskip : Options.skipUnchanged options &&
                  match manifest_path r with Some _ => true | None => false end = false).
  { destruct Hoff as [-> | Hnone]; [reflexivity|].
    destruct (setup_download_phase options env) as (url & _ & H).
    - fold r. intros E. rewrite E in Ha. discriminate.
    - cbv zeta in H. fold r in H. destruct H as (-> & _).
      unfold computed_manifest_path. rewrite Hnone. apply andb_false_r. }
  rewrite Hskip. eapply Forall_impl; [apply download_requests|].
  intros [| ? h | |]; trivial.
Qed.

Lemma no_validators_without_manifest_witness :
  Forall (fun headers => headers = None)
    (requests (trace (downloads (netlifyHybridImagesSetup options_without_manifest
                                   (example_env (fun _ => unchanged_origin)))))).
Proof.
  apply (no_validators_without_manifest options_without_manifest
           (example_env (fun _ => unchanged_origin))).
  right. reflexivity.
Defined.

Lemma count_status_all (s : download_status) (l : list (nat * download_status)) :
  Forall (fun c => snd c = s) l -> count_status s l = length l.
Proof.
  unfold count_status. induction 1 as [|[i t] l Ht _ IH]; [reflexivity|].
  cbn in *. rewrite Ht. destruct s; cbn; now rewrite IH.
Qed.



(** ** Builds, outcome by outcome *)

Lemma setup_outcome (options : Options.t) (env : build_env) :
  let r := netlifyHybridImagesSetup options env in
  match outcome r with
  | Crashed e =>
      exists url, kirbyUrl env = Some url /\
        snd (rewrite_entries (build_context options env url) (fileEntries r) []) = Some e
  | Completed => work_list r <> [] /\ failed (downloads r) = 0%nat
  | RewritingSkipped n => n = failed (downloads r) /\ (0 < n)%nat
  | _ => work_list r = []
  end.
Proof.
  cbv zeta. unfold netlifyHybridImagesSetup.
  destruct (Options.enabled options); cbn [negb]; [|reflexivity].
  destruct (kirbyUrl env) as [url|]; [|reflexivity].
  destruct (Js.truthy url); cbn [negb]; [|reflexivity].
  destruct (content_dir_exists env); cbn [negb]; [|reflexivity].
  destruct (json_files env) as [|file files]; [reflexivity|].
  fold (build_context options env url).
  change (NodePath.join [path_resolve (projectRoot env) (Options.publicDir options);
                         Options.mediaDir options])
    with (mediaOutputDir (build_context options env url)).
  destruct (scan _ _ _ (file :: files)) as [[|[k a] assetMap] entries]; [reflexivity|].
  set (result := downloadWithConcurrency _ _ _ _ _ _ _).
  destruct (computed_manifest_path _ options) as [path|].
  - destruct (merge_manifest _ result) as [m changed].
    destruct (Nat.ltb_spec 0 (failed result)) as [Hfailed|Hfailed].
    + run_simpl. now split.
    + destruct (Options.rewriteContent options).
      * destruct (rewrite_entries _ entries []) as [writes [e|]] eqn:Hrw; run_simpl.
        -- exists url. split; [reflexivity|]. now rewrite Hrw.
        -- split; [discriminate|lia].
      * run_simpl. split; [discriminate|lia].
  - destruct (Nat.ltb_spec 0 (failed result)) as [Hfailed|Hfailed].
    + run_simpl. now split.
    + destruct (Options.rewriteContent options).
      * destruct (rewrite_entries _ entries []) as [writes [e|]] eqn:Hrw; run_simpl.
        -- exists url. split; [reflexivity|]. now rewrite Hrw.
        -- split; [discriminate|lia].
      * run_simpl. split; [discriminate|lia].
Qed.

(** the scan of a build: the work list and the documents held *)
Lemma setup_scan (options : Options.t) (env : build_env) (url : string) :
  Options.enabled options = true -> kirbyUrl env = Some url -> url <> "" ->
  content_dir_exists env = true ->
  let r := netlifyHybridImagesSetup options env in
  let ctx := build_context options env url in
  let path := computed_manifest_path (mediaOutputDir ctx) options in
  let scanned := scan ctx path (load_manifest path (stored_manifest env)) (json_files env) in
  work_list r = JsMap.values (fst scanned) /\ fileEntries r = snd scanned.
Proof.
  intros Hen Hurl Hne Hdir. cbv zeta. unfold netlifyHybridImagesSetup.
  rewrite Hen, Hurl, Hdir. apply truthy_spec in Hne. rewrite Hne. cbn [negb].
  destruct (json_files env) as [|file files]; [now split|].
  fold (build_context options env url).
  change (NodePath.join [path_resolve (projectRoot env) (Options.publicDir options);
                         Options.mediaDir options])
    with (mediaOutputDir (build_context options env url)).
  destruct (scan _ _ _ (file :: files)) as [[|[k a] assetMap] entries]; [now split|].
  destruct (computed_manifest_path _ options) as [path|].
  - destruct (merge_manifest _ _) as [m changed].
    destruct (0 <? failed _)%nat; [now split|].
    destruct (Options.rewriteContent options); [|now split].
    destruct (rewrite_entries _ entries []) as [writes [e|]]; now split.
  - destruct (0 <? failed _)%nat; [now split|].
    destruct (Options.rewriteContent options); [|now split].
    destruct (rewrite_entries _ entries []) as [writes [e|]]; now split.
Qed.

(** the documents a build holds were read from the content directory
    and hold no string on which the resolver throws *)
Lemma setup_file_entries (options : Options.t) (env : build_env) (url : string) :
  kirbyUrl env = Some url ->
  Forall (kept_entry (build_context options env url) (json_files env))
         (fileEntries (netlifyHybridImagesSetup options env)).
Proof.
  intros Hurl.
  destruct (Options.enabled options) eqn:Hen.
  2:{ unfold netlifyHybridImagesSetup. rewrite Hen. constructor. }
  destruct (Js.truthy url) eqn:Hne.
  2:{ unfold netlifyHybridImagesSetup. rewrite Hen, Hurl, Hne. constructor. }
  destruct (content_dir_exists env) eqn:Hdir.
  2:{ unfold netlifyHybridImagesSetup. rewrite Hen, Hurl, Hne, Hdir. constructor. }
  apply truthy_spec in Hne.
  destruct (setup_scan options env url Hen Hurl Hne Hdir) as [_ ->].
  apply scan_spec.
Qed.

Lemma rewrite_entries_spec (ctx : media_context) (entries : list (string * json)) :
  Forall (fun entry => Forall (resolves_quietly ctx) (strings_of (snd entry))) entries ->
  forall written,
  rewrite_entries ctx entries written =
    (written ++
     map (fun entry => (fst entry, rewritten_document ctx (snd entry)))
         (List.filter (fun entry => needs_rewriting ctx (snd entry)) entries),
     None).
Proof.
  induction 1 as [|[path data] entries Hquiet _ IH]; intros written.
  - cbn. now rewrite app_nil_r.
  - cbn [rewrite_entries List.filter fst snd] in *.
    rewrite (transformContent_replacing _ (rewritten ctx))
      by now apply rewrite_transformer_computes.
    rewrite IH. unfold needs_rewriting at 2.
    destruct (changes (rewritten ctx) (strings_of data)); [|reflexivity].
    cbn [map fst snd]. now rewrite <- app_assoc.
Qed.



(** X25 - When a build downloads.  The work list of a build is not empty
    exactly when the plugin is enabled, the URL of the CMS is set, the
    content directory exists and some string of a document that could be
    read resolves to a media asset.  A build with an empty work list makes
    no request and writes neither a file, nor the manifest, nor a
    document. *)
Theorem build_downloads_iff_media_found (options : Options.t) (env : build_env) :
  let r := netlifyHybridImagesSetup options env in
  (work_list r <> [] <->
   Options.enabled options = true /\ content_dir_exists env = true /\
   exists url s m,
     kirbyUrl env = Some url /\ url <> "" /\
     In s (scanned_strings (build_context options env url) (json_files env)) /\
     resolveMediaPath s (build_context options env url) = Normal (Some m)) /\
  (work_list r = [] ->
   trace (downloads r) = [] /\ manifest_written r = None /\ document_writes r = []).
Proof.
  intros r. split; [split|].
  - intros Hwork.
    assert (Hen : Options.enabled options = true).
    { destruct (Options.enabled options) eqn:E; [reflexivity|].
      exfalso. apply Hwork. subst r. unfold netlifyHybridImagesSetup. now rewrite E. }
    assert (Hdir : content_dir_exists env = true).
    { destruct (content_dir_exists env) eqn:E; [reflexivity|].
      exfalso. apply Hwork. subst r. unfold netlifyHybridImagesSetup. rewrite Hen, E.
      destruct (kirbyUrl env) as [u|]; [|reflexivity]. now destruct (Js.truthy u). }
    split; [assumption|]. split; [assumption|].
    destruct (setup_download_phase options env Hwork) as (url & Hurl & H).
    cbv zeta in H. fold r in H. destruct H as (_ & Hw & _).
    assert (Hne : url <> "").
    { intros ->. apply Hwork. subst r. unfold netlifyHybridImagesSetup.
      now rewrite Hen, Hurl. }
    destruct (work_list r) as [|a l] eqn:E; [contradiction|].
    assert (Hin : In a (a :: l)) by now left.
    rewrite Hw in Hin. apply scanned_assets in Hin as (s & Hs & Hr & _).
    exists url, s, (asset_match a). now repeat split.
  - intros (Hen & Hdir & url & s & m & Hurl & Hne & Hs & Hr).
    destruct (setup_scan options env url Hen Hurl Hne Hdir) as [Hw _].
    cbv zeta in Hw. fold r in Hw. rewrite Hw.
    set (path := computed_manifest_path _ options) in *.
    set (ctx := build_context options env url) in *.
    destruct (scan_well_keyed ctx path (load_manifest path (stored_manifest env))
                (json_files env)) as [_ Hget].
    destruct (first_match_found ctx _ s m Hs Hr) as [first Hfirst].
    specialize (Hget (cacheKey m)). rewrite Hfirst in Hget. cbn [option_map] in Hget.
    apply get_in_values in Hget. intros E. rewrite E in Hget. contradiction.
  - intros Hwork. destruct (setup_idle options env Hwork) as (Hd & Hw & Hm & _).
    fold r in Hd, Hw, Hm. rewrite Hd. now repeat split.
Qed.

(** ** The manifest, entry by entry *)

Lemma JsMap_set_NoDup {V} (m : list (string * V)) (k : string) (v : V) :
  NoDup (JsMap.keys m) -> NoDup (JsMap.keys (JsMap.set m k v)).
Proof.
  unfold JsMap.keys. induction m as [|[k0 v0] m IH]; cbn [JsMap.set map fst].
  - intros _. repeat constructor. intros H. inversion H.
  - intros Hnd. apply NoDup_cons in Hnd as [Hk Hnd].
    destruct (String.eqb_spec k0 k) as [->|Hne]; cbn [map fst].
    + now apply NoDup_cons.
    + apply NoDup_cons. split; [|now apply IH].
      intros Hin. apply list_elem_of_In, (JsMap_keys_set m k v k0) in Hin.
      destruct Hin as [->|Hin]; [contradiction|]. now apply Hk, list_elem_of_In.
Qed.

Lemma pool_updates_NoDup (assets : list asset) (world : nat -> asset_world)
    (maxRetries retryDelay : Z) (skipUnchanged : bool)
    (concurrency : Z) (schedule : list nat) :
  NoDup (JsMap.keys (manifestUpdates
           (downloadWithConcurrency assets world maxRetries retryDelay skipUnchanged
              concurrency schedule))).
Proof.
  apply (pool_result assets world maxRetries retryDelay skipUnchanged
           (fun st => NoDup (JsMap.keys (manifestUpdates st)))).
  - constructor.
  - intros st H. destruct (spawn_fields assets st) as (_ & _ & _ & -> & _). exact H.
  - intros w st H.
    destruct (resume_fields assets world maxRetries retryDelay skipUnchanged w st)
      as [(_ & _ & _ & -> & _) | (i & a & _ & _ & _ & _ & ->)]; [exact H|].
    destruct (own_update _ _ _ _ _ i); [now apply JsMap_set_NoDup|exact H].
Qed.

Lemma upsert_fold_changed (updates : list (string * metadata)) :
  forall m : gmap string metadata, snd (fold_left upsert updates (m, true)) = true.
Proof. induction updates as [|u l IH]; intros m; [reflexivity|]. cbn. apply IH. Qed.

(** what the upserts make of the entry of a key *)
Lemma upsert_fold_value (updates : list (string * metadata)) :
  NoDup (JsMap.keys updates) ->
  forall (m : gmap string metadata) (changed : bool) (k : string) (v : metadata),
  JsMap.get updates k = Some v ->
  fst (fold_left upsert updates (m, changed)) !! k =
    Some (spread (default empty_object (m !! k)) v) /\
  snd (fold_left upsert updates (m, changed)) = true.
Proof.
  induction updates as [|[key data] updates IH]; intros Hnd m changed k v; [discriminate|].
  cbn [JsMap.keys map fst] in Hnd. apply NoDup_cons in Hnd as [Hkey Hnd].
  cbn [JsMap.get fold_left].
  replace (upsert (m, changed) (key, data))
    with (<[key := spread (default empty_object (m !! key)) data]> m, true)
    by reflexivity.
  destruct (String.eqb_spec key k) as [->|Hne].
  - intros [= ->]. split; [|apply upsert_fold_changed].
    destruct (upsert_fold updates
                (<[k := spread (default empty_object (m !! k)) v]> m) true k)
      as (_ & H2 & _). cbv zeta in H2.
    rewrite H2 by (intros Hin; now apply Hkey, list_elem_of_In).
    apply lookup_insert_eq.
  - intros Hget. destruct (IH Hnd (<[key := spread (default empty_object (m !! key)) data]> m)
                             true k v Hget) as [H1 H2].
    split; [|assumption]. rewrite H1. now rewrite lookup_insert_ne.
Qed.

(** the manifest after a build, for a key that the downloads did not
    remove *)
Lemma merge_manifest_value (manifest : gmap string metadata) (result : pool_state)
    (k : string) (v : metadata) :
  NoDup (JsMap.keys (manifestUpdates result)) ->
  JsMap.get (manifestUpdates result) k = Some v ->
  ~ In k (manifestRemovals result) ->
  fst (merge_manifest manifest result) !! k =
    Some (spread (default empty_object (manifest !! k)) v) /\
  snd (merge_manifest manifest result) = true.
Proof.
  intros Hnd Hget Hrem. unfold merge_manifest.
  destruct (upsert_fold_value _ Hnd manifest false k v Hget) as [H1 H2].
  destruct (fold_left upsert (manifestUpdates result) (manifest, false)) as [m1 c1].
  cbn [fst snd] in *. subst c1.
  destruct (remove_fold (manifestRemovals result) m1 true k) as (_ & R2 & R3).
  cbv zeta in R2, R3. split; [now rewrite R2|].
  destruct (snd (fold_left remove_key (manifestRemovals result) (m1, true))) eqn:E;
    [reflexivity|]. now destruct (R3 eq_refl).
Qed.

(** the status the pool has recorded for an asset *)
Lemma completed_status (assets : list asset) (world : nat -> asset_world)
    (maxRetries retryDelay : Z) (skipUnchanged : bool)
    (concurrency : Z) (schedule : list nat) (i : nat) (a : asset) :
  assets !! i = Some a ->
  In (i, dl_status (fst (downloadAsset a (world i) maxRetries retryDelay skipUnchanged)))
     (completed (downloadWithConcurrency assets world maxRetries retryDelay skipUnchanged
                   concurrency schedule)).
Proof.
  intros Ha. apply completed_own_status. unfold own_status, own_download. now rewrite Ha.
Qed.

Lemma metadata_checkedAt (a : asset) (world : asset_world)
    (maxRetries retryDelay : Z) (skipUnchanged : bool) (md : metadata) :
  dl_metadata (fst (downloadAsset a world maxRetries retryDelay skipUnchanged)) = Some md ->
  exists t, checkedAt md = Value t.
Proof.
  unfold downloadAsset.
  pose proof (attempt_loop_outcome a world maxRetries retryDelay skipUnchanged
                (Z.to_nat maxRetries) 1) as H. cbv zeta in H.
  destruct (dl_status _).
  - destruct H as (ev & n & resp & bytes & _ & _ & _ & _ & ->). intros [= <-]. cbn. eauto.
  - destruct H as (ev & n & _ & _ & _ & ->). intros [= <-]. cbn. eauto.
  - rewrite H. discriminate.
Qed.



(** X27 - The manifest only grows by what a build touches: the entry of a
    key that is the cache key of no asset of the work list is in the
    manifest file after the build as it was before, up to the properties
    without a value, which a written manifest does not hold. *)
Theorem manifest_keeps_other_entries (options : Options.t) (env : build_env) (k : string) :
  let r := netlifyHybridImagesSetup options env in
  (forall a, In a (work_list r) -> cacheKey (asset_match a) <> k) ->
  persisted_after r env !! k = entries_of (stored_manifest env) !! k \/
  persisted_after r env !! k = stringify_metadata <$> entries_of (stored_manifest env) !! k.
Proof.
  intros r Hother. unfold persisted_after.
  destruct (work_list r) as [|a0 l0] eqn:Hwork.
  { destruct (setup_idle options env Hwork) as (_ & _ & Hw & _). fold r in Hw.
    rewrite Hw. now left. }
  destruct (setup_download_phase options env) as (url & _ & H);
    [fold r; rewrite Hwork; discriminate|].
  cbv zeta in H. fold r in H. destruct H as (_ & _ & _ & _ & _ & Hwritten & _).
  destruct (setup_pool_inv options env) as [Hinv _]. fold r in Hinv.
  rewrite Hwritten. destruct (manifest_path r) as [p|]; [|now left].
  destruct (snd (merge_manifest _ _)); [|now left]. right.
  rewrite lookup_fmap. f_equal.
  destruct (merge_manifest_lookup (load_manifest (Some p) (stored_manifest env))
              (downloads r) k) as (_ & _ & Hsame & _). cbv zeta in Hsame.
  rewrite Hsame, load_manifest_configured; [reflexivity| |].
  - intros Hin. apply (inv_removals _ Hinv) in Hin as (j & b & _ & Hb & Hk).
    apply (Hother b); [|assumption]. rewrite <- Hwork.
    apply list_elem_of_In. eapply list_elem_of_lookup_2; eassumption.
  - intros Hin. apply (inv_updates _ Hinv) in Hin as (j & s & b & _ & _ & Hb & Hk).
    apply (Hother b); [|assumption]. rewrite <- Hwork.
    apply list_elem_of_In. eapply list_elem_of_lookup_2; eassumption.
Qed.

Lemma manifest_keeps_other_entries_witness :
  let env := stale_env in
  let r := netlifyHybridImagesSetup defaultOptions env in
  persisted_after r env !! "media/pages/old/logo.svg"
    = entries_of (stored_manifest env) !! "media/pages/old/logo.svg" \/
  persisted_after r env !! "media/pages/old/logo.svg"
    = stringify_metadata <$> entries_of (stored_manifest env) !! "media/pages/old/logo.svg".
Proof.
  apply (manifest_keeps_other_entries defaultOptions stale_env "media/pages/old/logo.svg").
  vm_compute. intros a [<-|[<-|[]]]; discriminate.
Defined.

(** ** Builds and the content directory *)

(** X28 - The documents a build writes: each of them overwrites a file of the
    content directory that the build had read, with the rewritten form of
    what it had read; the file held a string that the rewriter changes and
    no string on which the resolver throws. *)
Theorem written_documents_are_rewritten_sources (options : Options.t) (env : build_env)
    (path : string) (data : json) :
  let r := netlifyHybridImagesSetup options env in
  In (path, data) (document_writes r) ->
  exists url original,
    kirbyUrl env = Some url /\
    let ctx := build_context options env url in
    In (path, Some original) (json_files env) /\
    data = rewritten_document ctx original /\
    needs_rewriting ctx original = true /\
    Forall (resolves_quietly ctx) (strings_of original).
Proof.
  intros r Hin.
  assert (Hwork : work_list r <> []).
  { intros E. destruct (setup_idle options env E) as (_ & Hw & _). fold r in Hw.
    now rewrite Hw in Hin. }
  destruct (setup_download_phase options env Hwork) as (url & Hurl & H).
  cbv zeta in H. fold r in H. destruct H as (_ & _ & _ & _ & _ & _ & Hskip & Hw).
  destruct (Nat.eq_dec (failed (downloads r)) 0) as [Hfailed|Hfailed].
  2:{ destruct (Hskip ltac:(lia)) as [_ E]. now rewrite E in Hin. }
  rewrite (Hw Hfailed) in Hin.
  destruct (Options.rewriteContent options); [|contradiction].
  pose proof (setup_file_entries options env url Hurl) as Hkept. fold r in Hkept.
  rewrite rewrite_entries_spec in Hin
    by (eapply Forall_impl; [exact Hkept|]; now intros entry [_ Hq]).
  cbn [fst app] in Hin. apply in_map_iff in Hin as ([p original] & [= <- <-] & Hin).
  apply filter_In in Hin as [Hin Hneeds]. cbn [fst snd] in *.
  rewrite List.Forall_forall in Hkept. destruct (Hkept _ Hin) as [Hfile Hquiet].
  exists url, original. now repeat split.
Qed.

Lemma written_documents_are_rewritten_sources_witness :
  exists url original,
    kirbyUrl (example_env (fun _ => healthy_origin)) = Some url /\
    let ctx := build_context defaultOptions (example_env (fun _ => healthy_origin)) url in
    In ("/site/public/content/about.json", Some original)
       (json_files (example_env (fun _ => healthy_origin))) /\
    JObject [("portrait", JString "/media/pages/home/hero.jpg?w=800")]
      = rewritten_document ctx original /\
    needs_rewriting ctx original = true /\
    Forall (resolves_quietly ctx) (strings_of original).
Proof.
  apply (written_documents_are_rewritten_sources defaultOptions
           (example_env (fun _ => healthy_origin))
           "/site/public/content/about.json"
           (JObject [("portrait", JString "/media/pages/home/hero.jpg?w=800")])).
  vm_compute. auto.
Defined.

Lemma quiet_prefix_incl (ctx : media_context) (l : list string) (s : string) :
  In s (quiet_prefix ctx l) -> In s l.
Proof.
  induction l as [|x l IH]; [intros []|]. cbn [quiet_prefix].
  destruct (resolveMediaPath x ctx) as [[m|]|e]; [| |intros []];
    (intros [<-|H]; [now left|right; now apply IH]).
Qed.

Lemma scanned_strings_origin (ctx : media_context) (files : list (string * option json))
    (s : string) :
  In s (scanned_strings ctx files) ->
  exists file data, In file files /\ snd file = Some data /\ In s (strings_of data).
Proof.
  unfold scanned_strings. intros Hin. apply in_flat_map in Hin as (file & Hfile & Hs).
  destruct (snd file) as [data|] eqn:E; [|contradiction].
  exists file, data. split; [assumption|]. split; [exact E|].
  eapply quiet_prefix_incl; eassumption.
Qed.

Lemma media_prefix_not_rooted (url : string) :
  url <> "" -> Js.startsWith url "/" = false ->
  url +:+ "/media/" <> "" /\ Js.startsWith (url +:+ "/media/") "/" = false.
Proof.
  destruct url as [|c url]; [contradiction|]. intros _ H. string_app.
  split; [discriminate|]. unfold Js.startsWith in *. cbn [String.prefix] in *.
  destruct (ascii_dec "/" c); [|reflexivity]. destruct url; discriminate H.
Qed.

(** X29 - A second build over rewritten content.  When the URL of the CMS
    does not begin with a slash and every document of the content directory
    is an array or an object that was read without an exception of the
    resolver, a build over the rewritten documents finds no media URL: its
    work list is empty. *)
Theorem rewritten_content_needs_no_download (options : Options.t) (env : build_env)
    (url : string) :
  kirbyUrl env = Some url -> url <> "" -> Js.startsWith url "/" = false ->
  let ctx := build_context options env url in
  Forall (fun file => exists data,
            snd file = Some data /\ is_container data = true /\
            Forall (resolves_quietly ctx) (strings_of data)) (json_files env) ->
  work_list (netlifyHybridImagesSetup options (rewritten_content ctx env)) = [].
Proof.
  intros Hurl Hne Hrel ctx Hfiles.
  destruct (work_list _) as [|a l] eqn:Hwork; [reflexivity|]. exfalso.
  destruct (setup_download_phase options (rewritten_content ctx env))
    as (url' & Hurl' & H); [rewrite Hwork; discriminate|].
  cbn [rewritten_content kirbyUrl] in Hurl'. rewrite Hurl in Hurl'. injection Hurl' as <-.
  cbv zeta in H. destruct H as (_ & Hw & _).
  change (build_context options (rewritten_content ctx env) url) with ctx in Hw.
  assert (Hin : In a (a :: l)) by now left.
  rewrite <- Hwork, Hw in Hin. apply scanned_assets in Hin as (s & Hs & Hr & _).
  apply scanned_strings_origin in Hs as (file' & data' & Hfile' & Hdata' & Hs).
  cbn [rewritten_content json_files] in Hfile'.
  apply in_map_iff in Hfile' as (file & <- & Hfile). cbn [snd] in Hdata'.
  rewrite List.Forall_forall in Hfiles.
  destruct (Hfiles file Hfile) as (data & Hdata & _ & _).
  rewrite Hdata in Hdata'. injection Hdata' as <-.
  rewrite strings_of_replaced in Hs. apply in_map_iff in Hs as (s0 & <- & _).
  destruct (media_prefix_not_rooted url Hne Hrel) as [Hpne Hprel].
  destruct (rewritten_twice ctx s0 Hpne Hprel) as [E|E]; [congruence|].
  rewrite E in Hr. unfold rewritten in E. rewrite Hr in E.
  destruct (resolve_match _ _ _ Hr)
    as (decoded & segments & _ & _ & _ & _ & _ & _ & _ & Hl & Hq).
  assert (Hrooted : exists rest, s0 = "/" +:+ rest).
  { rewrite <- E, Hq, Hl. cbv zeta. destruct (Js.truthy _); eexists.
    - rewrite !append_assoc. reflexivity.
    - reflexivity. }
  destruct Hrooted as [rest ->].
  rewrite (resolve_rooted ctx rest Hpne Hprel) in Hr. discriminate.
Qed.

Lemma rewritten_content_needs_no_download_witness :
  work_list
    (netlifyHybridImagesSetup defaultOptions
       (rewritten_content (build_context defaultOptions stale_env "https://cms.example")
          stale_env)) = [].
Proof.
  apply (rewritten_content_needs_no_download defaultOptions stale_env "https://cms.example").
  - reflexivity.
  - discriminate.
  - reflexivity.
  - repeat constructor. exists home_document. split; [reflexivity|]. split; [reflexivity|].
    repeat constructor; intros e; vm_compute; discriminate.
Defined.
